(** * wallet_monitor: a shallow embedding of the activity-ingestion pipeline

    The development follows the JavaScript sources module by module:

    - [JS]: the few pieces of the language and of the [ethers] library the
      code relies on (lower-casing, number/string conversions, the
      relational comparison of a string with a BigInt, [formatEther]);
    - [RefRedis]: the referral graph kept in Redis (src/db/redis.js);
    - [TransactionProcessor]: the classifier (process.js);
    - [BlockScanner]: the range scanner (scan.js);
    - [MessageTemplates]: the activity analysis (notify/text.js);
    - [TgBot]: the outbound message queue (src/notify/bot.js);
    - [Utils]: the exchange lookup (src/utils.js);
    - [WalletMonitor]: the monitor loop, the new-wallet detection and the
      management interface (main.js);
    - [DatabaseExecutor]: the import into the referral graph (src/exe.js).

    Asynchronous code is modelled in a state-and-exception monad: an [await]
    is a bind, a [throw] is [Thrown], [try]/[catch] is [try_catch]. Calls that
    leave the process (ledger RPC, the Telegram sink, the reputation service)
    are oracles passed as arguments. *)

From Stdlib Require Import ZArith NArith String Ascii DecimalString DecimalN Sorted.
From stdpp Require Import gmap strings list.

Local Open Scope Z_scope.

(** ** Outcomes of JavaScript computations *)

Inductive exn : Type :=
  | NodeAlreadyExists (wallet : string)
  | NodeDoesNotExist (wallet : string)
  | TypeError (what : string)
  | RpcError (what : string).

Inductive outcome (A : Type) : Type :=
  | Returned (a : A)
  | Thrown (e : exn).
Arguments Returned {A} a.
Arguments Thrown {A} e.

(** A computation over a mutable state [S]: the state after a [throw] is the
    state at the point of the throw. *)
Definition Eff (S A : Type) : Type := S -> outcome A * S.

Definition ret {S A} (a : A) : Eff S A := fun s => (Returned a, s).
Definition throw {S A} (e : exn) : Eff S A := fun s => (Thrown e, s).
Definition bind {S A B} (m : Eff S A) (k : A -> Eff S B) : Eff S B :=
  fun s => match m s with
           | (Returned a, s') => k a s'
           | (Thrown e, s') => (Thrown e, s')
           end.
Definition try_catch {S A} (m : Eff S A) (h : exn -> Eff S A) : Eff S A :=
  fun s => match m s with
           | (Returned a, s') => (Returned a, s')
           | (Thrown e, s') => h e s'
           end.
Definition get_state {S} : Eff S S := fun s => (Returned s, s).
Definition modify {S} (f : S -> S) : Eff S unit := fun s => (Returned tt, f s).

Declare Scope eff_scope.
Delimit Scope eff_scope with eff.
Notation "'let*' x ':=' m 'in' k" := (bind m (fun x => k))
  (at level 10, x name, m at level 100, k at level 200) : eff_scope.
Notation "m ';;;' k" := (bind m (fun _ => k))
  (at level 100, k at level 200, right associativity) : eff_scope.

(** ** The JavaScript and ethers primitives used by the sources *)

Module JS.

(** [String.prototype.toLowerCase] on the ASCII range, which is where wallet
    addresses and Redis keys live. *)
Definition lower_ascii (c : ascii) : ascii :=
  let n := nat_of_ascii c in
  if (65 <=? n)%nat && (n <=? 90)%nat then ascii_of_nat (n + 32) else c.

Fixpoint toLowerCase (s : string) : string :=
  match s with
  | EmptyString => EmptyString
  | String c r => String (lower_ascii c) (toLowerCase r)
  end.

(** A JavaScript number that is an integer or [NaN]. The model follows the
    code on the safe integers, of magnitude at most [2^53 - 1]: there the
    sum and the printing of doubles are those of [Z]. Beyond them a double
    rounds, and from [1e21] on [toString] prints an exponent, which [Int]
    does not follow; statements about a number given by the caller are
    restricted to the safe integers. *)
Inductive num : Type :=
  | Int (z : Z)
  | NaN.

Definition num_add (a b : num) : num :=
  match a, b with
  | Int x, Int y => Int (x + y)
  | _, _ => NaN
  end.

(** Decimal printing of a natural number ([BigInt.prototype.toString],
    [Number.prototype.toString] on a non-negative integer). *)
Definition N_to_string (n : N) : string :=
  NilZero.string_of_uint (N.to_uint n).

Definition Z_to_string (z : Z) : string :=
  if z <? 0 then "-" +:+ N_to_string (Z.to_N (- z)) else N_to_string (Z.to_N z).

Definition num_toString (x : num) : string :=
  match x with
  | Int z => Z_to_string z
  | NaN => "NaN"
  end.

Definition is_digit (c : ascii) : bool :=
  let n := nat_of_ascii c in (48 <=? n)%nat && (n <=? 57)%nat.

Definition digit_cons (c : ascii) (d : Decimal.uint) : Decimal.uint :=
  match c with
  | "0"%char => Decimal.D0 d | "1"%char => Decimal.D1 d
  | "2"%char => Decimal.D2 d | "3"%char => Decimal.D3 d
  | "4"%char => Decimal.D4 d | "5"%char => Decimal.D5 d
  | "6"%char => Decimal.D6 d | "7"%char => Decimal.D7 d
  | "8"%char => Decimal.D8 d | _ => Decimal.D9 d
  end.

(** The longest prefix of decimal digits of [s]. *)
Fixpoint take_digits (s : string) : Decimal.uint :=
  match s with
  | EmptyString => Decimal.Nil
  | String c r => if is_digit c then digit_cons c (take_digits r) else Decimal.Nil
  end.

(** The value of a hexadecimal digit. *)
Definition hex_value (c : ascii) : option N :=
  let n := nat_of_ascii c in
  if (48 <=? n)%nat && (n <=? 57)%nat then Some (N.of_nat (n - 48))
  else if (97 <=? n)%nat && (n <=? 102)%nat then Some (N.of_nat (n - 87))
  else if (65 <=? n)%nat && (n <=? 70)%nat then Some (N.of_nat (n - 55))
  else None.

Definition is_space (c : ascii) : bool :=
  let n := nat_of_ascii c in
  (n =? 32)%nat || ((9 <=? n)%nat && (n <=? 13)%nat).

Fixpoint skip_spaces (s : string) : string :=
  match s with
  | EmptyString => EmptyString
  | String c r => if is_space c then skip_spaces r else s
  end.

(** The longest prefix of hexadecimal digits of [s], read as a number;
    [seen] tells whether a digit was read. *)
Fixpoint take_hex (acc : N) (seen : bool) (s : string) : option N :=
  match s with
  | EmptyString => if seen then Some acc else None
  | String c r =>
      match hex_value c with
      | Some v => take_hex (acc * 16 + v)%N true r
      | None => if seen then Some acc else None
      end
  end.

(** The number [parseInt] reads after the sign: after [0x] or [0X] the
    longest run of hexadecimal digits, and otherwise the longest run of
    decimal digits; [None] when there is no digit. *)
Definition parse_magnitude (body : string) : option N :=
  match body with
  | String "0"%char (String "x"%char r) | String "0"%char (String "X"%char r) =>
      take_hex 0 false r
  | _ =>
      match take_digits body with
      | Decimal.Nil => None
      | d => Some (N.of_uint d)
      end
  end.

(** [parseInt(s)] without a radix: leading white space is skipped, an
    optional sign is read, then the number; no digit gives [NaN]. *)
Definition parseInt (s : string) : num :=
  let t := skip_spaces s in
  let '(neg, body) :=
    match t with
    | String "-"%char r => (true, r)
    | String "+"%char r => (false, r)
    | _ => (false, t)
    end in
  match parse_magnitude body with
  | Some n => Int (if neg : bool then - Z.of_N n else Z.of_N n)
  | None => NaN
  end.

(** [s || dflt] for a string [s]: the empty string is falsy. *)
Definition str_or (s dflt : string) : string :=
  if String.eqb s "" then dflt else s.

(** [s.slice(0, n)] and [s.slice(n)] for [0 <= n]. *)
Fixpoint slice_to (n : nat) (s : string) : string :=
  match n, s with
  | S n', String c r => String c (slice_to n' r)
  | _, _ => EmptyString
  end.

Fixpoint slice_from (n : nat) (s : string) : string :=
  match n, s with
  | S n', String _ r => slice_from n' r
  | _, _ => s
  end.

(** *** StringToBigInt and the comparison of a string with a BigInt *)

Definition digit_value (c : ascii) : option N :=
  let n := nat_of_ascii c in
  if (48 <=? n)%nat && (n <=? 57)%nat then Some (N.of_nat (n - 48))
  else if (97 <=? n)%nat && (n <=? 102)%nat then Some (N.of_nat (n - 87))
  else if (65 <=? n)%nat && (n <=? 70)%nat then Some (N.of_nat (n - 55))
  else None.

Fixpoint parse_digits (radix acc : N) (s : string) : option N :=
  match s with
  | EmptyString => Some acc
  | String c r =>
      match digit_value c with
      | Some v => if (v <? radix)%N then parse_digits radix (acc * radix + v)%N r else None
      | None => None
      end
  end.

Definition parse_literal (radix : N) (s : string) : option Z :=
  match s with
  | EmptyString => None
  | _ => Z.of_N <$> parse_digits radix 0%N s
  end.

Fixpoint trim_end (s : string) : string :=
  match s with
  | EmptyString => EmptyString
  | String c r =>
      let r' := trim_end r in
      if is_space c && String.eqb r' "" then EmptyString else String c r'
  end.

(** The abstract operation StringToBigInt of ECMAScript: the text, white
    space trimmed, must be empty (giving [0n]), a signed decimal integer, or
    a binary, octal or hexadecimal literal; anything else is [undefined]. *)
Definition StringToBigInt (s : string) : option Z :=
  let t := trim_end (skip_spaces s) in
  match t with
  | EmptyString => Some 0
  | String "-"%char r => Z.opp <$> parse_literal 10 r
  | String "+"%char r => parse_literal 10 r
  | String "0"%char (String "x"%char r) | String "0"%char (String "X"%char r) =>
      parse_literal 16 r
  | String "0"%char (String "o"%char r) | String "0"%char (String "O"%char r) =>
      parse_literal 8 r
  | String "0"%char (String "b"%char r) | String "0"%char (String "B"%char r) =>
      parse_literal 2 r
  | _ => parse_literal 10 t
  end.

(** [s >= n] for a string [s] and a BigInt [n]: the string is converted with
    StringToBigInt, and the comparison is [false] when that is [undefined]. *)
Definition str_ge_bigint (s : string) (n : Z) : bool :=
  match StringToBigInt s with
  | Some z => n <=? z
  | None => false
  end.

(** *** ethers: formatUnits and formatEther

    [formatUnits(value, decimals)] prints the integer part, a dot and the
    fraction on [decimals] digits, from which trailing zeros are dropped as
    long as one digit remains after the dot. *)
Fixpoint pad_zeros (width : nat) (s : string) : string :=
  match width with
  | O => s
  | S w => if (String.length s <? width)%nat then String "0" (pad_zeros w s) else s
  end.

Fixpoint strip_zeros_end (s : string) : string :=
  match s with
  | EmptyString => EmptyString
  | String c r =>
      let r' := strip_zeros_end r in
      if Ascii.eqb c "0" && String.eqb r' "" then EmptyString else String c r'
  end.

Definition fraction_digits (decimals : nat) (frac : N) : string :=
  let digits := strip_zeros_end (pad_zeros decimals (N_to_string frac)) in
  if String.eqb digits "" then "0" else digits.

Definition formatUnits (value : Z) (decimals : nat) : string :=
  let unit := (10 ^ N.of_nat decimals)%N in
  let v := Z.abs_N value in
  let sign := if value <? 0 then "-" else "" in
  match decimals with
  | O => sign +:+ N_to_string v
  | _ => sign +:+ N_to_string (v / unit) +:+ "." +:+ fraction_digits decimals (v mod unit)
  end.

Definition formatEther (value : Z) : string := formatUnits value 18.

End JS.

(** ** RefRedis: the referral graph (src/db/redis.js) *)

Module RefRedis.
Import JS.

(** The hash stored under a node key. [addNode] is the only writer that
    creates one and it always writes the six fields; [lv] is stored as the
    decimal string of the level. *)
Record node_hash : Type := mkHash {
  h_id : string;
  h_name : string;
  h_wallet : string;
  h_refer : string;
  h_refer_id : string;
  h_lv : string
}.

(** The part of the Redis keyspace the class touches: hashes and sets, both
    addressed by their full key. The connection is taken to be up
    ([connect()] resolves). *)
Record db : Type := mkDb {
  hashes : gmap string node_hash;
  sets : gmap string (gset string)
}.

Definition empty_db : db := mkDb ∅ ∅.

(** The argument of [addNode]. *)
Record node_info : Type := mkInfo {
  id : string;
  name : string;
  wallet : string;
  refer : string;
  refer_id : string;
  lv : num
}.

Record node_fields : Type := mkFields {
  f_id : option string;
  f_name : option string;
  f_refer : option string;
  f_refer_id : option string;
  f_lv : option num
}.

Section WithPrefix.

Variable prefix : string.

Definition nodeKey (w : string) : string := prefix +:+ "node:" +:+ toLowerCase w.
Definition allWalletsKey : string := prefix +:+ "all_wallets".

(** Redis commands. *)
Definition redis_exists (key : string) : Eff db Z :=
  fun d => (Returned (match hashes d !! key with Some _ => 1 | None => 0 end), d).

Definition hSet (key : string) (h : node_hash) : Eff db unit :=
  modify (fun d => mkDb (<[key := h]> (hashes d)) (sets d)).

Definition sAdd (key member : string) : Eff db unit :=
  modify (fun d => mkDb (hashes d)
                        (<[key := {[member]} ∪ default ∅ (sets d !! key)]> (sets d))).

Definition hGetAll (key : string) : Eff db (option node_hash) :=
  fun d => (Returned (hashes d !! key), d).

Definition del (key : string) : Eff db unit :=
  modify (fun d => mkDb (delete key (hashes d)) (delete key (sets d))).

Definition sRem (key member : string) : Eff db unit :=
  modify (fun d => mkDb (hashes d)
                        (<[key := default ∅ (sets d !! key) ∖ {[member]}]> (sets d))).

Definition sMembers (key : string) : Eff db (gset string) :=
  fun d => (Returned (default ∅ (sets d !! key)), d).

Local Open Scope eff_scope.

Definition existsWallet (w : string) : Eff db bool :=
  let w := toLowerCase w in
  let key := nodeKey w in
  let* ex := redis_exists key in
  ret (ex =? 1).

Definition addNode (info : node_info) : Eff db unit :=
  let w := toLowerCase (wallet info) in
  let key := nodeKey w in
  let* ex := redis_exists key in
  if negb (ex =? 0) then throw (NodeAlreadyExists w)
  else
    let hash := {| h_id := id info;
                   h_name := name info;
                   h_wallet := w;
                   h_refer := toLowerCase (refer info);
                   h_refer_id := refer_id info;
                   h_lv := num_toString (lv info) |} in
    hSet key hash ;;;
    sAdd allWalletsKey w.

(** [addNodeLite(wallet, name, refer)]; [fresh_id] is the value
    [generateId()] returns (time stamp and random suffix). The parent's hash
    is read right after its key was seen to exist; were it gone, its [id]
    would be [undefined] and the write of the new hash would be refused. *)
Definition addNodeLite (w nm rf fresh_id : string) : Eff db unit :=
  let w := toLowerCase w in
  let rf := toLowerCase rf in
  let* existsRef := existsWallet rf in
  let* chain :=
    (if negb existsRef then ret (Int 1, "")
     else
       let parentKey := nodeKey rf in
       let* parent := hGetAll parentKey in
       match parent with
       | None => throw (TypeError "parent")
       | Some parent =>
           let parentLv := parseInt (str_or (h_lv parent) "0") in
           let parentReferId := str_or (h_refer_id parent) "" in
           let lv := num_add parentLv (Int 1) in
           if negb (String.eqb parentReferId "") && (0 <? Z.of_nat (String.length parentReferId))
           then ret (lv, parentReferId +:+ ";" +:+ h_id parent)
           else ret (lv, h_id parent)
       end) in
  let info := {| id := fresh_id; name := nm; wallet := w; refer := rf;
                 refer_id := snd chain; lv := fst chain |} in
  addNode info.

Definition removeNode (w : string) : Eff db unit :=
  let originalWallet := w in
  let w := toLowerCase w in
  let key := nodeKey w in
  del key ;;;
  sRem allWalletsKey originalWallet ;;;
  sRem allWalletsKey w.

Definition getNameByWallet (w : string) : Eff db (option string) :=
  fun d => (Returned (h_name <$> hashes d !! nodeKey (toLowerCase w)), d).

Definition getAllWallets : Eff db (list string) :=
  let* m := sMembers allWalletsKey in
  ret (elements m).

Definition getNodeInfo (w : string) : Eff db (option node_info) :=
  let w := toLowerCase w in
  let key := nodeKey w in
  let* obj := hGetAll key in
  match obj with
  | None => ret None
  | Some obj =>
      ret (Some {| id := h_id obj; name := h_name obj; wallet := h_wallet obj;
                   refer := h_refer obj; refer_id := h_refer_id obj;
                   lv := parseInt (str_or (h_lv obj) "0") |})
  end.

(** The [fields] argument of [updateNode]: a field is [None] when it is
    [undefined]. *)
Definition merge_fields (fields : node_fields) (h : node_hash) : node_hash :=
  {| h_id := default (h_id h) (f_id fields);
     h_name := default (h_name h) (f_name fields);
     h_wallet := h_wallet h;
     h_refer := default (h_refer h) (toLowerCase <$> f_refer fields);
     h_refer_id := default (h_refer_id h) (f_refer_id fields);
     h_lv := default (h_lv h) (num_toString <$> f_lv fields) |}.

(** [hSet(key, updateHash)] on a hash that exists: the fields given replace
    the stored ones, the others stay. *)
Definition hSet_fields (key : string) (fields : node_fields) : Eff db unit :=
  modify (fun d => mkDb (alter (merge_fields fields) key (hashes d)) (sets d)).

Definition updateNode (w : string) (fields : node_fields) : Eff db unit :=
  let w := toLowerCase w in
  let key := nodeKey w in
  let* ex := redis_exists key in
  if ex =? 0 then throw (NodeDoesNotExist w)
  else hSet_fields key fields.

(** The loop of [clearAllWallets] over the listed wallets. *)
Fixpoint clear_each (wallets : list string) (removedCount : Z) : Eff db Z :=
  match wallets with
  | [] => ret removedCount
  | w :: rest =>
      del (nodeKey (toLowerCase w)) ;;;
      clear_each rest (removedCount + 1)
  end.

Definition clearAllWallets : Eff db Z :=
  try_catch
    (let* wallets := getAllWallets in
     let* removedCount := clear_each wallets 0 in
     del allWalletsKey ;;;
     ret removedCount)
    (fun e => throw e).

End WithPrefix.

End RefRedis.

(** ** The ledger: what the RPC provider and ethers answer *)

Record transaction : Type := mkTx {
  tx_hash : string;
  tx_blockNumber : Z;
  tx_from : string;
  tx_to : option string;          (* [null] for a contract creation *)
  tx_value : Z;                   (* a BigInt, in wei *)
  tx_data : string
}.

Record log_entry : Type := mkLog {
  log_address : string;
  log_topics : list string;
  log_data : string
}.

Record receipt : Type := mkReceipt {
  r_logs : option (list log_entry)
}.

Record block : Type := mkBlock {
  b_timestamp : Z;
  b_prefetchedTransactions : option (list transaction)
}.

(** Each field is the answer of one external call; [Thrown] is a rejected
    promise or an exception. Gas, status and time stamps of transactions are
    left out: no function below branches on them. *)
Record ledger : Type := mkLedger {
  isAddress : string -> bool;
  getAddress : string -> outcome string;
  provider_getCode : string -> outcome string;
  provider_getBlock : Z -> outcome (option block);
  provider_getTransactionReceipt : string -> outcome (option receipt);
  token_name : string -> outcome string;
  token_symbol : string -> outcome string;
  token_decimals : string -> outcome nat
}.

(** [try { return m } catch { return dflt }] around one external call. *)
Definition or_else {A} (m : outcome A) (dflt : A) : A :=
  match m with
  | Returned a => a
  | Thrown _ => dflt
  end.

Definition obind {A B} (m : outcome A) (k : A -> outcome B) : outcome B :=
  match m with
  | Returned a => k a
  | Thrown e => Thrown e
  end.

(** ** TransactionProcessor: the classifier (process.js) *)

Module TransactionProcessor.
Import JS.

Inductive transaction_type : Type :=
  | unknown
  | bnb_transfer
  | contract_call
  | erc20_transaction
  | erc20_transfer
  | erc20_transfer_from
  | erc20_approve.

Record bnb_change : Type := mkBnb {
  bnb_from : string;
  bnb_to : string
}.

Record erc20_change : Type := mkChange {
  c_tokenAddress : string;
  c_tokenSymbol : string;
  c_tokenName : string;
  c_tokenDecimals : nat;
  c_from : string;
  c_to : string;
  c_value : string;
  c_formattedValue : string
}.

(** The [result] object [parseTransaction] builds and the analyses fill in. *)
Record parsed : Type := mkParsed {
  p_hash : string;
  p_blockNumber : Z;
  p_from : string;
  p_to : option string;
  p_value : Z;
  p_isTransfer : bool;
  p_isERC20Transaction : bool;
  p_isEOA : bool;
  p_bnbChange : bnb_change;
  p_erc20Changes : list erc20_change;
  p_transactionType : transaction_type;
  p_methodSignature : option string;
  p_inputData : string
}.

(** The object [formatOutput] returns: the delta handed to the monitor. *)
Record delta : Type := mkDelta {
  d_hash : string;
  d_blockNumber : Z;
  d_from : string;
  d_to : option string;
  d_transactionType : transaction_type;
  d_isTransfer : bool;
  d_isERC20Transaction : bool;
  d_isEOA : bool;
  d_bnbChange : bnb_change;
  d_erc20Changes : list erc20_change
}.

Definition TRANSFER_EVENT_SIGNATURE : string :=
  "0xddf252ad1be2c89b69c2b068fc378daa952ba7f163c4a11628f55a4df523b3ef".

Definition ERC20_transfer : string := "0xa9059cbb".
Definition ERC20_transferFrom : string := "0x23b872dd".
Definition ERC20_approve : string := "0x095ea7b3".

Definition ERC20_METHODS : list string :=
  [ERC20_transfer; ERC20_transferFrom; ERC20_approve; "0xdd62ed3e"; "0x70a08231";
   "0x18160ddd"; "0x06fdde03"; "0x95d89b41"; "0x313ce567"].

(** Truthiness of [transaction.to]. *)
Definition present (o : option string) : bool :=
  match o with
  | Some a => negb (String.eqb a "")
  | None => false
  end.

Section WithLedger.

Variable L : ledger.

Definition isEOA (address : string) : bool :=
  or_else
    (if negb (isAddress L address) then Returned false
     else obind (provider_getCode L address) (fun code => Returned (String.eqb code "0x")))
    false.

Definition analyzeBNBChange (t : transaction) (result : parsed) : parsed :=
  let value := tx_value t in
  if 0 <? value then
    let to_change := if present (tx_to t) then formatEther value
                     else bnb_to (p_bnbChange result) in
    {| p_hash := p_hash result; p_blockNumber := p_blockNumber result;
       p_from := p_from result; p_to := p_to result; p_value := p_value result;
       p_isTransfer := true;
       p_isERC20Transaction := p_isERC20Transaction result;
       p_isEOA := p_isEOA result;
       p_bnbChange := {| bnb_from := "-" +:+ formatEther value; bnb_to := to_change |};
       p_erc20Changes := p_erc20Changes result;
       p_transactionType := bnb_transfer;
       p_methodSignature := p_methodSignature result;
       p_inputData := p_inputData result |}
  else result.

Definition with_type (result : parsed) (ty : transaction_type)
    (isTransfer isERC20 : bool) (sig : option string) : parsed :=
  {| p_hash := p_hash result; p_blockNumber := p_blockNumber result;
     p_from := p_from result; p_to := p_to result; p_value := p_value result;
     p_isTransfer := isTransfer;
     p_isERC20Transaction := isERC20;
     p_isEOA := p_isEOA result;
     p_bnbChange := p_bnbChange result;
     p_erc20Changes := p_erc20Changes result;
     p_transactionType := ty;
     p_methodSignature := sig;
     p_inputData := p_inputData result |}.

Definition analyzeTransactionType (t : transaction) (result : parsed) : parsed :=
  let inputData := str_or (tx_data t) "0x" in
  if String.eqb inputData "0x" || String.eqb inputData "0x0" then
    if 0 <? tx_value t then
      with_type result bnb_transfer true (p_isERC20Transaction result)
                (p_methodSignature result)
    else
      with_type result contract_call (p_isTransfer result)
                (p_isERC20Transaction result) (p_methodSignature result)
  else
    let methodSignature := slice_to 10 inputData in
    if bool_decide (methodSignature ∈ ERC20_METHODS) then
      let ty :=
        if String.eqb methodSignature ERC20_transfer then erc20_transfer
        else if String.eqb methodSignature ERC20_transferFrom then erc20_transfer_from
        else if String.eqb methodSignature ERC20_approve then erc20_approve
        else erc20_transaction in
      with_type result ty (p_isTransfer result) true (Some methodSignature)
    else
      with_type result contract_call (p_isTransfer result)
                (p_isERC20Transaction result) (Some methodSignature).

(** [BigInt(s)]: a SyntaxError when [s] is no integer literal. *)
Definition BigInt_of_string (s : string) : outcome Z :=
  match StringToBigInt s with
  | Some z => Returned z
  | None => Thrown (TypeError "BigInt")
  end.

Definition getTokenInfo (tokenAddress : string) : string * string * nat :=
  (or_else (token_name L tokenAddress) "Unknown",
   or_else (token_symbol L tokenAddress) "UNKNOWN",
   or_else (token_decimals L tokenAddress) 18%nat).

(** [ethers.formatUnits(value, decimals)] as the call it is: ethers builds a
    signed fixed-point number of width 512 and throws for more than 80
    decimals and for a value outside that range. *)
Definition ethers_formatUnits (value : Z) (decimals : nat) : outcome string :=
  if (80 <? decimals)%nat || (value <? - 2 ^ 511) || (2 ^ 511 <=? value)
  then Thrown (TypeError "formatUnits")
  else Returned (formatUnits value decimals).

(** [try { return ethers.formatUnits(value, decimals) } catch
    { return value.toString() }]. *)
Definition formatTokenValue (value : Z) (decimals : nat) : string :=
  or_else (ethers_formatUnits value decimals) (Z_to_string value).

Definition topic (lg : log_entry) (i : nat) : outcome string :=
  match log_topics lg !! i with
  | Some t => Returned t
  | None => Thrown (TypeError "topic")
  end.

(** [null] when anything in the body throws. *)
Definition parseTransferEvent (lg : log_entry) : option erc20_change :=
  or_else
    (obind (topic lg 1) (fun t1 =>
     obind (getAddress L ("0x" +:+ slice_from 26 t1)) (fun from =>
     obind (topic lg 2) (fun t2 =>
     obind (getAddress L ("0x" +:+ slice_from 26 t2)) (fun to =>
     obind (BigInt_of_string (log_data lg)) (fun value =>
     let '(nm, symbol, decimals) := getTokenInfo (log_address lg) in
     Returned (Some {| c_tokenAddress := log_address lg;
                       c_tokenSymbol := symbol;
                       c_tokenName := nm;
                       c_tokenDecimals := decimals;
                       c_from := from;
                       c_to := to;
                       c_value := Z_to_string value;
                       c_formattedValue := formatTokenValue value decimals |})))))))
    None.

Definition push_change (result : parsed) (c : erc20_change) : parsed :=
  {| p_hash := p_hash result; p_blockNumber := p_blockNumber result;
     p_from := p_from result; p_to := p_to result; p_value := p_value result;
     p_isTransfer := true;
     p_isERC20Transaction := true;
     p_isEOA := p_isEOA result;
     p_bnbChange := p_bnbChange result;
     p_erc20Changes := p_erc20Changes result ++ [c];
     p_transactionType := p_transactionType result;
     p_methodSignature := p_methodSignature result;
     p_inputData := p_inputData result |}.

Fixpoint analyzeERC20Events (logs : list log_entry) (result : parsed) : parsed :=
  match logs with
  | [] => result
  | lg :: rest =>
      let result' :=
        if bool_decide (log_topics lg !! 0%nat = Some TRANSFER_EVENT_SIGNATURE) then
          match parseTransferEvent lg with
          | Some c => push_change result c
          | None => result
          end
        else result in
      analyzeERC20Events rest result'
  end.

Definition parseTransaction (t : transaction) (r : option receipt) : option parsed :=
  let result :=
    {| p_hash := tx_hash t; p_blockNumber := tx_blockNumber t;
       p_from := tx_from t; p_to := tx_to t; p_value := tx_value t;
       p_isTransfer := false; p_isERC20Transaction := false; p_isEOA := false;
       p_bnbChange := {| bnb_from := "0"; bnb_to := "0" |};
       p_erc20Changes := [];
       p_transactionType := unknown;
       p_methodSignature := None;
       p_inputData := str_or (tx_data t) "0x" |} in
  let result :=
    match tx_to t with
    | Some a =>
        if present (tx_to t) then
          {| p_hash := p_hash result; p_blockNumber := p_blockNumber result;
             p_from := p_from result; p_to := p_to result; p_value := p_value result;
             p_isTransfer := p_isTransfer result;
             p_isERC20Transaction := p_isERC20Transaction result;
             p_isEOA := isEOA a;
             p_bnbChange := p_bnbChange result;
             p_erc20Changes := p_erc20Changes result;
             p_transactionType := p_transactionType result;
             p_methodSignature := p_methodSignature result;
             p_inputData := p_inputData result |}
        else result
    | None => result
    end in
  let result := analyzeBNBChange t result in
  let result := analyzeTransactionType t result in
  let result :=
    match r with
    | Some {| r_logs := Some logs |} => analyzeERC20Events logs result
    | _ => result
    end in
  Some result.

(** [processTransactions(transactions, receipts)]: [receipts[i] || null] is
    the receipt at the same index when there is one. *)
Fixpoint processTransactions (txs : list transaction) (receipts : list (option receipt))
    : list parsed :=
  match txs with
  | [] => []
  | t :: txs' =>
      let r := match receipts with r :: _ => r | [] => None end in
      let rest := processTransactions txs' (tl receipts) in
      match parseTransaction t r with
      | Some p => p :: rest
      | None => rest
      end
  end.

Definition formatOutput (p : parsed) : delta :=
  {| d_hash := p_hash p;
     d_blockNumber := p_blockNumber p;
     d_from := p_from p;
     d_to := p_to p;
     d_transactionType := p_transactionType p;
     d_isTransfer := p_isTransfer p;
     d_isERC20Transaction := p_isERC20Transaction p;
     d_isEOA := p_isEOA p;
     d_bnbChange := {| bnb_from := bnb_from (p_bnbChange p); bnb_to := bnb_to (p_bnbChange p) |};
     d_erc20Changes := p_erc20Changes p |}.

(** The delta of one transaction: [parseTransaction] then [formatOutput]. *)
Definition classify (t : transaction) (r : option receipt) : option delta :=
  formatOutput <$> parseTransaction t r.

End WithLedger.

End TransactionProcessor.

(** ** BlockScanner: the range scanner (scan.js) *)

Module BlockScanner.
Import JS TransactionProcessor.

Record config : Type := mkConfig {
  minValue : Z;
  maxValue : Z
}.

(** The result of one promise under [Promise.allSettled]. *)
Inductive settled (A : Type) : Type :=
  | Fulfilled (value : A)
  | Rejected (reason : exn).
Arguments Fulfilled {A} value.
Arguments Rejected {A} reason.

Definition settle {A} (m : outcome A) : settled A :=
  match m with
  | Returned a => Fulfilled a
  | Thrown e => Rejected e
  end.

Section WithScanner.

Variable L : ledger.
Variable watchedAddresses : gset string.
Variable cfg : config.

Definition isTransactionRelevant (t : transaction) : bool :=
  let from := toLowerCase (tx_from t) in
  bool_decide (from ∈ watchedAddresses)
  || match tx_to t with
     | Some a => bool_decide (toLowerCase a ∈ watchedAddresses)
     | None => false
     end.

Definition filterTransaction (t : transaction) : bool :=
  let value := tx_value t in
  if (value <? minValue cfg) || (maxValue cfg <? value) then false
  else if negb (isTransactionRelevant t) then false
  else true.

Definition getBlockTransactions (blockNumber : Z) : list transaction :=
  or_else
    (obind (provider_getBlock L blockNumber) (fun blk =>
     match blk with
     | None => Returned []
     | Some blk =>
         match b_prefetchedTransactions blk with
         | None => Returned []
         | Some txs => if b_timestamp blk =? 0 then Returned [] else Returned txs
         end
     end))
    [].

Definition getTransactionReceipt (h : string) : option receipt :=
  or_else (provider_getTransactionReceipt L h) None.

(** The receipts are fetched for all filtered transactions; a transaction
    stays only with a receipt. *)
Fixpoint confirmed (txs : list transaction) (receipts : list (settled (option receipt)))
    : list transaction * list (option receipt) :=
  match txs, receipts with
  | t :: txs', Fulfilled (Some r) :: rs =>
      let '(vt, vr) := confirmed txs' rs in (t :: vt, Some r :: vr)
  | _ :: txs', _ :: rs => confirmed txs' rs
  | _, _ => ([], [])
  end.

(** [processBlock]: the whole body sits in a [try] whose handler returns the
    empty list, so the promise is always fulfilled. *)
Definition processBlock (blockNumber : Z) : outcome (list delta) :=
  let transactions := getBlockTransactions blockNumber in
  let filteredTxs := filter (fun t => filterTransaction t = true) transactions in
  if (length filteredTxs =? 0)%nat then Returned []
  else
    let receipts := map (fun t => Fulfilled (getTransactionReceipt (tx_hash t))) filteredTxs in
    let '(validTransactions, validReceipts) := confirmed filteredTxs receipts in
    if (length validTransactions =? 0)%nat then Returned []
    else
      let processedTxs := processTransactions L validTransactions validReceipts in
      Returned (map formatOutput processedTxs).

(** [Array.from({ length: totalBlocks }, (_, i) => startBlock + i)]: empty
    when the length is not positive. *)
Definition blockNumbers (startBlock totalBlocks : Z) : list Z :=
  map (fun i => startBlock + Z.of_nat i) (seq 0 (Z.to_nat totalBlocks)).

(** What the [forEach] over the settled batch adds to [results]. *)
Fixpoint collect (batchResults : list (settled (list delta))) : list delta :=
  match batchResults with
  | [] => []
  | Fulfilled value :: rest =>
      if (0 <? length value)%nat then value ++ collect rest else collect rest
  | Rejected _ :: rest => collect rest
  end.

(** The wave loop [for (i = 0; i < blockNumbers.length; i += concurrency)];
    [remaining] is [blockNumbers.slice(i)]. The loop ends after at most one
    wave per block, which is what [fuel] counts. *)
Fixpoint scan_waves (fuel : nat) (concurrency : nat) (remaining : list Z) : list delta :=
  match fuel, remaining with
  | S fuel', _ :: _ =>
      let batch := take concurrency remaining in
      let batchResults := map (fun b => settle (processBlock b)) batch in
      collect batchResults ++ scan_waves fuel' concurrency (drop concurrency remaining)
  | _, _ => []
  end.

Definition scanBlockRangeParallel (startBlock endBlock : Z) : outcome (list delta) :=
  let totalBlocks := endBlock - startBlock + 1 in
  let numbers := blockNumbers startBlock totalBlocks in
  let concurrency := Z.to_nat (Z.min 10 totalBlocks) in
  Returned (scan_waves (length numbers) concurrency numbers).

(** [addWatchedAddress] and [removeWatchedAddress] on the set of watched
    addresses. *)
Definition addWatchedAddress (address : string) : gset string :=
  if isAddress L address then {[toLowerCase address]} ∪ watchedAddresses
  else watchedAddresses.

Definition removeWatchedAddress (address : string) : gset string :=
  watchedAddresses ∖ {[toLowerCase address]}.

(** The body of the loop of [scanBlockRange] for one block. The receipts
    are fetched one after the other and handed over as they come, [null]
    included. *)
Definition scan_block (blockNumber : Z) : list delta :=
  let transactions := getBlockTransactions blockNumber in
  let filteredTxs := filter (fun t => filterTransaction t = true) transactions in
  if (0 <? length filteredTxs)%nat then
    let receipts := map (fun t => getTransactionReceipt (tx_hash t)) filteredTxs in
    let processedTxs := processTransactions L filteredTxs receipts in
    map formatOutput processedTxs
  else [].

(** [for (blockNumber = startBlock; blockNumber <= endBlock; blockNumber++)],
    with [n] the number of iterations left. *)
Fixpoint scan_loop (n : nat) (blockNumber : Z) : list delta :=
  match n with
  | O => []
  | S n' => scan_block blockNumber ++ scan_loop n' (blockNumber + 1)
  end.

Definition scanBlockRange (startBlock endBlock : Z) : outcome (list delta) :=
  Returned (scan_loop (Z.to_nat (endBlock - startBlock + 1)) startBlock).

End WithScanner.

End BlockScanner.

(** ** MessageTemplates: the activity analysis (notify/text.js) *)

Module MessageTemplates.
Import JS TransactionProcessor.

Inductive entry_type : Type :=
  | bnb
  | token.

Record entry : Type := mkEntry {
  e_type : entry_type;
  e_tokenAddress : option string;
  e_tokenSymbol : option string;
  e_formattedValue : string;
  e_from : string;
  e_to : string
}.

Record analysis : Type := mkAnalysis {
  hasActivity : bool;
  walletName : string;
  walletAddress : string;
  received : list entry;
  sent : list entry
}.

Definition set_activity (a : analysis) : analysis :=
  {| hasActivity := true; walletName := walletName a; walletAddress := walletAddress a;
     received := received a; sent := sent a |}.

Definition push_sent (a : analysis) (e : entry) : analysis :=
  {| hasActivity := hasActivity a; walletName := walletName a;
     walletAddress := walletAddress a; received := received a; sent := sent a ++ [e] |}.

Definition push_received (a : analysis) (e : entry) : analysis :=
  {| hasActivity := hasActivity a; walletName := walletName a;
     walletAddress := walletAddress a; received := received a ++ [e]; sent := sent a |}.

Definition token_entry (c : erc20_change) (fromAddress toAddress : string) : entry :=
  {| e_type := token;
     e_tokenAddress := Some (c_tokenAddress c);
     e_tokenSymbol := Some (c_tokenSymbol c);
     e_formattedValue := c_formattedValue c;
     e_from := fromAddress;
     e_to := toAddress |}.

(** The body of the [for (const change of tx.erc20Changes)] loop. *)
Definition analyze_change (txFromAddress : string) (a : analysis) (c : erc20_change)
    : analysis :=
  let fromAddress := toLowerCase (c_from c) in
  let toAddress := toLowerCase (c_to c) in
  let a := if String.eqb toAddress txFromAddress
           then push_received a (token_entry c fromAddress toAddress) else a in
  if String.eqb fromAddress txFromAddress
  then push_sent a (token_entry c fromAddress toAddress) else a.

(** [analyzeTransaction(tx, monitoredAddresses, addressNames)]. Reading
    [tx.to.toLowerCase()] throws a TypeError when [tx.to] is [null]. *)
Definition analyzeTransaction (tx : delta) (monitoredAddresses : gset string)
    (addressNames : gmap string string) : outcome analysis :=
  let a := {| hasActivity := false;
              walletName :=
                str_or (default "" (addressNames !! toLowerCase (d_from tx))) "Unknown";
              walletAddress := d_from tx;
              received := []; sent := [] |} in
  obind
    (if negb (String.eqb (bnb_from (d_bnbChange tx)) "0")
        || negb (String.eqb (bnb_to (d_bnbChange tx)) "0") then
       let fromAddress := toLowerCase (d_from tx) in
       match d_to tx with
       | None => Thrown (TypeError "tx.to")
       | Some to =>
           let toAddress := toLowerCase to in
           if bool_decide (fromAddress ∈ monitoredAddresses) then
             let a := set_activity a in
             if negb (String.eqb (bnb_from (d_bnbChange tx)) "0") then
               Returned (push_sent a {| e_type := bnb;
                                        e_tokenAddress := None;
                                        e_tokenSymbol := None;
                                        e_formattedValue := bnb_from (d_bnbChange tx);
                                        e_from := fromAddress;
                                        e_to := toAddress |})
             else Returned a
           else Returned a
       end
     else Returned a)
    (fun a =>
       if (0 <? length (d_erc20Changes tx))%nat then
         if bool_decide (toLowerCase (d_from tx) ∈ monitoredAddresses) then
           let a := set_activity a in
           Returned (fold_left (analyze_change (toLowerCase (d_from tx))) (d_erc20Changes tx) a)
         else Returned a
       else Returned a).

(** The rendered messages. Rendering is string interpolation of the
    template arguments, so a message is kept as the template and its
    arguments. *)
Inductive html : Type :=
  | tokenTransfer (hash walletName walletAddress : string) (received sent : list entry)
  | newWallet (wallet name refer referName : string)
  | error (reason : exn) (blockNumber : Z).

End MessageTemplates.

(** ** TgBot: the outbound message queue (src/notify/bot.js) *)

Module TgBot.
Import MessageTemplates.

Record message : Type := mkMessage {
  chatId : string;
  body : html;
  thread_id : option string;
  disable_web_page_preview : bool;
  retryCount : option Z           (* absent until the first re-queue *)
}.

(** What [bot.sendMessage] does with one call: it resolves, it rejects with a
    message that contains "429 Too Many Requests" (with the number after
    "retry after" when there is one), or it rejects with another error. *)
Inductive send_result : Type :=
  | SendOk
  | TooManyRequests (retry_after : option Z)
  | SendFailed.

Inductive log_line : Type :=
  | WarnRateLimited (seconds : Z)
  | ErrorMaxRetries
  | ErrorSendFailed.

(** The fields of the class, then what leaves it: the calls made to the
    sink with their results, and the console. *)
Record state : Type := mkState {
  messageQueue : list message;
  isProcessing : bool;
  rateLimitUntil : Z;
  bot_retryCount : Z;
  calls : list (message * send_result);
  console : list log_line
}.

Definition maxRetries : Z := 3.
Definition batchSize : nat := 5.

Definition initial : state :=
  {| messageQueue := []; isProcessing := false; rateLimitUntil := 0;
     bot_retryCount := 0; calls := []; console := [] |}.

Definition with_retryCount (m : message) (n : Z) : message :=
  {| chatId := chatId m; body := body m; thread_id := thread_id m;
     disable_web_page_preview := disable_web_page_preview m; retryCount := Some n |}.

Section WithSink.

(** The sink, and the clock reading [Date.now()] of the current tick. *)
Variable sink : message -> send_result.
Variable now : Z.

Definition sendMessageWithRetry (messageData : message) (s : state) : state :=
  let retries := default 0 (retryCount messageData) in
  let result := sink messageData in
  let s := {| messageQueue := messageQueue s; isProcessing := isProcessing s;
              rateLimitUntil := rateLimitUntil s; bot_retryCount := bot_retryCount s;
              calls := calls s ++ [(messageData, result)]; console := console s |} in
  match result with
  | SendOk =>
      {| messageQueue := messageQueue s; isProcessing := isProcessing s;
         rateLimitUntil := rateLimitUntil s; bot_retryCount := 0;
         calls := calls s; console := console s |}
  | TooManyRequests retry_after =>
      let retryAfter := default 2 retry_after in
      let until := now + retryAfter * 1000 in
      if retries <? maxRetries then
        {| messageQueue := with_retryCount messageData (retries + 1) :: messageQueue s;
           isProcessing := isProcessing s;
           rateLimitUntil := until; bot_retryCount := bot_retryCount s;
           calls := calls s;
           console := console s ++ [WarnRateLimited retryAfter] |}
      else
        {| messageQueue := messageQueue s; isProcessing := isProcessing s;
           rateLimitUntil := until; bot_retryCount := bot_retryCount s;
           calls := calls s;
           console := console s ++ [WarnRateLimited retryAfter; ErrorMaxRetries] |}
  | SendFailed =>
      {| messageQueue := messageQueue s; isProcessing := isProcessing s;
         rateLimitUntil := rateLimitUntil s; bot_retryCount := bot_retryCount s;
         calls := calls s; console := console s ++ [ErrorSendFailed] |}
  end.

Definition set_processing (b : bool) (queue : list message) (s : state) : state :=
  {| messageQueue := queue; isProcessing := b;
     rateLimitUntil := rateLimitUntil s; bot_retryCount := bot_retryCount s;
     calls := calls s; console := console s |}.

(** One tick of the dispatcher. The sends of a batch are started together;
    their results are handled here in the order of the batch. *)
Definition processQueue (s : state) : state :=
  if isProcessing s || (length (messageQueue s) =? 0)%nat then s
  else if now <? rateLimitUntil s then s
  else
    let batch := take batchSize (messageQueue s) in
    let s := set_processing true (drop batchSize (messageQueue s)) s in
    let s := fold_left (fun st m => sendMessageWithRetry m st) batch s in
    set_processing false (messageQueue s) s.

End WithSink.

Definition queueMessage (chat : string) (msg : html) (thread : option string)
    (s : state) : state :=
  {| messageQueue := messageQueue s ++
       [{| chatId := chat; body := msg; thread_id := thread;
           disable_web_page_preview := true; retryCount := None |}];
     isProcessing := isProcessing s;
     rateLimitUntil := rateLimitUntil s; bot_retryCount := bot_retryCount s;
     calls := calls s; console := console s |}.

(** [sendHtml] queues the message (and resolves 50 ms later). *)
Definition sendHtml (chat : string) (msg : html) (thread : option string)
    (s : state) : state :=
  queueMessage chat msg thread s.

(** The ticks of the dispatcher at the clock readings [times], oldest first. *)
Fixpoint run (sink : message -> send_result) (times : list Z) (s : state) : state :=
  match times with
  | [] => s
  | t :: rest => run sink rest (processQueue sink t s)
  end.

End TgBot.

(** ** The reputation lookup (src/utils.js) *)

Module Utils.

(** The body of the answer of the history endpoint: the keys of its
    [cex_dict], or [None] when the body has no such field. *)
Record history : Type := mkHistory {
  cex_dict : option (list string)
}.

(** [getCexDict]: [data] stays [null] when the request or its decoding
    fails, and [data.cex_dict] then throws. *)
Definition getCexDict (response : outcome history) : outcome (option (list string)) :=
  match response with
  | Returned data => Returned (cex_dict data)
  | Thrown _ => Thrown (TypeError "data.cex_dict")
  end.

(** [Object.keys(cexDict).length !== 0]; [Object.keys(undefined)] throws. *)
Definition getIsCexDict (response : outcome history) : outcome bool :=
  obind (getCexDict response) (fun cexDict =>
    match cexDict with
    | Some keys => Returned (negb (length keys =? 0)%nat)
    | None => Thrown (TypeError "Object.keys")
    end).

End Utils.

(** ** WalletMonitor: the monitor loop and the new-wallet detection (main.js) *)

Module WalletMonitor.
Import JS TransactionProcessor MessageTemplates.

Record base_token : Type := mkBaseToken {
  bt_token : string;
  bt_symbol : string;
  bt_minValue : Z
}.

Record config : Type := mkConfig {
  cfg_chatId : string;
  cfg_threadId : option string;
  cfg_batchSize : Z;                      (* [parseInt(..) || 5]: never [0] or [NaN], but any other integer *)
  cfg_minValue : Z;                       (* [ethers.parseEther(..)]: a BigInt, in wei *)
  cfg_enableNewWalletDetection : bool;
  cfg_redisPrefix : string;
  cfg_baseTokenMap : gmap string base_token
}.

Definition baseToken : list base_token :=
  [ {| bt_token := "0x55d398326f99059ff775485246999027b3197955";
       bt_symbol := "USDT"; bt_minValue := 1000 |};
    {| bt_token := "0xbb4cdb9cbd36b01bd1cbaebf2de08d9173bc095c";
       bt_symbol := "WBNB"; bt_minValue := 1 |} ].

(** [new Map(baseToken.map(item => [item.token, item]))]: a later entry
    replaces an earlier one with the same key. *)
Definition baseTokenMap : gmap string base_token :=
  list_to_map (map (fun item => (bt_token item, item)) (reverse baseToken)).

Record stats : Type := mkStats {
  processedBlocks : Z;
  foundTransactions : Z;
  sentNotifications : Z;
  newWalletsAdded : Z
}.

(** What the monitor does, in program order; kept next to the state to
    speak about the order of a scan, the processing of its results and the
    write of the check point. *)
Inductive event : Type :=
  | Scanned (startBlock endBlock : Z)
  | Processed (hash : string)
  | CheckpointWritten (blockNumber : Z).

Record monitor : Type := mkMonitor {
  redis : RefRedis.db;
  bot : TgBot.state;
  monitoredAddresses : gset string;
  addressNames : gmap string string;
  watchedAddresses : gset string;        (* [scanner.watchedAddresses] *)
  lastProcessedBlock : Z;
  mstats : stats;
  events : list event
}.

(** What one tick of the loop gets from outside: the ledger, the head
    [provider.getBlockNumber()], the reputation service [getIsCexDict], and
    the comparison [formattedValue >= minValue] of a decimal string with a
    number (done on doubles). *)
Record world : Type := mkWorld {
  w_ledger : ledger;
  w_head : outcome Z;
  w_isCex : string -> outcome bool;
  w_number_ge : string -> Z -> bool
}.

Definition set_redis (d : RefRedis.db) (m : monitor) : monitor :=
  {| redis := d; bot := bot m; monitoredAddresses := monitoredAddresses m;
     addressNames := addressNames m; watchedAddresses := watchedAddresses m;
     lastProcessedBlock := lastProcessedBlock m; mstats := mstats m; events := events m |}.

Definition set_bot (b : TgBot.state) (m : monitor) : monitor :=
  {| redis := redis m; bot := b; monitoredAddresses := monitoredAddresses m;
     addressNames := addressNames m; watchedAddresses := watchedAddresses m;
     lastProcessedBlock := lastProcessedBlock m; mstats := mstats m; events := events m |}.

Definition set_stats (f : stats -> stats) (m : monitor) : monitor :=
  {| redis := redis m; bot := bot m; monitoredAddresses := monitoredAddresses m;
     addressNames := addressNames m; watchedAddresses := watchedAddresses m;
     lastProcessedBlock := lastProcessedBlock m; mstats := f (mstats m); events := events m |}.

Definition log_event (e : event) (m : monitor) : monitor :=
  {| redis := redis m; bot := bot m; monitoredAddresses := monitoredAddresses m;
     addressNames := addressNames m; watchedAddresses := watchedAddresses m;
     lastProcessedBlock := lastProcessedBlock m; mstats := mstats m;
     events := events m ++ [e] |}.

Definition set_lastProcessedBlock (b : Z) (m : monitor) : monitor :=
  {| redis := redis m; bot := bot m; monitoredAddresses := monitoredAddresses m;
     addressNames := addressNames m; watchedAddresses := watchedAddresses m;
     lastProcessedBlock := b; mstats := mstats m;
     events := events m ++ [CheckpointWritten b] |}.

(** The update of the local caches in [addNewWallet] and [addWallet]:
    [monitoredAddresses.add], [addressNames.set], [scanner.addWatchedAddress]. *)
Definition cache_wallet (isAddr : string -> bool) (w nm : string) (m : monitor) : monitor :=
  {| redis := redis m; bot := bot m;
     monitoredAddresses := {[w]} ∪ monitoredAddresses m;
     addressNames := <[toLowerCase w := nm]> (addressNames m);
     watchedAddresses := if isAddr w then {[toLowerCase w]} ∪ watchedAddresses m
                         else watchedAddresses m;
     lastProcessedBlock := lastProcessedBlock m; mstats := mstats m; events := events m |}.

(** The result object of the management interface. *)
Record op_result : Type := mkResult {
  success : bool;
  nodeInfo : option RefRedis.node_info
}.

Definition failure : op_result := {| success := false; nodeInfo := None |}.

(** The update of the local caches in [removeWallet]:
    [monitoredAddresses.delete], [addressNames.delete],
    [scanner.removeWatchedAddress]. *)
Definition uncache_wallet (w : string) (m : monitor) : monitor :=
  {| redis := redis m; bot := bot m;
     monitoredAddresses := monitoredAddresses m ∖ {[w]};
     addressNames := delete (toLowerCase w) (addressNames m);
     watchedAddresses := watchedAddresses m ∖ {[toLowerCase w]};
     lastProcessedBlock := lastProcessedBlock m; mstats := mstats m; events := events m |}.

(** [monitoredAddresses.clear()] and [addressNames.clear()]. *)
Definition clear_caches (m : monitor) : monitor :=
  {| redis := redis m; bot := bot m;
     monitoredAddresses := ∅;
     addressNames := ∅;
     watchedAddresses := watchedAddresses m;
     lastProcessedBlock := lastProcessedBlock m; mstats := mstats m; events := events m |}.

(** One wallet loaded: it is tracked, and named when its name is not empty. *)
Definition load_wallet (w : string) (nm : option string) (m : monitor) : monitor :=
  {| redis := redis m; bot := bot m;
     monitoredAddresses := {[w]} ∪ monitoredAddresses m;
     addressNames :=
       match nm with
       | Some n => if String.eqb n "" then addressNames m
                   else <[toLowerCase w := n]> (addressNames m)
       | None => addressNames m
       end;
     watchedAddresses := watchedAddresses m;
     lastProcessedBlock := lastProcessedBlock m; mstats := mstats m; events := events m |}.

Definition count_notification (s : stats) : stats :=
  {| processedBlocks := processedBlocks s; foundTransactions := foundTransactions s;
     sentNotifications := sentNotifications s + 1; newWalletsAdded := newWalletsAdded s |}.

Definition count_newWallet (s : stats) : stats :=
  {| processedBlocks := processedBlocks s; foundTransactions := foundTransactions s;
     sentNotifications := sentNotifications s; newWalletsAdded := newWalletsAdded s + 1 |}.

Definition count_scan (blocks found : Z) (s : stats) : stats :=
  {| processedBlocks := processedBlocks s + blocks;
     foundTransactions := foundTransactions s + found;
     sentNotifications := sentNotifications s; newWalletsAdded := newWalletsAdded s |}.

Section WithWorld.

Variable cfg : config.
Variable W : world.

Local Open Scope eff_scope.

(** A call on [this.redis] from the monitor. *)
Definition on_redis {A} (c : Eff RefRedis.db A) : Eff monitor A :=
  fun m => let '(r, d) := c (redis m) in (r, set_redis d m).

(** The result of an external call, awaited. *)
Definition await {A} (r : outcome A) : Eff monitor A :=
  fun m => (r, m).

Definition bot_sendHtml (msg : html) : Eff monitor unit :=
  modify (fun m => set_bot (TgBot.sendHtml (cfg_chatId cfg) msg (cfg_threadId cfg) (bot m)) m).

Definition sendTransactionNotification (tx : delta) (a : analysis) : Eff monitor unit :=
  let message := tokenTransfer (d_hash tx) (walletName a) (walletAddress a)
                               (received a) (sent a) in
  bot_sendHtml message ;;;
  modify (set_stats count_notification).

(** [addNewWallet]: the call [this.redis.addNodeLite(walletAddress, fromName,
    fromAddress)] is commented out in the source, so nothing here writes to
    Redis. *)
Definition addNewWallet (walletAddress fromAddress : string) : Eff monitor unit :=
  try_catch
    (let* addressExists :=
       on_redis (RefRedis.existsWallet (cfg_redisPrefix cfg) walletAddress) in
     if negb addressExists then
       let* m := get_state in
       let fromName := str_or (default "" (addressNames m !! fromAddress)) "Unknown" in
       let* isCex := await (w_isCex W walletAddress) in
       if isCex then ret tt
       else
         modify (cache_wallet (isAddress (w_ledger W)) walletAddress fromName) ;;;
         bot_sendHtml (newWallet walletAddress fromName fromAddress fromName) ;;;
         modify (set_stats count_notification) ;;;
         modify (set_stats count_newWallet)
     else ret tt)
    (fun _ => ret tt).

Definition lower_to (tx : delta) : Eff monitor string :=
  match d_to tx with
  | Some a => ret (toLowerCase a)
  | None => throw (TypeError "tx.to")
  end.

Definition checkNewWalletFromBNB (tx : delta) : Eff monitor unit :=
  let* toAddress := lower_to tx in
  let* m := get_state in
  if negb (bool_decide (toAddress ∈ monitoredAddresses m)) then
    let hasBNBTransfer :=
      negb (String.eqb (bnb_from (d_bnbChange tx)) "0")
      || negb (String.eqb (bnb_to (d_bnbChange tx)) "0") in
    let hasNoERC20Transfer := (length (d_erc20Changes tx) =? 0)%nat in
    let minValue := str_ge_bigint (bnb_to (d_bnbChange tx)) (cfg_minValue cfg) in
    if hasBNBTransfer && hasNoERC20Transfer && minValue then
      let isEOA := isEOA (w_ledger W) toAddress in
      if isEOA then addNewWallet toAddress (toLowerCase (d_from tx))
      else ret tt
    else ret tt
  else ret tt.

Definition hasOnlyOneTokenType (erc20Changes : list erc20_change) : bool :=
  if (length erc20Changes =? 0)%nat then false
  else
    let tokenAddresses : gset string :=
      list_to_set (map (fun c => toLowerCase (c_tokenAddress c)) erc20Changes) in
    (size tokenAddresses =? 1)%nat.

Definition token_minValue (tokenAddress : string) : option Z :=
  bt_minValue <$> cfg_baseTokenMap cfg !! tokenAddress.

(** The body of the loop over [tx.erc20Changes]. *)
Definition check_change (change : erc20_change) : Eff monitor unit :=
  let fromAddress := toLowerCase (c_from change) in
  let toAddress := toLowerCase (c_to change) in
  let tokenAddress := toLowerCase (c_tokenAddress change) in
  let isMinValue :=
    match token_minValue tokenAddress with
    | Some minValue =>
        negb (minValue =? 0) && w_number_ge W (c_formattedValue change) minValue
    | None => false
    end in
  let* m := get_state in
  if isMinValue && bool_decide (fromAddress ∈ monitoredAddresses m)
     && negb (bool_decide (toAddress ∈ monitoredAddresses m)) then
    if isEOA (w_ledger W) toAddress then addNewWallet toAddress fromAddress
    else ret tt
  else ret tt.

Fixpoint for_each {A} (f : A -> Eff monitor unit) (l : list A) : Eff monitor unit :=
  match l with
  | [] => ret tt
  | x :: rest => f x ;;; for_each f rest
  end.

Definition checkNewWalletFromERC20 (tx : delta) : Eff monitor unit :=
  if (0 <? length (d_erc20Changes tx))%nat then
    let hasNoBNBTransfer :=
      String.eqb (bnb_from (d_bnbChange tx)) "0" && String.eqb (bnb_to (d_bnbChange tx)) "0" in
    if hasNoBNBTransfer && hasOnlyOneTokenType (d_erc20Changes tx) then
      for_each check_change (d_erc20Changes tx)
    else ret tt
  else ret tt.

Definition checkNewWallet (tx : delta) : Eff monitor unit :=
  try_catch
    (checkNewWalletFromBNB tx ;;;
     checkNewWalletFromERC20 tx)
    (fun _ => ret tt).

(** The body of the loop of [processTransactions]. *)
Definition process_one (tx : delta) : Eff monitor unit :=
  try_catch
    (let* m := get_state in
     let* a := await (analyzeTransaction tx (monitoredAddresses m) (addressNames m)) in
     if hasActivity a then
       sendTransactionNotification tx a ;;;
       if cfg_enableNewWalletDetection cfg then checkNewWallet tx else ret tt
     else ret tt)
    (fun _ => ret tt) ;;;
  modify (log_event (Processed (d_hash tx))).

Definition processTransactions (transactions : list delta) : Eff monitor unit :=
  for_each process_one transactions.

(** [scanner.getLatestBlockNumber()]: [0] when the call fails. *)
Definition getLatestBlockNumber : Z := or_else (w_head W) 0.

Definition scanNewBlocks : Eff monitor unit :=
  try_catch
    (let currentBlock := getLatestBlockNumber in
     let* m := get_state in
     if currentBlock <=? lastProcessedBlock m then ret tt
     else
       let startBlock := lastProcessedBlock m + 1 in
       let totalBlocksToProcess := currentBlock - lastProcessedBlock m in
       let batchSize :=
         if 20 <? totalBlocksToProcess then Z.min 20 totalBlocksToProcess
         else cfg_batchSize cfg in
       let endBlock := Z.min currentBlock (startBlock + batchSize - 1) in
       let* results :=
         await (BlockScanner.scanBlockRangeParallel (w_ledger W) (watchedAddresses m)
                  {| BlockScanner.minValue := cfg_minValue cfg;
                     BlockScanner.maxValue := 10000 * 10 ^ 18 |}
                  startBlock endBlock) in
       modify (log_event (Scanned startBlock endBlock)) ;;;
       (if (0 <? length results)%nat then processTransactions results else ret tt) ;;;
       modify (set_lastProcessedBlock endBlock) ;;;
       modify (set_stats (count_scan (endBlock - startBlock + 1) (Z.of_nat (length results)))))
    (fun e => throw e).

Definition sendErrorNotification (e : exn) : Eff monitor unit :=
  let* m := get_state in
  bot_sendHtml (error e (lastProcessedBlock m)).

(** One iteration of [startMonitoringLoop]. *)
Definition loop_iteration : Eff monitor unit :=
  try_catch scanNewBlocks (fun e => sendErrorNotification e).

(** The management interface. The value returned is [success] and, when
    there is one, the node read back. *)
Definition addWallet (w nm fresh_id : string) : Eff monitor op_result :=
  try_catch
    (if String.eqb w "" || String.eqb nm "" then ret failure
     else
       let* ex := on_redis (RefRedis.existsWallet (cfg_redisPrefix cfg) w) in
       if ex : bool then ret failure
       else
         on_redis (RefRedis.addNodeLite (cfg_redisPrefix cfg) w nm "" fresh_id) ;;;
         modify (cache_wallet (isAddress (w_ledger W)) w nm) ;;;
         let* nodeInfo := on_redis (RefRedis.getNodeInfo (cfg_redisPrefix cfg) w) in
         ret {| success := true; nodeInfo := nodeInfo |})
    (fun _ => ret failure).

Definition removeWallet (w : string) : Eff monitor op_result :=
  try_catch
    (if String.eqb w "" then ret failure
     else
       let* ex := on_redis (RefRedis.existsWallet (cfg_redisPrefix cfg) w) in
       if negb ex then ret failure
       else
         let* nodeInfo := on_redis (RefRedis.getNodeInfo (cfg_redisPrefix cfg) w) in
         on_redis (RefRedis.removeNode (cfg_redisPrefix cfg) w) ;;;
         modify (uncache_wallet w) ;;;
         ret {| success := true; nodeInfo := nodeInfo |})
    (fun _ => ret failure).

(** The loop of [loadMonitoredAddresses] over the listed wallets. *)
Fixpoint load_each (wallets : list string) : Eff monitor unit :=
  match wallets with
  | [] => ret tt
  | w :: rest =>
      let* nm := on_redis (RefRedis.getNameByWallet (cfg_redisPrefix cfg) w) in
      modify (load_wallet w nm) ;;;
      load_each rest
  end.

Definition loadMonitoredAddresses : Eff monitor unit :=
  try_catch
    (let* wallets := on_redis (RefRedis.getAllWallets (cfg_redisPrefix cfg)) in
     modify clear_caches ;;;
     load_each wallets)
    (fun e => throw e).

End WithWorld.

(** The loop over the worlds met at the successive iterations. *)
Fixpoint startMonitoringLoop (cfg : config) (worlds : list world) (m : monitor) : monitor :=
  match worlds with
  | [] => m
  | W :: rest => startMonitoringLoop cfg rest (snd (loop_iteration cfg W m))
  end.

End WalletMonitor.

(** ** DatabaseExecutor: import into the referral graph (src/exe.js) *)

Module DatabaseExecutor.
Import JS.

(** One entry of the imported JSON array; a field that is missing is the
    empty string ([!item.wallet], [item.refer || '']). *)
Record item : Type := mkItem {
  item_wallet : string;
  item_name : string;
  item_refer : string
}.

Section WithPrefix.

Variable prefix : string.

Local Open Scope eff_scope.

Definition addWallet (w nm rf fresh_id : string) : Eff RefRedis.db bool :=
  try_catch
    (let* ex := RefRedis.existsWallet prefix w in
     if ex : bool then ret true
     else
       RefRedis.addNodeLite prefix w nm rf fresh_id ;;;
       ret true)
    (fun _ => ret false).

(** The loop of [importFromJson]; [fresh_ids i] is the id generated if the
    entry at index [i] is inserted. The value is the pair of [successCount]
    and [failCount] the function prints when the loop is over. *)
Fixpoint import_loop (fresh_ids : nat -> string) (i : nat) (data : list item)
    (successCount failCount : Z) : Eff RefRedis.db (Z * Z) :=
  match data with
  | [] => ret (successCount, failCount)
  | it :: rest =>
      if String.eqb (item_wallet it) "" || String.eqb (item_name it) "" then
        import_loop fresh_ids (S i) rest successCount (failCount + 1)
      else
        let* ok := addWallet (item_wallet it) (item_name it) (item_refer it) (fresh_ids i) in
        if ok : bool then import_loop fresh_ids (S i) rest (successCount + 1) failCount
        else import_loop fresh_ids (S i) rest successCount (failCount + 1)
  end.

Definition importFromJson (fresh_ids : nat -> string) (data : list item)
    : Eff RefRedis.db (Z * Z) :=
  import_loop fresh_ids 0 data 0 0.

End WithPrefix.

End DatabaseExecutor.

(** * Notions used in the statements *)

Import JS TransactionProcessor MessageTemplates.

(** ** The referral graph *)

(** The level and the ancestor chain [addNodeLite] derives for a node whose
    referrer is [rf], read off the store [d]. *)
Definition derived (prefix : string) (d : RefRedis.db) (rf : string) : num * string :=
  match RefRedis.hashes d !! RefRedis.nodeKey prefix rf with
  | None => (Int 1, "")
  | Some parent =>
      (num_add (parseInt (str_or (RefRedis.h_lv parent) "0")) (Int 1),
       if String.eqb (RefRedis.h_refer_id parent) "" then RefRedis.h_id parent
       else RefRedis.h_refer_id parent +:+ ";" +:+ RefRedis.h_id parent)
  end.

(** The hash [addNodeLite] stores for a new node. *)
Definition created (prefix : string) (d : RefRedis.db) (w nm rf fresh_id : string)
    : RefRedis.node_hash :=
  {| RefRedis.h_id := fresh_id; RefRedis.h_name := nm;
     RefRedis.h_wallet := toLowerCase w;
     RefRedis.h_refer := toLowerCase rf;
     RefRedis.h_refer_id := snd (derived prefix d rf);
     RefRedis.h_lv := num_toString (fst (derived prefix d rf)) |}.

(** [extend chain i]: the chain [chain] with the id [i] added at its end. *)
Definition extend (chain i : string) : string :=
  if String.eqb chain "" then i else chain +:+ ";" +:+ i.

(** The stores built by enrollments alone, from the empty store. *)
Inductive enrolled (prefix : string) : RefRedis.db -> Prop :=
  | enrolled_empty : enrolled prefix RefRedis.empty_db
  | enrolled_add d w nm rf fresh_id d' :
      enrolled prefix d ->
      RefRedis.addNodeLite prefix w nm rf fresh_id d = (Returned tt, d') ->
      enrolled prefix d'.

(** A chain of enrollments: the first wallet of [l] under the referrer [rf],
    each next one under the wallet before it. An element is the wallet, its
    name and the id generated for it. *)
Fixpoint enroll_chain (prefix rf : string) (l : list (string * string * string))
    : Eff RefRedis.db unit :=
  match l with
  | [] => ret tt
  | (w, nm, fresh_id) :: rest =>
      bind (RefRedis.addNodeLite prefix w nm rf fresh_id)
           (fun _ => enroll_chain prefix w rest)
  end.

(** The invariant on levels and chains, for all the nodes of a store. *)
Definition level_invariant (prefix : string) (d : RefRedis.db) : Prop :=
  forall w node,
    fst (RefRedis.getNodeInfo prefix w d) = Returned (Some node) ->
    if String.eqb (RefRedis.refer node) "" then
      RefRedis.lv node = Int 1 /\ RefRedis.refer_id node = ""
    else exists parent,
        fst (RefRedis.getNodeInfo prefix (RefRedis.refer node) d) = Returned (Some parent) /\
        RefRedis.lv node = num_add (RefRedis.lv parent) (Int 1) /\
        RefRedis.refer_id node = extend (RefRedis.refer_id parent) (RefRedis.id parent).

(** ** The classifier and the analysis *)

(** A ledger on which block and receipt fetches fail and every address is an
    account without code, for transactions considered alone. *)
Definition silent_ledger : ledger :=
  {| isAddress := fun _ => true;
     getAddress := fun a => Returned a;
     provider_getCode := fun _ => Returned "0x";
     provider_getBlock := fun _ => Thrown (RpcError "getBlock");
     provider_getTransactionReceipt := fun _ => Thrown (RpcError "getTransactionReceipt");
     token_name := fun _ => Thrown (RpcError "name");
     token_symbol := fun _ => Thrown (RpcError "symbol");
     token_decimals := fun _ => Thrown (RpcError "decimals") |}.

(** 1.5 BNB sent by the tracked wallet to an account without code. *)
Definition plain_transfer : transaction :=
  {| tx_hash := "0x01"; tx_blockNumber := 1; tx_from := "0xaa"; tx_to := Some "0xbb";
     tx_value := 1500000000000000000; tx_data := "0x" |}.

(** A contract creation without call data that carries 1 BNB. *)
Definition funded_creation : transaction :=
  {| tx_hash := "0x02"; tx_blockNumber := 1; tx_from := "0xaa"; tx_to := None;
     tx_value := 1000000000000000000; tx_data := "0x" |}.

(** A delta moves something when its native change is not ["0"] on both
    sides or it carries a token change. *)
Definition moves (tx : delta) : bool :=
  negb (String.eqb (bnb_from (d_bnbChange tx)) "0")
  || negb (String.eqb (bnb_to (d_bnbChange tx)) "0")
  || (0 <? length (d_erc20Changes tx))%nat.

(** A tracked wallet calls a contract that moves a token between two other
    accounts. *)
Definition third_party_transfer : delta :=
  {| d_hash := "0x03"; d_blockNumber := 7; d_from := "0xAA"; d_to := Some "0xcc";
     d_transactionType := contract_call; d_isTransfer := true;
     d_isERC20Transaction := true; d_isEOA := false;
     d_bnbChange := {| bnb_from := "0"; bnb_to := "0" |};
     d_erc20Changes :=
       [ {| c_tokenAddress := "0x55d398326f99059ff775485246999027b3197955";
            c_tokenSymbol := "USDT"; c_tokenName := "Tether USD"; c_tokenDecimals := 18;
            c_from := "0xB1"; c_to := "0xB2";
            c_value := "1000000000000000000"; c_formattedValue := "1.0" |} ] |}.

Definition third_party_analysis : analysis :=
  {| hasActivity := true; walletName := "Unknown"; walletAddress := "0xAA";
     received := []; sent := [] |}.

(** ** The range scanner *)

(** The deltas a block contributes to a scan: those of its fulfilled
    [processBlock], nothing for a rejected one. *)
Definition contribution (L : ledger) (watched : gset string) (cfg : BlockScanner.config)
    (b : Z) : list delta :=
  or_else (BlockScanner.processBlock L watched cfg b) [].

(** Five blocks with one transfer each from the watched wallet; the fetch of
    block 3 fails. *)
Definition five_blocks : ledger :=
  {| isAddress := fun _ => true;
     getAddress := fun a => Returned a;
     provider_getCode := fun _ => Returned "0x";
     provider_getBlock := fun b =>
       if b =? 3 then Thrown (RpcError "timeout")
       else Returned (Some {| b_timestamp := 1700000000 + b;
                              b_prefetchedTransactions :=
                                Some [ {| tx_hash := Z_to_string b; tx_blockNumber := b;
                                          tx_from := "0xAA"; tx_to := Some "0xbb";
                                          tx_value := 1500000000000000000;
                                          tx_data := "0x" |} ] |});
     provider_getTransactionReceipt := fun _ => Returned (Some {| r_logs := Some [] |});
     token_name := fun _ => Thrown (RpcError "name");
     token_symbol := fun _ => Thrown (RpcError "symbol");
     token_decimals := fun _ => Thrown (RpcError "decimals") |}.

Definition scan_config : BlockScanner.config :=
  {| BlockScanner.minValue := 0; BlockScanner.maxValue := 10000 * 10 ^ 18 |}.

(** ** The delivery queue *)

(** A message as [queueMessage] builds it. *)
Definition fresh (chat : string) (msg : html) (thread : option string) : TgBot.message :=
  {| TgBot.chatId := chat; TgBot.body := msg; TgBot.thread_id := thread;
     TgBot.disable_web_page_preview := true; TgBot.retryCount := None |}.

(** The message as it is sent at the attempt number [k] (from [0]). *)
Definition attempt (m : TgBot.message) (k : nat) : TgBot.message :=
  match k with
  | O => m
  | S _ => TgBot.with_retryCount m (Z.of_nat k)
  end.

Definition retry_seconds (r : TgBot.send_result) : Z :=
  match r with
  | TgBot.TooManyRequests retry_after => default 2 retry_after
  | _ => 2
  end.

(** The dispatcher after [k] throttled attempts at a message that was alone
    in the queue, the last throttle ending at [limit]. *)
Definition throttled (sink : TgBot.message -> TgBot.send_result) (m : TgBot.message)
    (k : nat) (limit : Z) : TgBot.state :=
  {| TgBot.messageQueue := if (k <? 4)%nat then [attempt m k] else [];
     TgBot.isProcessing := false;
     TgBot.rateLimitUntil := limit;
     TgBot.bot_retryCount := 0;
     TgBot.calls := map (fun i => (attempt m i, sink (attempt m i))) (seq 0 k);
     TgBot.console :=
       flat_map (fun i => TgBot.WarnRateLimited (retry_seconds (sink (attempt m i)))
                          :: if (i =? 3)%nat then [TgBot.ErrorMaxRetries] else [])
                (seq 0 k) |}.

(** The number of permanent-failure reports on the console. *)
Fixpoint failures (lines : list TgBot.log_line) : nat :=
  match lines with
  | [] => 0
  | TgBot.ErrorMaxRetries :: rest => S (failures rest)
  | _ :: rest => failures rest
  end.

(** The ticks at [times] all find the throttle over. *)
Fixpoint paced (sink : TgBot.message -> TgBot.send_result) (times : list Z)
    (s : TgBot.state) : Prop :=
  match times with
  | [] => True
  | t :: rest => TgBot.rateLimitUntil s <= t /\ paced sink rest (TgBot.processQueue sink t s)
  end.

Definition always_429 (x : TgBot.message) : TgBot.send_result :=
  TgBot.TooManyRequests (Some 2).
Definition always_ok (x : TgBot.message) : TgBot.send_result := TgBot.SendOk.

(** The sends an item has left before it is dropped: [1 + maxRetries] less
    its attempt counter. *)
Definition attempts_left (m : TgBot.message) : nat :=
  Z.to_nat (1 + TgBot.maxRetries - default 0 (TgBot.retryCount m)).

(** The number of selected items of a queue, and the sends they have left. *)
Fixpoint selected (sel : TgBot.message -> bool) (q : list TgBot.message) : nat :=
  match q with
  | [] => 0
  | m :: rest => (if sel m then 1 else 0) + selected sel rest
  end.

Fixpoint pending (sel : TgBot.message -> bool) (q : list TgBot.message) : nat :=
  match q with
  | [] => 0
  | m :: rest => (if sel m then attempts_left m else 0) + pending sel rest
  end.

(** The number of calls made to the sink for the selected items. *)
Fixpoint sent_count (sel : TgBot.message -> bool)
    (cs : list (TgBot.message * TgBot.send_result)) : nat :=
  match cs with
  | [] => 0
  | c :: rest => (if sel (fst c) then 1 else 0) + sent_count sel rest
  end.

(** A selection of items that does not look at the attempt counter: it
    follows an item through its re-queues. *)
Definition counter_blind (sel : TgBot.message -> bool) : Prop :=
  forall m n, sel (TgBot.with_retryCount m n) = sel m.

(** Every attempt counter of the queue is within [0 .. maxRetries]. *)
Definition counted (q : list TgBot.message) : Prop :=
  Forall (fun m => 0 <= default 0 (TgBot.retryCount m) <= TgBot.maxRetries) q.

(** Six error alerts queued on an idle dispatcher, for blocks 1 to 6. *)
Definition six_alerts : TgBot.state :=
  fold_left (fun s b => TgBot.sendHtml "-100" (MessageTemplates.error (RpcError "timeout") b)
                                       None s)
            [1; 2; 3; 4; 5; 6] TgBot.initial.

(** The alert for block 6, whatever its attempt counter. *)
Definition is_sixth (m : TgBot.message) : bool :=
  match TgBot.body m with
  | MessageTemplates.error _ b => b =? 6
  | _ => false
  end.

(** Twenty-four ticks, two seconds apart. *)
Definition slow_ticks : list Z := map (fun i => 2000 * Z.of_nat i) (seq 0 24).

(** ** The monitor *)

Fixpoint has_dot (s : string) : bool :=
  match s with
  | EmptyString => false
  | String c r => Ascii.eqb c "." || has_dot r
  end.

(** A computation that neither writes the check point nor records an event. *)
Definition keeps {A} (c : Eff WalletMonitor.monitor A) : Prop :=
  forall m, WalletMonitor.lastProcessedBlock (snd (c m)) = WalletMonitor.lastProcessedBlock m /\
            WalletMonitor.events (snd (c m)) = WalletMonitor.events m.

(** The end of the batch [scanNewBlocks] takes when the head is past the
    check point. *)
Definition batch_end (cfg : WalletMonitor.config) (last head : Z) : Z :=
  Z.min head (last + 1 + (if 20 <? head - last then Z.min 20 (head - last)
                          else WalletMonitor.cfg_batchSize cfg) - 1).

(** The default configuration, with a minimum of zero. *)
Definition default_config : WalletMonitor.config :=
  {| WalletMonitor.cfg_chatId := "-4940120432";
     WalletMonitor.cfg_threadId := None;
     WalletMonitor.cfg_batchSize := 5;
     WalletMonitor.cfg_minValue := 0;
     WalletMonitor.cfg_enableNewWalletDetection := true;
     WalletMonitor.cfg_redisPrefix := "wallet:";
     WalletMonitor.cfg_baseTokenMap := WalletMonitor.baseTokenMap |}.


Definition quiet_world (L : ledger) (head : Z) : WalletMonitor.world :=
  {| WalletMonitor.w_ledger := L;
     WalletMonitor.w_head := Returned head;
     WalletMonitor.w_isCex := fun _ => Returned false;
     WalletMonitor.w_number_ge := fun _ _ => false |}.

(** A monitor that tracks one wallet, stored as a root. *)
Definition one_wallet : WalletMonitor.monitor :=
  {| WalletMonitor.redis :=
       snd (RefRedis.addNodeLite "wallet:" "0xaa" "Alice" "" "a" RefRedis.empty_db);
     WalletMonitor.bot := TgBot.initial;
     WalletMonitor.monitoredAddresses := {["0xaa"]};
     WalletMonitor.addressNames := {["0xaa" := "Alice"]};
     WalletMonitor.watchedAddresses := {["0xaa"]};
     WalletMonitor.lastProcessedBlock := 0;
     WalletMonitor.mstats :=
       {| WalletMonitor.processedBlocks := 0; WalletMonitor.foundTransactions := 0;
          WalletMonitor.sentNotifications := 0; WalletMonitor.newWalletsAdded := 0 |};
     WalletMonitor.events := [] |}.

(** ** More on the referral graph *)

(** The stores the class maintains: from the empty store by [addNodeLite],
    [removeNode], [updateNode] that leaves the level alone, and
    [clearAllWallets]. *)
Inductive maintained (prefix : string) : RefRedis.db -> Prop :=
  | maintained_empty : maintained prefix RefRedis.empty_db
  | maintained_add d w nm rf fresh_id d' :
      maintained prefix d ->
      RefRedis.addNodeLite prefix w nm rf fresh_id d = (Returned tt, d') ->
      maintained prefix d'
  | maintained_remove d w d' :
      maintained prefix d ->
      RefRedis.removeNode prefix w d = (Returned tt, d') ->
      maintained prefix d'
  | maintained_update d w fields d' :
      maintained prefix d ->
      RefRedis.f_lv fields = None ->
      RefRedis.updateNode prefix w fields d = (Returned tt, d') ->
      maintained prefix d'
  | maintained_clear d n d' :
      maintained prefix d ->
      RefRedis.clearAllWallets prefix d = (Returned n, d') ->
      maintained prefix d'.

(** The members of the set of all wallets. *)
Definition listed (prefix : string) (d : RefRedis.db) : gset string :=
  default ∅ (RefRedis.sets d !! RefRedis.allWalletsKey prefix).

(** The node stored for a wallet, as [getNodeInfo] reads it. *)
Definition node_of (prefix : string) (d : RefRedis.db) (w : string)
    : option RefRedis.node_info :=
  match fst (RefRedis.getNodeInfo prefix w d) with
  | Returned o => o
  | Thrown _ => None
  end.

(** The numbers [Number.prototype.toString] prints in full decimal and
    [parseInt] reads back unchanged: [NaN] and the integers up to
    [Number.MAX_SAFE_INTEGER] in magnitude. *)
Definition safe_integer (x : num) : Prop :=
  match x with
  | Int n => Z.abs n <= 2 ^ 53 - 1
  | NaN => True
  end.

(** The listing agrees with the nodes stored. *)
Definition consistent (prefix : string) (d : RefRedis.db) : Prop :=
  forall w, w ∈ listed prefix d <->
            toLowerCase w = w /\ is_Some (RefRedis.hashes d !! RefRedis.nodeKey prefix w).

(** Every stored level is a positive integer. *)
Definition levels_positive (d : RefRedis.db) : Prop :=
  forall k h, RefRedis.hashes d !! k = Some h ->
              exists n, parseInt (str_or (RefRedis.h_lv h) "0") = Int n /\ 1 <= n.

(** An entry of an imported array is accepted when its wallet and its name
    are not empty. *)
Definition valid_item (it : DatabaseExecutor.item) : bool :=
  negb (String.eqb (DatabaseExecutor.item_wallet it) "")
  && negb (String.eqb (DatabaseExecutor.item_name it) "").

(** ** More on the classifier and the scanner *)

(** The decoding of one receipt log: a token change when the log carries
    the Transfer signature and [parseTransferEvent] reads it. *)
Definition decode_log (L : ledger) (lg : log_entry) : option erc20_change :=
  if bool_decide (log_topics lg !! 0%nat = Some TRANSFER_EVENT_SIGNATURE)
  then parseTransferEvent L lg else None.

(** The logs of a receipt that [parseTransaction] goes through. *)
Definition receipt_logs (r : option receipt) : list log_entry :=
  match r with
  | Some {| r_logs := Some logs |} => logs
  | _ => []
  end.

(** The transaction carries call data. *)
Definition has_payload (t : transaction) : bool :=
  negb (String.eqb (str_or (tx_data t) "0x") "0x")
  && negb (String.eqb (str_or (tx_data t) "0x") "0x0").

(** Every transaction of a fetched block carries the number of the block. *)
Definition numbered (L : ledger) : Prop :=
  forall b blk txs t,
    provider_getBlock L b = Returned (Some blk) ->
    b_prefetchedTransactions blk = Some txs ->
    t ∈ txs -> tx_blockNumber t = b.

(** Every transaction of the range that passes the filter has a receipt. *)
Definition receipts_available (L : ledger) (watched : gset string)
    (cfg : BlockScanner.config) (startBlock endBlock : Z) : Prop :=
  forall b t,
    startBlock <= b <= endBlock ->
    t ∈ BlockScanner.getBlockTransactions L b ->
    BlockScanner.filterTransaction watched cfg t = true ->
    is_Some (BlockScanner.getTransactionReceipt L (tx_hash t)).

(** The transactions of a block that pass the filter of the scanner. *)
Definition relevant_transactions (L : ledger) (watched : gset string)
    (cfg : BlockScanner.config) (b : Z) : list transaction :=
  filter (fun t => BlockScanner.filterTransaction watched cfg t = true)
         (BlockScanner.getBlockTransactions L b).

(** The delta of a transaction that has a receipt. *)
Definition report_confirmed (L : ledger) (t : transaction) : option delta :=
  match BlockScanner.getTransactionReceipt L (tx_hash t) with
  | Some r => classify L t (Some r)
  | None => None
  end.

(** ** More on the activity analysis *)

(** The entry the analysis lists for a token change. *)
Definition entry_of (c : erc20_change) : MessageTemplates.entry :=
  MessageTemplates.token_entry c (toLowerCase (c_from c)) (toLowerCase (c_to c)).

(** The entry the analysis lists for the native amount a delta sends. *)
Definition native_entry (tx : delta) : list MessageTemplates.entry :=
  match d_to tx with
  | Some to =>
      if String.eqb (bnb_from (d_bnbChange tx)) "0" then []
      else [ {| MessageTemplates.e_type := MessageTemplates.bnb;
                MessageTemplates.e_tokenAddress := None;
                MessageTemplates.e_tokenSymbol := None;
                MessageTemplates.e_formattedValue := bnb_from (d_bnbChange tx);
                MessageTemplates.e_from := toLowerCase (d_from tx);
                MessageTemplates.e_to := toLowerCase to |} ]
  | None => []
  end.

(** ** More on the monitor *)

(** Every run of the computation relates the monitor it starts from to the
    monitor it leaves. *)
Definition frames {A} (R : WalletMonitor.monitor -> WalletMonitor.monitor -> Prop)
    (c : Eff WalletMonitor.monitor A) : Prop :=
  forall m, R m (snd (c m)).

(** An address the detection may start to track: a candidate [Q] that is an
    externally owned account, that the reputation service answered for with
    [false], and that has no node in the store. *)
Definition enrollable (cfg : WalletMonitor.config) (W : WalletMonitor.world)
    (Q : string -> Prop) (d : RefRedis.db) (w : string) : Prop :=
  Q w /\
  isEOA (WalletMonitor.w_ledger W) w = true /\
  WalletMonitor.w_isCex W w = Returned false /\
  RefRedis.hashes d !! RefRedis.nodeKey (WalletMonitor.cfg_redisPrefix cfg) w = None.

(** The store is left as it was and the tracked set grew by enrollable
    addresses only. *)
Definition extends_by (cfg : WalletMonitor.config) (W : WalletMonitor.world)
    (Q : string -> Prop) (m m' : WalletMonitor.monitor) : Prop :=
  WalletMonitor.redis m' = WalletMonitor.redis m /\
  forall w, w ∈ WalletMonitor.monitoredAddresses m' ->
            w ∈ WalletMonitor.monitoredAddresses m \/
            enrollable cfg W Q (WalletMonitor.redis m) w.

(** The recipients a delta names: its own and those of its token changes,
    in lower case. *)
Definition recipient_of (tx : delta) (w : string) : Prop :=
  (exists a, d_to tx = Some a /\ w = toLowerCase a) \/
  (exists c, c ∈ d_erc20Changes tx /\ w = toLowerCase (c_to c)).

(** The block ranges scanned, read off the events. *)
Fixpoint scans (evs : list WalletMonitor.event) : list (Z * Z) :=
  match evs with
  | [] => []
  | WalletMonitor.Scanned s e :: rest => (s, e) :: scans rest
  | _ :: rest => scans rest
  end.

(** Ranges that follow one another from [last] on: each starts right after
    the end of the one before and is not empty. *)
Fixpoint contiguous (last : Z) (ranges : list (Z * Z)) : Prop :=
  match ranges with
  | [] => True
  | (s, e) :: rest => s = last + 1 /\ s <= e /\ contiguous e rest
  end.

(** The end of the last range, [last] when there is none. *)
Definition last_end (last : Z) (ranges : list (Z * Z)) : Z :=
  fold_left (fun _ r => snd r) ranges last.

(** The name [loadMonitoredAddresses] keeps for a wallet: the stored one
    when it is not empty. *)
Definition stored_name (prefix : string) (d : RefRedis.db) (w : string) : option string :=
  match RefRedis.h_name <$> RefRedis.hashes d !! RefRedis.nodeKey prefix w with
  | Some n => if String.eqb n "" then None else Some n
  | None => None
  end.

(** A world whose reputation service is [getIsCexDict] on the answer the
    history endpoint gives for the address. *)
Definition with_history (W : WalletMonitor.world) (response : string -> outcome Utils.history)
    : WalletMonitor.world :=
  {| WalletMonitor.w_ledger := WalletMonitor.w_ledger W;
     WalletMonitor.w_head := WalletMonitor.w_head W;
     WalletMonitor.w_isCex := fun a => Utils.getIsCexDict (response a);
     WalletMonitor.w_number_ge := WalletMonitor.w_number_ge W |}.

(** What a send that is not throttled leaves on the console. *)
Definition send_report (sink : TgBot.message -> TgBot.send_result) (m : TgBot.message)
    : list TgBot.log_line :=
  match sink m with
  | TgBot.SendFailed => [TgBot.ErrorSendFailed]
  | _ => []
  end.

(** ** Scenarios *)

(** The fields of an update that renames a node. *)
Definition rename (nm : string) : RefRedis.node_fields :=
  {| RefRedis.f_id := None; RefRedis.f_name := Some nm; RefRedis.f_refer := None;
     RefRedis.f_refer_id := None; RefRedis.f_lv := None |}.

(** The fields of an update that renames a node and sets its level. *)
Definition rename_at (nm : string) (level : Z) : RefRedis.node_fields :=
  {| RefRedis.f_id := None; RefRedis.f_name := Some nm; RefRedis.f_refer := None;
     RefRedis.f_refer_id := None; RefRedis.f_lv := Some (Int level) |}.

(** A store with one root. *)
Definition alice_store : RefRedis.db :=
  snd (RefRedis.addNodeLite "ref:" "0xABC1" "Alice" "" "a" RefRedis.empty_db).

(** An array to import: one entry with a wallet and a name, one without a
    wallet. *)
Definition two_items : list DatabaseExecutor.item :=
  [ {| DatabaseExecutor.item_wallet := "0xABC1"; DatabaseExecutor.item_name := "Alice";
       DatabaseExecutor.item_refer := "" |};
    {| DatabaseExecutor.item_wallet := ""; DatabaseExecutor.item_name := "Nobody";
       DatabaseExecutor.item_refer := "" |} ].

(** A call of [transfer] on the USDT contract by the tracked wallet. *)
Definition token_call : transaction :=
  {| tx_hash := "0x04"; tx_blockNumber := 2; tx_from := "0xaa";
     tx_to := Some "0x55d398326f99059ff775485246999027b3197955";
     tx_value := 0;
     tx_data := "0xa9059cbb00000000000000000000000000000000000000000000000000000000000000b2"
                +:+ "0000000000000000000000000000000000000000000000000de0b6b3a7640000" |}.

(** The Transfer log of that call: one token from [0x..aa] to [0x..b2]. *)
Definition usdt_transfer_log : log_entry :=
  {| log_address := "0x55d398326f99059ff775485246999027b3197955";
     log_topics :=
       [ TRANSFER_EVENT_SIGNATURE;
         "0x00000000000000000000000000000000000000000000000000000000000000aa";
         "0x00000000000000000000000000000000000000000000000000000000000000b2" ];
     log_data := "0x0000000000000000000000000000000000000000000000000de0b6b3a7640000" |}.

(** What the parallel scan of blocks 1 to 5 of [five_blocks] returns. *)
Definition five_blocks_scan : list delta :=
  or_else (BlockScanner.scanBlockRangeParallel five_blocks {["0xaa"]} scan_config 1 5) [].

(** The tracked wallet pays 2000 USDT to an account that is not tracked. *)
Definition token_payment : delta :=
  {| d_hash := "0x05"; d_blockNumber := 8; d_from := "0xAA";
     d_to := Some "0x55d398326f99059ff775485246999027b3197955";
     d_transactionType := erc20_transfer; d_isTransfer := true;
     d_isERC20Transaction := true; d_isEOA := false;
     d_bnbChange := {| bnb_from := "0"; bnb_to := "0" |};
     d_erc20Changes :=
       [ {| c_tokenAddress := "0x55d398326f99059ff775485246999027b3197955";
            c_tokenSymbol := "USDT"; c_tokenName := "Tether USD"; c_tokenDecimals := 18;
            c_from := "0xAA"; c_to := "0xB2";
            c_value := "2000000000000000000000"; c_formattedValue := "2000.0" |} ] |}.

(** A payment sent by an address written with upper-case letters. *)
Definition bob_payment : delta :=
  {| d_hash := "0x06"; d_blockNumber := 9; d_from := "0xBB22"; d_to := Some "0xcc";
     d_transactionType := bnb_transfer; d_isTransfer := true;
     d_isERC20Transaction := false; d_isEOA := true;
     d_bnbChange := {| bnb_from := "-1.0"; bnb_to := "1.0" |};
     d_erc20Changes := [] |}.

(** A world in which every amount reaches its minimum and no address
    belongs to an exchange. *)
Definition generous_world : WalletMonitor.world :=
  {| WalletMonitor.w_ledger := silent_ledger;
     WalletMonitor.w_head := Returned 0;
     WalletMonitor.w_isCex := fun _ => Returned false;
     WalletMonitor.w_number_ge := fun _ _ => true |}.

(** The analysis of [token_payment] when its sender is tracked. *)
Definition token_payment_analysis : MessageTemplates.analysis :=
  {| MessageTemplates.hasActivity := true;
     MessageTemplates.walletName := "Alice";
     MessageTemplates.walletAddress := "0xAA";
     MessageTemplates.received := [];
     MessageTemplates.sent :=
       [ {| MessageTemplates.e_type := MessageTemplates.token;
            MessageTemplates.e_tokenAddress :=
              Some "0x55d398326f99059ff775485246999027b3197955";
            MessageTemplates.e_tokenSymbol := Some "USDT";
            MessageTemplates.e_formattedValue := "2000.0";
            MessageTemplates.e_from := "0xaa";
            MessageTemplates.e_to := "0xb2" |} ] |}.

(** The value and the monitor a manual [addWallet] leaves. *)
Definition addWallet_result_of (cfg : WalletMonitor.config) (W : WalletMonitor.world)
    (w nm fresh_id : string) (m : WalletMonitor.monitor)
    : WalletMonitor.op_result * WalletMonitor.monitor :=
  match WalletMonitor.addWallet cfg W w nm fresh_id m with
  | (Returned r, m') => (r, m')
  | (Thrown _, m') => (WalletMonitor.failure, m')
  end.

(** * Facts *)

(** ** Strings and numbers *)

Section JSFacts.
Import JS.

Example formatEther_one_and_a_half : formatEther 1500000000000000000 = "1.5".
Proof. vm_compute. reflexivity. Qed.

Example formatEther_one : formatEther 1000000000000000000 = "1.0".
Proof. vm_compute. reflexivity. Qed.

Example formatEther_wei : formatEther 1 = "0.000000000000000001".
Proof. vm_compute. reflexivity. Qed.

Example formatEther_zero : formatEther 0 = "0.0".
Proof. vm_compute. reflexivity. Qed.

Example StringToBigInt_decimal : StringToBigInt " 12 " = Some 12.
Proof. vm_compute. reflexivity. Qed.

Example StringToBigInt_hex : StringToBigInt "0x1F" = Some 31.
Proof. vm_compute. reflexivity. Qed.

Example StringToBigInt_empty : StringToBigInt "" = Some 0.
Proof. vm_compute. reflexivity. Qed.

Example StringToBigInt_point : StringToBigInt "1.0" = None.
Proof. vm_compute. reflexivity. Qed.

Example str_ge_bigint_integer : str_ge_bigint "1" 0 = true.
Proof. vm_compute. reflexivity. Qed.

Example str_ge_bigint_point : str_ge_bigint "1.0" 0 = false.
Proof. vm_compute. reflexivity. Qed.

Example parseInt_level : parseInt "12" = Int 12.
Proof. vm_compute. reflexivity. Qed.

Example parseInt_hex_prefix : parseInt "0x10" = Int 16.
Proof. vm_compute. reflexivity. Qed.

Example parseInt_exponent : parseInt "1e+21" = Int 1.
Proof. vm_compute. reflexivity. Qed.

Example parseInt_negative : parseInt "-3" = Int (-3).
Proof. vm_compute. reflexivity. Qed.

Example formatTokenValue_decimals :
  TransactionProcessor.formatTokenValue 1500000 6 = "1.5".
Proof. vm_compute. reflexivity. Qed.

Example formatTokenValue_fallback :
  TransactionProcessor.formatTokenValue 1500000 81 = "1500000".
Proof. vm_compute. reflexivity. Qed.

Example parseInt_NaN : parseInt "NaN" = NaN.
Proof. vm_compute. reflexivity. Qed.

Lemma lower_ascii_idem (c : ascii) : lower_ascii (lower_ascii c) = lower_ascii c.
Proof. destruct c as [[] [] [] [] [] [] [] []]; reflexivity. Qed.

Lemma toLowerCase_idem (s : string) : toLowerCase (toLowerCase s) = toLowerCase s.
Proof.
  induction s as [|c r IH]; simpl; [reflexivity|].
  now rewrite lower_ascii_idem, IH.
Qed.

Lemma take_digits_print (d : Decimal.uint) :
  take_digits (NilEmpty.string_of_uint d) = d.
Proof. induction d; simpl; congruence. Qed.

Lemma parseInt_print_uint (d : Decimal.uint) :
  d <> Decimal.Nil ->
  parseInt (NilZero.string_of_uint d) = Int (Z.of_N (N.of_uint d)).
Proof.
  intros Hd. unfold parseInt, parse_magnitude.
  destruct d as [|d|d|d|d|d|d|d|d|d|d]; try congruence;
    try (simpl; rewrite take_digits_print; reflexivity).
  destruct d; simpl; rewrite ?take_digits_print; reflexivity.
Qed.

Lemma N_to_uint_nonnil (n : N) : N.to_uint n <> Decimal.Nil.
Proof.
  destruct n as [|p]; simpl; [discriminate|].
  apply DecimalPos.Unsigned.to_uint_nonnil.
Qed.

Lemma parseInt_N_to_string (n : N) : parseInt (N_to_string n) = Int (Z.of_N n).
Proof.
  unfold N_to_string. rewrite parseInt_print_uint by apply N_to_uint_nonnil.
  now rewrite DecimalN.Unsigned.of_to.
Qed.

Lemma string_of_uint_head (d : Decimal.uint) :
  d <> Decimal.Nil ->
  exists c r, NilZero.string_of_uint d = String c r /\ is_digit c = true.
Proof.
  intros Hd. destruct d; try congruence; simpl; eexists _, _; split; reflexivity.
Qed.

Lemma N_to_string_head (n : N) :
  exists c r, N_to_string n = String c r /\ is_digit c = true.
Proof. apply string_of_uint_head, N_to_uint_nonnil. Qed.

Lemma parseInt_minus (s : string) (n : N) :
  parseInt s = Int (Z.of_N n) ->
  (exists c r, s = String c r /\ is_digit c = true) ->
  parseInt ("-" +:+ s) = Int (- Z.of_N n).
Proof.
  intros Hp (c & r & -> & Hc).
  assert (Hneg : parseInt ("-" +:+ String c r)
                 = match parse_magnitude (String c r) with
                   | Some m => Int (- Z.of_N m)
                   | None => NaN
                   end) by reflexivity.
  assert (Hpos : parseInt (String c r)
                 = match parse_magnitude (String c r) with
                   | Some m => Int (Z.of_N m)
                   | None => NaN
                   end).
  { unfold parseInt. cbn [skip_spaces].
    assert (Hsp : is_space c = false).
    { destruct c as [[] [] [] [] [] [] [] []]; try discriminate Hc; reflexivity. }
    rewrite Hsp.
    destruct c as [[] [] [] [] [] [] [] []]; try discriminate Hc; reflexivity. }
  rewrite Hneg. rewrite Hpos in Hp.
  destruct (parse_magnitude (String c r)) as [m|]; [|discriminate].
  injection Hp as H. apply N2Z.inj in H. now subst m.
Qed.

Lemma parseInt_Z_to_string (z : Z) : parseInt (Z_to_string z) = Int z.
Proof.
  unfold Z_to_string. destruct (Z.ltb_spec z 0) as [Hneg|Hpos].
  - rewrite (parseInt_minus _ (Z.to_N (- z))).
    + f_equal. lia.
    + apply parseInt_N_to_string.
    + apply N_to_string_head.
  - rewrite parseInt_N_to_string. f_equal. lia.
Qed.

Lemma Z_to_string_nonempty (z : Z) : Z_to_string z <> "".
Proof.
  unfold Z_to_string. destruct (z <? 0); [discriminate|].
  destruct (N_to_string_head (Z.to_N z)) as (c & r & -> & _). discriminate.
Qed.

Lemma str_or_nonempty (s dflt : string) : s <> "" -> str_or s dflt = s.
Proof.
  intros Hs. unfold str_or. destruct (String.eqb_spec s ""); [contradiction|reflexivity].
Qed.

(** The level survives its storage as a string. *)
Lemma lv_roundtrip (x : num) : parseInt (str_or (num_toString x) "0") = x.
Proof.
  destruct x as [z|]; simpl.
  - rewrite str_or_nonempty by apply Z_to_string_nonempty. apply parseInt_Z_to_string.
  - reflexivity.
Qed.

End JSFacts.

(** ** The referral graph *)

Section RefRedisFacts.
Import JS RefRedis.

Variable prefix : string.

Lemma nodeKey_lower (w : string) : nodeKey prefix (toLowerCase w) = nodeKey prefix w.
Proof. unfold nodeKey. now rewrite toLowerCase_idem. Qed.

Lemma existsWallet_eq (w : string) (d : db) :
  existsWallet prefix w d =
  (Returned (bool_decide (is_Some (hashes d !! nodeKey prefix w))), d).
Proof.
  unfold existsWallet, bind, redis_exists, ret. rewrite nodeKey_lower.
  destruct (hashes d !! nodeKey prefix w) as [h|] eqn:E; reflexivity.
Qed.

Lemma str_or_empty (s : string) : str_or s "" = s.
Proof. unfold str_or. destruct (String.eqb_spec s ""); congruence. Qed.

Lemma addNode_taken (info : node_info) (d : db) :
  is_Some (hashes d !! nodeKey prefix (wallet info)) ->
  addNode prefix info d = (Thrown (NodeAlreadyExists (toLowerCase (wallet info))), d).
Proof.
  intros [h Hh]. unfold addNode, bind, redis_exists. rewrite nodeKey_lower, Hh. reflexivity.
Qed.

Lemma addNode_free (info : node_info) (d : db) :
  hashes d !! nodeKey prefix (wallet info) = None ->
  addNode prefix info d =
  (Returned tt,
   {| hashes := <[nodeKey prefix (wallet info) :=
                    {| h_id := id info; h_name := name info;
                       h_wallet := toLowerCase (wallet info);
                       h_refer := toLowerCase (refer info);
                       h_refer_id := refer_id info;
                       h_lv := num_toString (lv info) |}]> (hashes d);
      sets := <[allWalletsKey prefix :=
                  {[toLowerCase (wallet info)]} ∪ default ∅ (sets d !! allWalletsKey prefix)]>
                (sets d) |}).
Proof.
  intros Hh. unfold addNode, bind, redis_exists. rewrite nodeKey_lower, Hh. reflexivity.
Qed.

(** [addNodeLite] is [addNode] on the derived level and chain. *)
Lemma addNodeLite_eq (w nm rf fresh_id : string) (d : db) :
  addNodeLite prefix w nm rf fresh_id d =
  addNode prefix {| id := fresh_id; name := nm; wallet := toLowerCase w;
                    refer := toLowerCase rf;
                    refer_id := snd (derived prefix d rf); lv := fst (derived prefix d rf) |} d.
Proof.
  unfold addNodeLite. unfold bind at 1. rewrite existsWallet_eq.
  rewrite !nodeKey_lower. unfold derived.
  destruct (hashes d !! nodeKey prefix rf) as [parent|] eqn:E.
  - rewrite bool_decide_eq_true_2 by eauto. simpl.
    unfold bind at 1. unfold bind at 1. unfold hGetAll. rewrite E.
    rewrite str_or_empty.
    destruct (String.eqb_spec (h_refer_id parent) "") as [He|Hne]; simpl.
    + reflexivity.
    + destruct (h_refer_id parent); [congruence|]. reflexivity.
  - rewrite bool_decide_eq_false_2 by (intros [x Hx]; discriminate). reflexivity.
Qed.

Lemma addNodeLite_taken (w nm rf fresh_id : string) (d : db) :
  is_Some (hashes d !! nodeKey prefix w) ->
  addNodeLite prefix w nm rf fresh_id d = (Thrown (NodeAlreadyExists (toLowerCase w)), d).
Proof.
  intros H. rewrite addNodeLite_eq, addNode_taken; simpl.
  - now rewrite toLowerCase_idem.
  - now rewrite nodeKey_lower.
Qed.

Lemma addNodeLite_free (w nm rf fresh_id : string) (d : db) :
  hashes d !! nodeKey prefix w = None ->
  addNodeLite prefix w nm rf fresh_id d =
  (Returned tt,
   {| hashes := <[nodeKey prefix w := created prefix d w nm rf fresh_id]> (hashes d);
      sets := <[allWalletsKey prefix :=
                  {[toLowerCase w]} ∪ default ∅ (sets d !! allWalletsKey prefix)]> (sets d) |}).
Proof.
  intros H. rewrite addNodeLite_eq, addNode_free; simpl.
  - now rewrite !toLowerCase_idem, nodeKey_lower.
  - now rewrite nodeKey_lower.
Qed.

(** A successful [addNodeLite] found the wallet free. *)
Lemma addNodeLite_returned (w nm rf fresh_id : string) (d d' : db) :
  addNodeLite prefix w nm rf fresh_id d = (Returned tt, d') ->
  hashes d !! nodeKey prefix w = None /\
  d' = {| hashes := <[nodeKey prefix w := created prefix d w nm rf fresh_id]> (hashes d);
          sets := <[allWalletsKey prefix :=
                      {[toLowerCase w]} ∪ default ∅ (sets d !! allWalletsKey prefix)]>
                    (sets d) |}.
Proof.
  intros H. destruct (hashes d !! nodeKey prefix w) as [h|] eqn:E.
  - rewrite addNodeLite_taken in H by eauto. discriminate.
  - rewrite addNodeLite_free in H by assumption. split; congruence.
Qed.

Lemma getNodeInfo_eq (w : string) (d : db) :
  getNodeInfo prefix w d =
  (Returned ((fun obj => {| id := h_id obj; name := h_name obj; wallet := h_wallet obj;
                           refer := h_refer obj; refer_id := h_refer_id obj;
                           lv := parseInt (str_or (h_lv obj) "0") |})
             <$> hashes d !! nodeKey prefix w), d).
Proof.
  unfold getNodeInfo, bind, hGetAll. rewrite nodeKey_lower.
  destruct (hashes d !! nodeKey prefix w); reflexivity.
Qed.

Lemma filter_eq_absent (x : string) (l : list string) :
  x ∉ l -> filter (fun y => y = x) l = [].
Proof.
  induction l as [|y l IH]; intros Hx; [reflexivity|].
  rewrite filter_cons. destruct (decide (y = x)) as [->|Hne].
  - exfalso. apply Hx. left.
  - apply IH. intros Hin. apply Hx. now right.
Qed.

Lemma count_in_NoDup (x : string) (l : list string) :
  NoDup l -> x ∈ l -> length (filter (fun y => y = x) l) = 1%nat.
Proof.
  induction 1 as [|y l Hy Hnd IH]; intros Hx; [inversion Hx|].
  rewrite filter_cons. destruct (decide (y = x)) as [->|Hne].
  - simpl. now rewrite filter_eq_absent.
  - apply IH. inversion Hx; subst; [congruence|assumption].
Qed.

End RefRedisFacts.

Section RefRedisClaims.
Import JS RefRedis.

(** C3. Enrolling a wallet that was enrolled before, in any letter case,
    fails and leaves the store as it was: [addNodeLite] throws
    [NodeAlreadyExists], and [addNewWallet] of the monitor sees the node and
    does nothing. The node of the first enrollment is still the one stored,
    under its one key, and the wallet is listed once. *)
Theorem addNodeLite_twice (prefix w nm rf fresh_id : string) (d d1 : db) :
  addNodeLite prefix w nm rf fresh_id d = (Returned tt, d1) ->
  forall w',
    toLowerCase w' = toLowerCase w ->
    (forall nm' rf' fresh_id',
       addNodeLite prefix w' nm' rf' fresh_id' d1
         = (Thrown (NodeAlreadyExists (toLowerCase w)), d1)) /\
    (forall (cfg : WalletMonitor.config) (W : WalletMonitor.world) (from : string)
            (m : WalletMonitor.monitor),
       WalletMonitor.cfg_redisPrefix cfg = prefix ->
       WalletMonitor.redis m = d1 ->
       WalletMonitor.addNewWallet cfg W w' from m = (Returned tt, m)) /\
    existsWallet prefix w d1 = (Returned true, d1) /\
    hashes d1 !! nodeKey prefix w' = Some (created prefix d w nm rf fresh_id) /\
    exists wallets,
      getAllWallets prefix d1 = (Returned wallets, d1) /\
      length (filter (fun x => x = toLowerCase w) wallets) = 1%nat.
Proof.
  intros H1 w' Hw.
  apply addNodeLite_returned in H1 as [Hfree ->].
  assert (Hkey : nodeKey prefix w' = nodeKey prefix w) by (unfold nodeKey; now rewrite Hw).
  split; [|split; [|split; [|split]]].
  - intros nm' rf' fresh_id'. rewrite addNodeLite_taken; [now rewrite Hw|].
    simpl. rewrite Hkey, lookup_insert_eq. eauto.
  - intros cfg W from m Hp Hd.
    unfold WalletMonitor.addNewWallet, try_catch, bind, WalletMonitor.on_redis.
    rewrite Hp, existsWallet_eq, Hd. simpl. rewrite Hkey, lookup_insert_eq.
    rewrite bool_decide_eq_true_2 by eauto. simpl.
    rewrite <- Hd. destruct m; reflexivity.
  - rewrite existsWallet_eq. simpl. rewrite lookup_insert_eq.
    rewrite bool_decide_eq_true_2 by eauto. reflexivity.
  - simpl. now rewrite Hkey, lookup_insert_eq.
  - eexists. split.
    + unfold getAllWallets, bind, sMembers, ret. simpl. rewrite lookup_insert_eq. reflexivity.
    + simpl. apply count_in_NoDup; [apply NoDup_elements|].
      apply elem_of_elements. set_solver.
Qed.

(** C7, as amended. The node [addNodeLite] creates has level [1] and an
    empty chain when no node is stored for its referrer; otherwise its level
    is the referrer's level plus one and its chain is the referrer's chain
    with the referrer's id added, the referrer's node being left as it was. *)
Theorem addNodeLite_level_chain (prefix w nm rf fresh_id : string) (d d' : db) :
  addNodeLite prefix w nm rf fresh_id d = (Returned tt, d') ->
  exists node,
    getNodeInfo prefix w d' = (Returned (Some node), d') /\
    id node = fresh_id /\ name node = nm /\ wallet node = toLowerCase w /\
    refer node = toLowerCase rf /\
    match fst (getNodeInfo prefix rf d) with
    | Returned (Some parent) =>
        lv node = num_add (lv parent) (Int 1) /\
        refer_id node = extend (refer_id parent) (id parent) /\
        fst (getNodeInfo prefix rf d') = Returned (Some parent)
    | _ => lv node = Int 1 /\ refer_id node = ""
    end.
Proof.
  intros H. apply addNodeLite_returned in H as [Hfree ->].
  eexists. split.
  { rewrite getNodeInfo_eq. simpl. rewrite lookup_insert_eq. reflexivity. }
  simpl. repeat split.
  rewrite lv_roundtrip. rewrite !getNodeInfo_eq. simpl.
  unfold derived.
  destruct (hashes d !! nodeKey prefix rf) as [parent|] eqn:E; simpl.
  - repeat split.
    destruct (decide (nodeKey prefix w = nodeKey prefix rf)) as [Heq|Hne].
    + rewrite Heq in Hfree. congruence.
    + rewrite lookup_insert_ne by assumption. now rewrite E.
  - split; reflexivity.
Qed.

(** The levels along a chain: the node at depth [length l] below the first
    one has the level of the first one plus [length l]. *)
Lemma enroll_chain_level (prefix : string) (l : list (string * string * string))
    (rf w nm fresh_id : string) (d d' : db) (b : Z) :
  enroll_chain prefix rf (l ++ [(w, nm, fresh_id)]) d = (Returned tt, d') ->
  fst (derived prefix d rf) = Int b ->
  exists node,
    fst (getNodeInfo prefix w d') = Returned (Some node) /\
    lv node = Int (b + Z.of_nat (length l)).
Proof.
  revert rf d b. induction l as [|[[w1 n1] i1] rest IH]; intros rf d b Hrun Hb.
  - simpl in Hrun. unfold bind, ret in Hrun.
    destruct (addNodeLite prefix w nm rf fresh_id d) as [[[]|e] d1] eqn:E; [|discriminate].
    injection Hrun as <-.
    apply addNodeLite_returned in E as [_ ->].
    rewrite getNodeInfo_eq. simpl. rewrite lookup_insert_eq. simpl.
    eexists. split; [reflexivity|]. simpl. rewrite lv_roundtrip, Hb. f_equal. lia.
  - simpl in Hrun. unfold bind at 1 in Hrun.
    destruct (addNodeLite prefix w1 n1 rf i1 d) as [[[]|e] d1] eqn:E; [|discriminate].
    apply addNodeLite_returned in E as [_ ->].
    destruct (IH w1 _ (b + 1) Hrun) as (node & Hn & Hlv).
    + unfold derived. simpl. rewrite lookup_insert_eq. simpl.
      now rewrite lv_roundtrip, Hb.
    + exists node. split; [exact Hn|]. rewrite Hlv. f_equal. simpl length. lia.
Qed.

(** C10. With a referrer that is not empty and has no node, [addNodeLite]
    creates a node of level [1] with an empty chain, whose [refer] field
    holds the referrer all the same. *)
Theorem addNodeLite_dangling_refer (prefix w nm rf fresh_id : string) (d : db) :
  rf <> "" ->
  existsWallet prefix rf d = (Returned false, d) ->
  existsWallet prefix w d = (Returned false, d) ->
  exists d',
    addNodeLite prefix w nm rf fresh_id d = (Returned tt, d') /\
    getNodeInfo prefix w d' =
      (Returned (Some {| id := fresh_id; name := nm; wallet := toLowerCase w;
                         refer := toLowerCase rf; refer_id := ""; lv := Int 1 |}), d').
Proof.
  intros _ Hrf Hw. rewrite existsWallet_eq in Hrf, Hw.
  assert (Hrf' : hashes d !! nodeKey prefix rf = None).
  { destruct (hashes d !! nodeKey prefix rf); [|reflexivity].
    rewrite bool_decide_eq_true_2 in Hrf by eauto. discriminate. }
  assert (Hw' : hashes d !! nodeKey prefix w = None).
  { destruct (hashes d !! nodeKey prefix w); [|reflexivity].
    rewrite bool_decide_eq_true_2 in Hw by eauto. discriminate. }
  eexists. split; [apply addNodeLite_free; assumption|].
  rewrite getNodeInfo_eq. simpl. rewrite lookup_insert_eq. simpl.
  unfold derived. rewrite Hrf'. reflexivity.
Qed.


Lemma addNodeLite_twice_witness :
  let d1 := snd (addNodeLite "ref:" "0xABC1" "Alice" "" "id1" empty_db) in
  addNodeLite "ref:" "0xabc1" "Eve" "0xdef2" "id2" d1
    = (Thrown (NodeAlreadyExists "0xabc1"), d1) /\
  existsWallet "ref:" "0xABC1" d1 = (Returned true, d1).
Proof.
  intros d1.
  destruct (addNodeLite_twice "ref:" "0xABC1" "Alice" "" "id1" empty_db d1)
    with (w' := "0xabc1") as (Hthrow & _ & Hex & _); [vm_compute; reflexivity | reflexivity |].
  split; [apply Hthrow | exact Hex].
Defined.

Lemma addNodeLite_level_chain_witness :
  let d1 := snd (addNodeLite "ref:" "0xabc1" "Alice" "" "a" empty_db) in
  let d2 := snd (addNodeLite "ref:" "0xdef2" "Bob" "0xabc1" "b" d1) in
  let d3 := snd (addNodeLite "ref:" "0x0123" "Carol" "0xdef2" "c" d2) in
  exists node,
    getNodeInfo "ref:" "0x0123" d3 = (Returned (Some node), d3) /\
    lv node = Int 3 /\ refer_id node = "a;b".
Proof.
  intros d1 d2 d3.
  destruct (addNodeLite_level_chain "ref:" "0x0123" "Carol" "0xdef2" "c" d2 d3)
    as (node & Hget & _ & _ & _ & _ & Hm); [vm_compute; reflexivity|].
  exists node. split; [exact Hget|].
  vm_compute in Hm. exact (conj (proj1 Hm) (proj1 (proj2 Hm))).
Defined.

Lemma addNodeLite_dangling_refer_witness :
  exists d',
    addNodeLite "ref:" "0xdef2" "Bob" "0xabc1" "b" empty_db = (Returned tt, d') /\
    getNodeInfo "ref:" "0xdef2" d' =
      (Returned (Some {| id := "b"; name := "Bob"; wallet := "0xdef2";
                         refer := "0xabc1"; refer_id := ""; lv := Int 1 |}), d').
Proof.
  apply (addNodeLite_dangling_refer "ref:" "0xdef2" "Bob" "0xabc1" "b" empty_db);
    [discriminate | reflexivity | reflexivity].
Defined.

(** C7 as stated fails: a node enrolled under a referrer that has no node
    keeps the referrer, at level [1], and no referrer's level is one less. *)
Lemma level_invariant_fails :
  ~ (forall prefix d, enrolled prefix d -> level_invariant prefix d).
Proof.
  intros H.
  destruct (addNodeLite "ref:" "0xdef2" "Bob" "0xabc1" "b" empty_db) as [r d1] eqn:E.
  vm_compute in E. injection E as <- <-.
  specialize (H "ref:" _ (enrolled_add "ref:" empty_db "0xdef2" "Bob" "0xabc1" "b" _
                            (enrolled_empty "ref:") eq_refl)).
  specialize (H "0xdef2" _ eq_refl). 
  vm_compute in H. 
  destruct H as (parent & Hp & _). discriminate Hp.
Qed.

End RefRedisClaims.

(** ** The classifier *)

Section ClassifierFacts.
Import JS TransactionProcessor.

Variable L : ledger.

(** The Transfer events add token changes and touch neither the
    classification nor the native change. *)
Lemma analyzeERC20Events_keeps (logs : list log_entry) (result : parsed) :
  p_transactionType (analyzeERC20Events L logs result) = p_transactionType result /\
  p_bnbChange (analyzeERC20Events L logs result) = p_bnbChange result.
Proof.
  revert result. induction logs as [|lg rest IH]; intros result; simpl; [auto|].
  match goal with |- context [analyzeERC20Events L rest ?r] =>
    destruct (IH r) as [-> ->] end.
  destruct (bool_decide _); [|auto].
  destruct (parseTransferEvent L lg); auto.
Qed.

Lemma analyzeTransactionType_no_data (t : transaction) (result : parsed) :
  tx_data t = "0x" ->
  p_transactionType (analyzeTransactionType t result)
    = (if 0 <? tx_value t then bnb_transfer else contract_call) /\
  p_bnbChange (analyzeTransactionType t result) = p_bnbChange result.
Proof.
  intros Hd. unfold analyzeTransactionType. rewrite Hd. simpl.
  destruct (0 <? tx_value t); split; reflexivity.
Qed.

Lemma analyzeBNBChange_change (t : transaction) (result : parsed) :
  p_bnbChange (analyzeBNBChange t result) =
  if 0 <? tx_value t then
    {| bnb_from := "-" +:+ formatEther (tx_value t);
       bnb_to := if present (tx_to t) then formatEther (tx_value t)
                 else bnb_to (p_bnbChange result) |}
  else p_bnbChange result.
Proof. unfold analyzeBNBChange. destruct (0 <? tx_value t); reflexivity. Qed.

(** What [parseTransaction] returns for a transaction without call data. *)
Lemma parseTransaction_no_data (t : transaction) (r : option receipt) :
  tx_data t = "0x" ->
  exists p, parseTransaction L t r = Some p /\
    p_transactionType p = (if 0 <? tx_value t then bnb_transfer else contract_call) /\
    p_bnbChange p =
      (if 0 <? tx_value t then
         {| bnb_from := "-" +:+ formatEther (tx_value t);
            bnb_to := if present (tx_to t) then formatEther (tx_value t) else "0" |}
       else {| bnb_from := "0"; bnb_to := "0" |}).
Proof.
  intros Hd. unfold parseTransaction. eexists. split; [reflexivity|].
  assert (Hlogs : forall x,
    p_transactionType (match r with
                       | Some {| r_logs := Some logs |} => analyzeERC20Events L logs x
                       | _ => x end) = p_transactionType x /\
    p_bnbChange (match r with
                 | Some {| r_logs := Some logs |} => analyzeERC20Events L logs x
                 | _ => x end) = p_bnbChange x).
  { intros x. destruct r as [[[logs|]]|]; auto using analyzeERC20Events_keeps. }
  match goal with |- context [analyzeTransactionType t ?x] =>
    destruct (Hlogs (analyzeTransactionType t x)) as [-> ->];
    destruct (analyzeTransactionType_no_data t x Hd) as [-> ->] end.
  split; [reflexivity|].
  rewrite analyzeBNBChange_change.
  destruct (tx_to t) as [a|]; [destruct (present (Some a))|]; reflexivity.
Qed.

End ClassifierFacts.

Section ClassifierClaims.
Import JS TransactionProcessor.

(** C6, as amended. A transaction without call data and with a positive
    value is classified [bnb_transfer]; its native change is ["-" ++ v] for
    the sender, with [v] the value printed with 18 decimals, and [v] for the
    recipient when the transaction has one (["0"] when it has none). With
    value zero the classification is [contract_call]. *)
Theorem classify_no_data (L : ledger) (t : transaction) (r : option receipt) :
  tx_data t = "0x" ->
  exists d, classify L t r = Some d /\
    (0 < tx_value t ->
       d_transactionType d = bnb_transfer /\
       bnb_from (d_bnbChange d) = "-" +:+ formatEther (tx_value t) /\
       (present (tx_to t) = true ->
          bnb_to (d_bnbChange d) = formatEther (tx_value t) /\
          bnb_from (d_bnbChange d) = "-" +:+ bnb_to (d_bnbChange d)) /\
       (present (tx_to t) = false -> bnb_to (d_bnbChange d) = "0")) /\
    (tx_value t = 0 -> d_transactionType d = contract_call).
Proof.
  intros Hd. destruct (parseTransaction_no_data L t r Hd) as (p & Hp & Hty & Hbnb).
  exists (formatOutput p). unfold classify. rewrite Hp. split; [reflexivity|].
  simpl. rewrite Hty, Hbnb. split.
  - intros Hv. apply Z.ltb_lt in Hv. rewrite Hv. simpl.
    split; [reflexivity|]. split; [reflexivity|].
    split; intros ->; [split|]; reflexivity.
  - intros ->. reflexivity.
Qed.


Lemma classify_no_data_witness :
  exists d,
    classify silent_ledger
      plain_transfer None = Some d /\
    d_transactionType d = bnb_transfer /\
    bnb_from (d_bnbChange d) = "-1.5" /\ bnb_to (d_bnbChange d) = "1.5".
Proof.
  destruct (classify_no_data silent_ledger
      plain_transfer None eq_refl)
    as (d & Hd & Hpos & _).
  exists d. split; [exact Hd|].
  destruct (Hpos ltac:(simpl; lia)) as (Hty & Hfrom & Hto & _).
  split; [exact Hty|]. split; [exact Hfrom|]. exact (proj1 (Hto eq_refl)).
Defined.

(** C6 as stated fails on a contract creation without call data: the value
    leaves the sender and no recipient is credited. *)
Lemma native_change_not_negated :
  ~ (forall (L : ledger) (t : transaction) (r : option receipt) (d : delta),
       tx_data t = "0x" -> 0 < tx_value t -> classify L t r = Some d ->
       d_transactionType d = bnb_transfer /\
       bnb_from (d_bnbChange d) = "-" +:+ bnb_to (d_bnbChange d)).
Proof.
  intros H.
  specialize (H silent_ledger
    funded_creation None _ eq_refl
    ltac:(simpl; lia) eq_refl).
  destruct H as [_ H]. vm_compute in H. discriminate H.
Qed.

End ClassifierClaims.

(** ** The activity analysis *)

Section AnalyzerFacts.
Import JS TransactionProcessor MessageTemplates.

Lemma analyze_change_activity (txFrom : string) (a : analysis) (c : erc20_change) :
  hasActivity (analyze_change txFrom a c) = hasActivity a.
Proof.
  unfold analyze_change.
  destruct (String.eqb _ txFrom); destruct (String.eqb _ txFrom); reflexivity.
Qed.

Lemma fold_analyze_change_activity (txFrom : string) (cs : list erc20_change) (a : analysis) :
  hasActivity (fold_left (analyze_change txFrom) cs a) = hasActivity a.
Proof.
  revert a. induction cs as [|c cs IH]; intros a; simpl; [reflexivity|].
  now rewrite IH, analyze_change_activity.
Qed.

(** C2, as amended. When [analyzeTransaction] returns, [hasActivity] holds
    exactly when the sender is tracked and the delta moves something, and it
    holds whenever [sent] or [received] has an entry. *)
Theorem analyzeTransaction_hasActivity (tx : delta) (monitoredAddresses : gset string)
    (addressNames : gmap string string) (a : analysis) :
  analyzeTransaction tx monitoredAddresses addressNames = Returned a ->
  (hasActivity a = true <->
     toLowerCase (d_from tx) ∈ monitoredAddresses /\ moves tx = true) /\
  (sent a <> [] \/ received a <> [] -> hasActivity a = true).
Proof.
  unfold analyzeTransaction, moves, obind.
  set (bf := negb (String.eqb (bnb_from (d_bnbChange tx)) "0")).
  set (bt := negb (String.eqb (bnb_to (d_bnbChange tx)) "0")).
  set (tk := (0 <? length (d_erc20Changes tx))%nat).
  destruct (decide (toLowerCase (d_from tx) ∈ monitoredAddresses)) as [Hin|Hout].
  - rewrite !(bool_decide_eq_true_2 _ Hin).
    destruct (bf || bt) eqn:Eb.
    + destruct (d_to tx) as [to|]; [|discriminate].
      destruct bf, tk; intros [= <-]; rewrite ?fold_analyze_change_activity; simpl;
        (split; [split; [intros _; split; [exact Hin|reflexivity] | reflexivity] | reflexivity]).
    + destruct tk; intros [= <-]; rewrite ?fold_analyze_change_activity; simpl.
      * split; [split; [intros _; split; [exact Hin|reflexivity] | reflexivity] | reflexivity].
      * split; [split; [discriminate | intros [_ H]; discriminate H] |].
        intros [H|H]; contradiction.
  - rewrite !(bool_decide_eq_false_2 _ Hout).
    assert (Hno : forall x : analysis, x = {| hasActivity := false;
              walletName :=
                str_or (default "" (addressNames !! toLowerCase (d_from tx))) "Unknown";
              walletAddress := d_from tx; received := []; sent := [] |} ->
              (hasActivity x = true <-> toLowerCase (d_from tx) ∈ monitoredAddresses /\
                 bf || bt || tk = true) /\
              (sent x <> [] \/ received x <> [] -> hasActivity x = true)).
    { intros x ->. simpl. split; [split; [discriminate | intros [H _]; contradiction]|].
      intros [H|H]; contradiction. }
    destruct (bf || bt) eqn:Eb.
    + destruct (d_to tx) as [to|]; [|discriminate].
      destruct tk; intros [= <-]; apply Hno; reflexivity.
    + destruct tk; intros [= <-]; apply Hno; reflexivity.
Qed.

Lemma third_party_analyzed :
  analyzeTransaction third_party_transfer {["0xaa"]} ∅ = Returned third_party_analysis.
Proof. vm_compute. reflexivity. Qed.

Lemma analyzeTransaction_hasActivity_witness :
  analyzeTransaction third_party_transfer {["0xaa"]} ∅ = Returned third_party_analysis /\
  hasActivity third_party_analysis = true.
Proof.
  split; [exact third_party_analyzed|].
  destruct (analyzeTransaction_hasActivity third_party_transfer {["0xaa"]} ∅ _
              third_party_analyzed) as [[_ Hact] _].
  apply Hact. split; [set_solver | reflexivity].
Defined.

(** C2 as stated fails: the analysis of [third_party_transfer] reports
    activity and has no entry. *)
Lemma hasActivity_without_entries :
  ~ (forall tx monitoredAddresses addressNames a,
       analyzeTransaction tx monitoredAddresses addressNames = Returned a ->
       (hasActivity a = true <-> sent a <> [] \/ received a <> [])).
Proof.
  intros H.
  destruct (H third_party_transfer {["0xaa"]} ∅ _ third_party_analyzed) as [H1 _].
  destruct (H1 eq_refl) as [Hs|Hr]; [apply Hs|apply Hr]; reflexivity.
Qed.

End AnalyzerFacts.

(** ** The range scanner *)

Section ScannerFacts.
Import JS TransactionProcessor BlockScanner.

Variable L : ledger.
Variable watched : gset string.
Variable cfg : BlockScanner.config.

Lemma collect_settled (batch : list Z) :
  collect (map (fun b => settle (processBlock L watched cfg b)) batch)
  = flat_map (contribution L watched cfg) batch.
Proof.
  induction batch as [|b rest IH]; simpl; [reflexivity|].
  unfold contribution at 1.
  destruct (processBlock L watched cfg b) as [value|e]; simpl; [|exact IH].
  destruct value as [|x value]; simpl; now rewrite IH.
Qed.

Lemma scan_waves_flat_map (fuel concurrency : nat) (remaining : list Z) :
  (0 < concurrency)%nat -> (length remaining <= fuel)%nat ->
  scan_waves L watched cfg fuel concurrency remaining = flat_map (contribution L watched cfg) remaining.
Proof.
  intros Hc. revert remaining.
  induction fuel as [|fuel IH]; intros remaining Hlen.
  - destruct remaining; [reflexivity|simpl in Hlen; lia].
  - destruct remaining as [|b rest]; [reflexivity|].
    cbn [scan_waves]. rewrite collect_settled, IH.
    + rewrite <- flat_map_app, take_drop. reflexivity.
    + rewrite length_drop. simpl in *. lia.
Qed.

Lemma getBlockTransactions_failed (b : Z) (e : exn) :
  provider_getBlock L b = Thrown e -> getBlockTransactions L b = [].
Proof. intros H. unfold getBlockTransactions. now rewrite H. Qed.

Lemma processBlock_failed (b : Z) (e : exn) :
  provider_getBlock L b = Thrown e -> processBlock L watched cfg b = Returned [].
Proof.
  intros H. unfold processBlock. rewrite (getBlockTransactions_failed b e H). reflexivity.
Qed.

Lemma processBlock_returns (b : Z) :
  exists deltas, processBlock L watched cfg b = Returned deltas.
Proof.
  unfold processBlock.
  destruct (length _ =? 0)%nat; [eauto|].
  destruct (confirmed _ _) as [vt vr].
  destruct (length vt =? 0)%nat; eauto.
Qed.

(** C8. A parallel scan always returns. Its result is, block after block in
    ascending order, what [processBlock] returned for the block, and a block
    whose fetch failed contributes nothing. *)
Theorem scanBlockRangeParallel_isolates (startBlock endBlock : Z) :
  scanBlockRangeParallel L watched cfg startBlock endBlock
    = Returned (flat_map (contribution L watched cfg)
                  (blockNumbers startBlock (endBlock - startBlock + 1))) /\
  (forall b, exists deltas,
      processBlock L watched cfg b = Returned deltas /\ contribution L watched cfg b = deltas) /\
  (forall b e, provider_getBlock L b = Thrown e -> contribution L watched cfg b = []).
Proof.
  split; [|split].
  - unfold scanBlockRangeParallel. f_equal.
    destruct (Z.le_gt_cases (endBlock - startBlock + 1) 0) as [Hle|Hgt].
    + unfold blockNumbers. replace (Z.to_nat (endBlock - startBlock + 1)) with 0%nat by lia.
      reflexivity.
    + apply scan_waves_flat_map; lia.
  - intros b. destruct (processBlock_returns b) as [deltas H].
    exists deltas. unfold contribution. now rewrite H.
  - intros b e H. unfold contribution. now rewrite (processBlock_failed b e H).
Qed.

End ScannerFacts.

Section ScannerScenario.
Import JS TransactionProcessor BlockScanner.

Lemma scanBlockRangeParallel_isolates_witness :
  exists deltas,
    scanBlockRangeParallel five_blocks {["0xaa"]} scan_config 1 5 = Returned deltas /\
    map d_blockNumber deltas = [1; 2; 4; 5] /\
    contribution five_blocks {["0xaa"]} scan_config 3 = [].
Proof.
  destruct (scanBlockRangeParallel_isolates five_blocks {["0xaa"]} scan_config 1 5)
    as (Hscan & _ & Hfail).
  eexists. split; [exact Hscan|]. split.
  - vm_compute. reflexivity.
  - apply (Hfail 3 (RpcError "timeout")). reflexivity.
Defined.

End ScannerScenario.

(** ** The delivery queue *)

Section QueueFacts.
Import MessageTemplates TgBot.

Variable sink : message -> send_result.

Lemma sendMessageWithRetry_throttled (now : Z) (x : message) (s : state) (ra : option Z) :
  sink x = TooManyRequests ra ->
  let s' := sendMessageWithRetry sink now x s in
  calls s' = calls s ++ [(x, TooManyRequests ra)] /\
  rateLimitUntil s' = now + default 2 ra * 1000 /\
  (if default 0 (retryCount x) <? maxRetries then
     messageQueue s' = with_retryCount x (default 0 (retryCount x) + 1) :: messageQueue s /\
     console s' = console s ++ [WarnRateLimited (default 2 ra)]
   else
     messageQueue s' = messageQueue s /\
     console s' = console s ++ [WarnRateLimited (default 2 ra); ErrorMaxRetries]).
Proof.
  intros Hx. unfold sendMessageWithRetry. rewrite Hx.
  destruct (default 0 (retryCount x) <? maxRetries); simpl; auto.
Qed.

Lemma sendMessageWithRetry_sent (now : Z) (x : message) (s : state) :
  sink x = SendOk ->
  let s' := sendMessageWithRetry sink now x s in
  calls s' = calls s ++ [(x, SendOk)] /\
  messageQueue s' = messageQueue s /\ console s' = console s.
Proof. intros Hx. unfold sendMessageWithRetry. rewrite Hx. simpl. auto. Qed.

Hypothesis always_throttled : forall x, exists ra, sink x = TooManyRequests ra.

Lemma processQueue_throttled (m : message) (k : nat) (limit now : Z) :
  retryCount m = None ->
  (k <= 4)%nat ->
  processQueue sink now (throttled sink m k limit) =
  if (now <? limit) || (4 <=? k)%nat then throttled sink m k limit
  else throttled sink m (S k) (now + retry_seconds (sink (attempt m k)) * 1000).
Proof.
  intros Hm Hk.
  destruct (now <? limit) eqn:Hlim.
  { unfold processQueue. simpl rateLimitUntil. rewrite Hlim.
    destruct (_ || _); reflexivity. }
  destruct m as [c b th dp rc]. simpl in Hm. subst rc.
  rewrite orb_false_l.
  assert (Hcases : (k = 0 \/ k = 1 \/ k = 2 \/ k = 3 \/ k = 4)%nat) by lia.
  destruct Hcases as [->|[->|[->|[->| ->]]]]; [| | | |reflexivity];
    match goal with |- context [throttled sink ?m ?k limit] =>
      destruct (always_throttled (attempt m k)) as [ra Hra] end;
    unfold processQueue, throttled, sendMessageWithRetry;
    cbn in Hra |- *; rewrite Hlim; cbn; rewrite !Hra; reflexivity.
Qed.

Lemma run_throttled (m : message) (times : list Z) (k : nat) (limit : Z) :
  retryCount m = None -> (k <= 4)%nat ->
  exists k' limit', (k <= k' <= 4)%nat /\
    run sink times (throttled sink m k limit) = throttled sink m k' limit'.
Proof.
  intros Hm. revert k limit.
  induction times as [|t rest IH]; intros k limit Hk; simpl.
  - exists k, limit. split; [lia|reflexivity].
  - rewrite processQueue_throttled by assumption.
    destruct ((t <? limit) || (4 <=? k)%nat) eqn:Hc.
    + apply IH. exact Hk.
    + apply orb_false_iff in Hc as [_ Hc]. apply Nat.leb_gt in Hc.
      destruct (IH (S k) (t + retry_seconds (sink (attempt m k)) * 1000)) as (k' & l' & Hk' & Hrun);
        [lia|].
      exists k', l'. split; [lia|exact Hrun].
Qed.

Lemma run_paced (m : message) (times : list Z) (k : nat) (limit : Z) :
  retryCount m = None -> (k <= 4)%nat ->
  paced sink times (throttled sink m k limit) ->
  exists limit',
    run sink times (throttled sink m k limit)
      = throttled sink m (Nat.min 4 (k + length times)) limit'.
Proof.
  intros Hm. revert k limit.
  induction times as [|t rest IH]; intros k limit Hk Hp; cbn [run length].
  - exists limit. replace (Nat.min 4 (k + 0)) with k by lia. reflexivity.
  - destruct Hp as [Ht Hp]. simpl in Ht.
    rewrite processQueue_throttled in Hp |- * by assumption.
    replace (t <? limit) with false in Hp |- * by (symmetry; apply Z.ltb_ge; exact Ht).
    rewrite orb_false_l in Hp |- *.
    destruct (4 <=? k)%nat eqn:Hc.
    + apply Nat.leb_le in Hc. destruct (IH k limit Hk Hp) as [l' Hrun].
      exists l'. rewrite Hrun.
      replace (Nat.min 4 (k + S (length rest))) with (Nat.min 4 (k + length rest)) by lia.
      reflexivity.
    + apply Nat.leb_gt in Hc.
      destruct (IH (S k) _ ltac:(lia) Hp) as [l' Hrun].
      exists l'. rewrite Hrun.
      replace (Nat.min 4 (k + S (length rest))) with (Nat.min 4 (S k + length rest)) by lia.
      reflexivity.
Qed.

Lemma throttled_observed (m : message) (k : nat) (limit : Z) :
  (k <= 4)%nat ->
  length (calls (throttled sink m k limit)) = k /\
  failures (console (throttled sink m k limit)) = (if (k =? 4)%nat then 1 else 0)%nat /\
  Forall (fun c => snd c <> SendOk) (calls (throttled sink m k limit)) /\
  (messageQueue (throttled sink m k limit) = [] <-> k = 4%nat) /\
  ((k < 4)%nat -> messageQueue (throttled sink m k limit) = [attempt m k]).
Proof.
  intros Hk. split; [|split; [|split; [|split]]].
  - simpl. now rewrite length_map, length_seq.
  - assert (Hcases : (k = 0 \/ k = 1 \/ k = 2 \/ k = 3 \/ k = 4)%nat) by lia.
    destruct Hcases as [->|[->|[->|[->| ->]]]]; reflexivity.
  - simpl. apply Forall_forall. intros [x r] Hin.
    apply list_elem_of_fmap in Hin as (i & [= -> ->] & _). simpl.
    destruct (always_throttled (attempt m i)) as [ra ->]. discriminate.
  - simpl. destruct (k <? 4)%nat eqn:E.
    + apply Nat.ltb_lt in E. split; [discriminate|lia].
    + apply Nat.ltb_ge in E. split; [lia|reflexivity].
  - intros Hlt. simpl. apply Nat.ltb_lt in Hlt. now rewrite Hlt.
Qed.

End QueueFacts.

Section QueueClaims.
Import MessageTemplates TgBot.

Lemma run_idle (sink : message -> send_result) (times : list Z) (s : state) :
  messageQueue s = [] -> run sink times s = s.
Proof.
  intros Hq. induction times as [|t rest IH]; simpl; [reflexivity|].
  unfold processQueue at 1. rewrite Hq. simpl. rewrite orb_true_r. exact IH.
Qed.

(** One alert alone in the queue of an idle dispatcher, tick by tick.
    Under a sink that throttles every attempt, whatever the ticks, the alert
    is sent at most [1 + maxRetries] times and reported at most once; when
    the ticks respect the throttle, the alert is in the queue with counter
    [k] after [k < 4] ticks and gone after four. Under a sink that accepts
    the alert, the first tick sends it, and it is never sent again. *)
Lemma lone_alert_retries (sink : message -> send_result)
    (chat : string) (msg : html) (thread : option string) :
  let m := fresh chat msg thread in
  let s0 := sendHtml chat msg thread initial in
  ((forall x, exists ra, sink x = TooManyRequests ra) ->
   (forall now x s,
      let s' := sendMessageWithRetry sink now x s in
      if default 0 (retryCount x) <? maxRetries then
        messageQueue s' = with_retryCount x (default 0 (retryCount x) + 1) :: messageQueue s /\
        failures (console s') = failures (console s)
      else
        messageQueue s' = messageQueue s /\
        failures (console s') = S (failures (console s))) /\
   (forall times,
      let s := run sink times s0 in
      Z.of_nat (length (calls s)) <= 1 + maxRetries /\
      (failures (console s) <= 1)%nat /\
      Forall (fun c => snd c <> SendOk) (calls s) /\
      (messageQueue s = [] ->
         Z.of_nat (length (calls s)) = 1 + maxRetries /\ failures (console s) = 1%nat)) /\
   (forall times,
      paced sink times s0 ->
      let s := run sink times s0 in
      ((length times < 4)%nat -> messageQueue s = [attempt m (length times)]) /\
      ((4 <= length times)%nat -> messageQueue s = []))) /\
  (sink m = SendOk ->
   forall t times, 0 <= t ->
     let s := run sink (t :: times) s0 in
     calls s = [(m, SendOk)] /\ messageQueue s = [] /\ console s = []).
Proof.
  intros m s0.
  assert (Hs0 : s0 = throttled sink m 0 0) by reflexivity.
  assert (Hm : retryCount m = None) by reflexivity.
  split.
  - intros Hthr. split; [|split].
    + intros now x s s'. destruct (Hthr x) as [ra Hra].
      destruct (sendMessageWithRetry_throttled sink now x s ra Hra) as (_ & _ & H).
      fold s' in H. destruct (default 0 (retryCount x) <? maxRetries);
        destruct H as [-> ->]; (split; [reflexivity|]).
      * clear. induction (console s) as [|[] l IH]; simpl; auto.
      * clear. induction (console s) as [|[] l IH]; simpl; auto.
    + intros times s. subst s. rewrite Hs0.
      destruct (run_throttled sink Hthr m times 0 0 Hm ltac:(lia)) as (k & l & Hk & ->).
      destruct (throttled_observed sink Hthr m k l ltac:(lia)) as (Hc & Hf & Hok & Hq & _).
      rewrite Hc, Hf. unfold maxRetries.
      split; [lia|]. split; [destruct (k =? 4)%nat; lia|]. split; [exact Hok|].
      intros He. apply Hq in He. subst k. split; reflexivity.
    + intros times Hp s. subst s. rewrite Hs0 in Hp |- *.
      destruct (run_paced sink Hthr m times 0 0 Hm ltac:(lia) Hp) as (l & ->).
      simpl "+"%nat.
      destruct (throttled_observed sink Hthr m (Nat.min 4 (length times)) l ltac:(lia))
        as (_ & _ & _ & Hq & Hlt).
      split.
      * intros H.
        replace (Nat.min 4 (length times)) with (length times) in Hlt |- * by lia.
        apply Hlt. exact H.
      * intros H. apply Hq. lia.
  - intros Hok t times Ht s. subst s. simpl run.
    assert (H1 : processQueue sink t s0 =
                 {| messageQueue := []; isProcessing := false; rateLimitUntil := 0;
                    bot_retryCount := 0; calls := [(m, SendOk)]; console := [] |}).
    { unfold processQueue, s0, sendHtml, queueMessage, initial. simpl.
      replace (t <? 0) with false by (symmetry; apply Z.ltb_ge; exact Ht).
      unfold sendMessageWithRetry. unfold m, fresh in Hok |- *. rewrite Hok. reflexivity. }
    rewrite H1, run_idle by reflexivity. auto.
Qed.

Lemma lone_alert_retries_run :
  let m := fresh "-100" (newWallet "0xcc" "Alice" "0xaa" "Alice") None in
  let s0 := sendHtml "-100" (newWallet "0xcc" "Alice" "0xaa" "Alice") None initial in
  (messageQueue (run always_429 [0; 2000; 4000] s0) = [with_retryCount m 3] /\
   messageQueue (run always_429 [0; 2000; 4000; 6000] s0) = [] /\
   failures (console (run always_429 [0; 2000; 4000; 6000] s0)) = 1%nat /\
   length (calls (run always_429 [0; 2000; 4000; 6000] s0)) = 4%nat) /\
  calls (run always_ok [0; 200; 400] s0) = [(m, SendOk)].
Proof.
  intros m s0.
  destruct (lone_alert_retries always_429 "-100" (newWallet "0xcc" "Alice" "0xaa" "Alice") None)
    as [Hthr _].
  destruct (lone_alert_retries always_ok "-100" (newWallet "0xcc" "Alice" "0xaa" "Alice") None)
    as [_ Hok].
  specialize (Hthr (fun x => ex_intro _ (Some 2) eq_refl)) as (_ & Hany & Hpaced).
  split.
  - split; [|split; [|split]].
    + apply (Hpaced [0; 2000; 4000]); simpl; lia.
    + apply (Hpaced [0; 2000; 4000; 6000]); simpl; lia.
    + apply (Hany [0; 2000; 4000; 6000]). apply (Hpaced [0; 2000; 4000; 6000]); simpl; lia.
    + reflexivity.
  - apply (Hok eq_refl 0 [200; 400]). lia.
Qed.

End QueueClaims.

(** ** A decimal string against a BigInt *)

Section DotFacts.
Import JS.

Lemma has_dot_append (a b : string) : has_dot (a +:+ b) = has_dot a || has_dot b.
Proof.
  induction a as [|c a IH]; simpl; [reflexivity|].
  now rewrite IH, orb_assoc.
Qed.

Lemma formatUnits_has_dot (value : Z) (decimals : nat) :
  has_dot (formatUnits value (S decimals)) = true.
Proof.
  unfold formatUnits. rewrite !has_dot_append.
  change (has_dot ".") with true. now rewrite orb_true_l, !orb_true_r.
Qed.

Lemma formatEther_has_dot (value : Z) : has_dot (formatEther value) = true.
Proof. apply formatUnits_has_dot. Qed.

Lemma dot_not_space (c : ascii) : Ascii.eqb c "." = true -> is_space c = false.
Proof. intros H. apply Ascii.eqb_eq in H. subst c. reflexivity. Qed.

Lemma skip_spaces_has_dot (s : string) :
  has_dot s = true -> has_dot (skip_spaces s) = true.
Proof.
  induction s as [|c r IH]; simpl; [discriminate|].
  intros H. destruct (is_space c) eqn:Hsp.
  - apply IH. destruct (Ascii.eqb c ".") eqn:Hc; [|exact H].
    apply dot_not_space in Hc. congruence.
  - exact H.
Qed.

Lemma trim_end_has_dot (s : string) :
  has_dot s = true -> has_dot (trim_end s) = true.
Proof.
  induction s as [|c r IH]; simpl; [discriminate|].
  intros H. destruct (Ascii.eqb c ".") eqn:Hc.
  - rewrite (dot_not_space c Hc). simpl. now rewrite Hc.
  - simpl in H. specialize (IH H).
    destruct (is_space c && String.eqb (trim_end r) "") eqn:E.
    + apply andb_true_iff in E as [_ E]. apply String.eqb_eq in E.
      rewrite E in IH. discriminate.
    + simpl. now rewrite Hc.
Qed.

Lemma parse_digits_dot (radix acc : N) (s : string) :
  has_dot s = true -> parse_digits radix acc s = None.
Proof.
  revert acc. induction s as [|c r IH]; intros acc; simpl; [discriminate|].
  intros H. destruct (Ascii.eqb c ".") eqn:Hc.
  - apply Ascii.eqb_eq in Hc. subst c. reflexivity.
  - simpl in H. destruct (digit_value c); [|reflexivity].
    destruct (_ <? _)%N; [apply IH; exact H|reflexivity].
Qed.

Lemma parse_literal_dot (radix : N) (s : string) :
  has_dot s = true -> parse_literal radix s = None.
Proof.
  intros H. unfold parse_literal. destruct s; [discriminate|].
  now rewrite parse_digits_dot.
Qed.

(** A string with a decimal point is no BigInt literal. *)
Lemma StringToBigInt_dot (s : string) :
  has_dot s = true -> StringToBigInt s = None.
Proof.
  intros H. unfold StringToBigInt.
  apply skip_spaces_has_dot, trim_end_has_dot in H.
  destruct (trim_end (skip_spaces s)) as [|c r]; [discriminate|].
  destruct (Ascii.eqb c ".") eqn:Hc.
  { apply Ascii.eqb_eq in Hc. subst c. now apply parse_literal_dot. }
  simpl in H. rewrite Hc in H. simpl in H.
  assert (Hdef : parse_literal 10 (String c r) = None).
  { apply parse_literal_dot. simpl. now rewrite Hc. }
  assert (Hr : forall radix, parse_literal radix r = None)
    by (intros; now apply parse_literal_dot).
  destruct c as [[] [] [] [] [] [] [] []]; try exact Hdef;
    rewrite ?Hr; try reflexivity.
  destruct r as [|c2 r2]; [exact Hdef|].
  destruct (Ascii.eqb c2 ".") eqn:Hc2.
  { apply Ascii.eqb_eq in Hc2. subst c2. exact Hdef. }
  simpl in H. rewrite Hc2 in H. simpl in H.
  assert (Hr2 : forall radix, parse_literal radix r2 = None)
    by (intros; now apply parse_literal_dot).
  destruct c2 as [[] [] [] [] [] [] [] []]; try exact Hdef; rewrite ?Hr2; reflexivity.
Qed.

(** The comparison [formatEther(v) >= n] with a BigInt [n] is [false]. *)
Lemma formatEther_ge_bigint (value n : Z) : str_ge_bigint (formatEther value) n = false.
Proof.
  unfold str_ge_bigint. now rewrite StringToBigInt_dot by apply formatEther_has_dot.
Qed.

End DotFacts.

(** ** The monitor *)

Section ClassifierChange.
Import JS TransactionProcessor.

Lemma analyzeERC20Events_to (L : ledger) (logs : list log_entry) (result : parsed) :
  p_to (analyzeERC20Events L logs result) = p_to result.
Proof.
  revert result. induction logs as [|lg rest IH]; intros result; simpl; [reflexivity|].
  rewrite IH. destruct (bool_decide _); [|reflexivity].
  destruct (parseTransferEvent L lg); reflexivity.
Qed.

Lemma analyzeTransactionType_change (t : transaction) (result : parsed) :
  p_bnbChange (analyzeTransactionType t result) = p_bnbChange result.
Proof.
  unfold analyzeTransactionType.
  repeat match goal with |- context [if ?b then _ else _] => destruct b end; reflexivity.
Qed.

(** The native change of every parsed transaction. *)
Lemma parseTransaction_change (L : ledger) (t : transaction) (r : option receipt)
    (p : parsed) :
  parseTransaction L t r = Some p ->
  p_bnbChange p =
    (if 0 <? tx_value t then
       {| bnb_from := "-" +:+ formatEther (tx_value t);
          bnb_to := if present (tx_to t) then formatEther (tx_value t) else "0" |}
     else {| bnb_from := "0"; bnb_to := "0" |}).
Proof.
  unfold parseTransaction. intros [= <-].
  assert (Hlogs : forall x,
    p_bnbChange (match r with
                 | Some {| r_logs := Some logs |} => analyzeERC20Events L logs x
                 | _ => x end) = p_bnbChange x).
  { intros x. destruct r as [[[logs|]]|]; try reflexivity.
    apply analyzeERC20Events_keeps. }
  rewrite Hlogs, analyzeTransactionType_change, analyzeBNBChange_change.
  destruct (tx_to t) as [a|]; [destruct (present (Some a))|]; reflexivity.
Qed.

Lemma parseTransaction_to (L : ledger) (t : transaction) (r : option receipt)
    (p : parsed) :
  parseTransaction L t r = Some p -> p_to p = tx_to t.
Proof.
  unfold parseTransaction. intros [= <-].
  assert (Hlogs : forall x,
    p_to (match r with
          | Some {| r_logs := Some logs |} => analyzeERC20Events L logs x
          | _ => x end) = p_to x).
  { intros x. destruct r as [[[logs|]]|]; try reflexivity.
    apply analyzeERC20Events_to. }
  rewrite Hlogs.
  assert (Hty : forall x, p_to (analyzeTransactionType t x) = p_to x).
  { intros x. unfold analyzeTransactionType.
    repeat match goal with |- context [if ?b then _ else _] => destruct b end; reflexivity. }
  assert (Hbnb : forall x, p_to (analyzeBNBChange t x) = p_to x).
  { intros x. unfold analyzeBNBChange. destruct (0 <? tx_value t); reflexivity. }
  rewrite Hty, Hbnb.
  destruct (tx_to t) as [a|]; [destruct (present (Some a))|]; reflexivity.
Qed.

End ClassifierChange.

Section MonitorFacts.
Import JS TransactionProcessor MessageTemplates WalletMonitor.

Variable cfg : WalletMonitor.config.
Variable W : world.

(** C5: the code against the claim. On the delta of a transaction the
    native-only check never enrolls: it leaves the monitor as it found it.
    For a positive value sent to a recipient the amount credited is printed
    by [formatEther], and the comparison of that string with the BigInt
    minimum is [false], whatever the minimum, the recipient and its code. *)
Theorem checkNewWalletFromBNB_never_enrolls (L : ledger) (t : transaction)
    (r : option receipt) (d : delta) (m : monitor) :
  classify L t r = Some d ->
  tx_to t <> Some "" ->
  snd (checkNewWalletFromBNB cfg W d m) = m /\
  (0 < tx_value t -> present (tx_to t) = true ->
     str_ge_bigint (bnb_to (d_bnbChange d)) (cfg_minValue cfg) = false /\
     checkNewWalletFromBNB cfg W d m = (Returned tt, m)).
Proof.
  unfold classify. destruct (parseTransaction L t r) as [p|] eqn:Hp; [|discriminate].
  intros [= <-] Hto. pose proof (parseTransaction_change L t r p Hp) as Hch.
  pose proof (parseTransaction_to L t r p Hp) as Hpto.
  assert (Hrun : forall a, tx_to t = Some a ->
            checkNewWalletFromBNB cfg W (formatOutput p) m = (Returned tt, m)).
  { intros a Ha. unfold checkNewWalletFromBNB, bind, lower_to, get_state. simpl.
    rewrite Hpto, Ha. simpl.
    destruct (negb (bool_decide _)); [|reflexivity].
    rewrite Hch. destruct (0 <? tx_value t); simpl; [|reflexivity].
    assert (Hpres : present (tx_to t) = true).
    { rewrite Ha. simpl. destruct (String.eqb_spec a ""); [congruence|reflexivity]. }
    rewrite Hpres. simpl.
    rewrite formatEther_ge_bigint, !andb_false_r. reflexivity. }
  split.
  - destruct (tx_to t) as [a|] eqn:Ha.
    + now rewrite (Hrun a eq_refl).
    + unfold checkNewWalletFromBNB, bind, lower_to. simpl. now rewrite Hpto.
  - intros Hv Hpres. split.
    + simpl. rewrite Hch. apply Z.ltb_lt in Hv. rewrite Hv, Hpres. simpl.
      apply formatEther_ge_bigint.
    + destruct (tx_to t) as [a|] eqn:Ha; [|discriminate]. now apply (Hrun a).
Qed.

(** C1: the code against the claim. For a candidate that is not stored and
    not exchange-custodied, [addNewWallet] returns, adds the wallet to the
    caches, queues exactly one new-wallet alert, and leaves Redis as it was:
    [existsWallet] still answers [false] afterwards. *)
Theorem addNewWallet_not_persisted (walletAddress fromAddress : string) (m : monitor) :
  RefRedis.existsWallet (cfg_redisPrefix cfg) walletAddress (redis m)
    = (Returned false, redis m) ->
  w_isCex W walletAddress = Returned false ->
  let fromName := str_or (default "" (addressNames m !! fromAddress)) "Unknown" in
  exists m',
    addNewWallet cfg W walletAddress fromAddress m = (Returned tt, m') /\
    redis m' = redis m /\
    RefRedis.existsWallet (cfg_redisPrefix cfg) walletAddress (redis m')
      = (Returned false, redis m') /\
    walletAddress ∈ monitoredAddresses m' /\
    TgBot.messageQueue (bot m') =
      TgBot.messageQueue (bot m) ++
        [fresh (cfg_chatId cfg) (newWallet walletAddress fromName fromAddress fromName)
               (cfg_threadId cfg)] /\
    newWalletsAdded (mstats m') = newWalletsAdded (mstats m) + 1.
Proof.
  intros Hex Hcex fromName.
  unfold addNewWallet, try_catch, bind, on_redis, get_state, await, modify, bot_sendHtml, ret.
  rewrite Hex. simpl. rewrite Hcex. simpl.
  eexists. split; [reflexivity|]. simpl.
  split; [reflexivity|]. split; [exact Hex|]. split; [set_solver|].
  split; reflexivity.
Qed.

End MonitorFacts.

(** ** The check point *)

Section CheckpointFacts.
Import JS TransactionProcessor MessageTemplates WalletMonitor.

Variable cfg : WalletMonitor.config.
Variable W : world.

Lemma keeps_ret {A} (a : A) : keeps (ret a).
Proof. intros m. split; reflexivity. Qed.

Lemma keeps_throw {A} (e : exn) : keeps (@throw monitor A e).
Proof. intros m. split; reflexivity. Qed.

Lemma keeps_get_state : keeps (@get_state monitor).
Proof. intros m. split; reflexivity. Qed.

Lemma keeps_await {A} (r : outcome A) : keeps (await r).
Proof. intros m. split; reflexivity. Qed.

Lemma keeps_on_redis {A} (c : Eff RefRedis.db A) : keeps (on_redis c).
Proof. intros m. unfold on_redis. destruct (c (redis m)). split; reflexivity. Qed.

Lemma keeps_modify (f : monitor -> monitor) :
  (forall m, lastProcessedBlock (f m) = lastProcessedBlock m /\ events (f m) = events m) ->
  keeps (modify f).
Proof. intros Hf m. apply Hf. Qed.

Lemma keeps_bind {A B} (c : Eff monitor A) (k : A -> Eff monitor B) :
  keeps c -> (forall a, keeps (k a)) -> keeps (bind c k).
Proof.
  intros Hc Hk m. unfold bind. specialize (Hc m).
  destruct (c m) as [[a|e] m1]; simpl in *.
  - destruct (Hk a m1) as [H1 H2]. destruct Hc as [Hc1 Hc2]. split; congruence.
  - exact Hc.
Qed.

Lemma keeps_try_catch {A} (c : Eff monitor A) (h : exn -> Eff monitor A) :
  keeps c -> (forall e, keeps (h e)) -> keeps (try_catch c h).
Proof.
  intros Hc Hh m. unfold try_catch. specialize (Hc m).
  destruct (c m) as [[a|e] m1]; simpl in *.
  - exact Hc.
  - destruct (Hh e m1) as [H1 H2]. destruct Hc as [Hc1 Hc2]. split; congruence.
Qed.

Lemma keeps_for_each {A} (f : A -> Eff monitor unit) (l : list A) :
  (forall x, keeps (f x)) -> keeps (for_each f l).
Proof.
  intros Hf. induction l as [|x rest IH]; simpl.
  - apply keeps_ret.
  - apply keeps_bind; [apply Hf|intros _; exact IH].
Qed.

Lemma keeps_bot_sendHtml (msg : html) : keeps (bot_sendHtml cfg msg).
Proof. apply keeps_modify. intros m. split; reflexivity. Qed.

Lemma keeps_addNewWallet (w from : string) : keeps (addNewWallet cfg W w from).
Proof.
  unfold addNewWallet. apply keeps_try_catch; [|intros; apply keeps_ret].
  apply keeps_bind; [apply keeps_on_redis|]. intros ex.
  destruct (negb ex); [|apply keeps_ret].
  apply keeps_bind; [apply keeps_get_state|]. intros m0.
  apply keeps_bind; [apply keeps_await|]. intros cex.
  destruct cex; [apply keeps_ret|].
  repeat (apply keeps_bind; [|intros _]);
    try apply keeps_bot_sendHtml; apply keeps_modify; intros m; split; reflexivity.
Qed.

Lemma keeps_checkNewWallet (tx : delta) : keeps (checkNewWallet cfg W tx).
Proof.
  unfold checkNewWallet. apply keeps_try_catch; [|intros; apply keeps_ret].
  apply keeps_bind; [|intros _].
  - unfold checkNewWalletFromBNB, lower_to.
    apply keeps_bind; [destruct (d_to tx); [apply keeps_ret|apply keeps_throw]|].
    intros to. apply keeps_bind; [apply keeps_get_state|]. intros m0.
    repeat match goal with |- keeps (if ?b then _ else _) => destruct b end;
      try apply keeps_ret; apply keeps_addNewWallet.
  - unfold checkNewWalletFromERC20.
    repeat match goal with |- keeps (if ?b then _ else _) => destruct b end;
      try apply keeps_ret.
    apply keeps_for_each. intros c. unfold check_change.
    apply keeps_bind; [apply keeps_get_state|]. intros m0.
    repeat match goal with |- keeps (if ?b then _ else _) => destruct b end;
      try apply keeps_ret; apply keeps_addNewWallet.
Qed.

(** One result processed: the check point stays, one event is recorded. *)
Lemma process_one_events (tx : delta) (m : monitor) :
  exists m', process_one cfg W tx m = (Returned tt, m') /\
    lastProcessedBlock m' = lastProcessedBlock m /\
    events m' = events m ++ [Processed (d_hash tx)].
Proof.
  unfold process_one.
  set (body := try_catch _ _).
  assert (Hk : keeps body).
  { apply keeps_try_catch; [|intros; apply keeps_ret].
    apply keeps_bind; [apply keeps_get_state|]. intros m0.
    apply keeps_bind; [apply keeps_await|]. intros a.
    destruct (hasActivity a); [|apply keeps_ret].
    apply keeps_bind.
    - unfold sendTransactionNotification.
      apply keeps_bind; [apply keeps_bot_sendHtml|intros _].
      apply keeps_modify. intros m1. split; reflexivity.
    - intros _. destruct (cfg_enableNewWalletDetection cfg);
        [apply keeps_checkNewWallet|apply keeps_ret]. }
  assert (Hr : exists m1, body m = (Returned tt, m1)).
  { unfold body, try_catch.
    match goal with |- context [match ?c m with _ => _ end] =>
      destruct (c m) as [[[]|e] m1] end; eauto. }
  destruct Hr as [m1 Hm1]. specialize (Hk m). rewrite Hm1 in Hk. simpl in Hk.
  destruct Hk as [Hk1 Hk2].
  eexists. unfold bind. rewrite Hm1. split; [reflexivity|]. simpl.
  split; congruence.
Qed.

Lemma processTransactions_events (txs : list delta) (m : monitor) :
  exists m', processTransactions cfg W txs m = (Returned tt, m') /\
    lastProcessedBlock m' = lastProcessedBlock m /\
    events m' = events m ++ map (fun tx => Processed (d_hash tx)) txs.
Proof.
  revert m. induction txs as [|tx rest IH]; intros m.
  - exists m. simpl. rewrite app_nil_r. auto.
  - destruct (process_one_events tx m) as (m1 & H1 & Hl1 & He1).
    destruct (IH m1) as (m2 & H2 & Hl2 & He2).
    exists m2. unfold processTransactions in *. simpl. unfold bind at 1. rewrite H1.
    split; [exact H2|]. split; [congruence|].
    rewrite He2, He1, <- app_assoc. reflexivity.
Qed.

End CheckpointFacts.

Section CheckpointClaims.
Import JS TransactionProcessor MessageTemplates WalletMonitor.

Lemma batch_end_bounds (cfg : WalletMonitor.config) (last head : Z) :
  0 < cfg_batchSize cfg -> last < head ->
  last < batch_end cfg last head <= head.
Proof.
  intros Hb Hh. unfold batch_end.
  destruct (Z.ltb_spec 20 (head - last)); lia.
Qed.

(** What one call of [scanNewBlocks] does to the check point. *)
Lemma scanNewBlocks_tick (cfg : WalletMonitor.config) (W : world) (m : monitor) :
  exists m', scanNewBlocks cfg W m = (Returned tt, m') /\
    let head := getLatestBlockNumber W in
    let last := lastProcessedBlock m in
    if head <=? last then m' = m
    else exists results,
      BlockScanner.scanBlockRangeParallel (w_ledger W) (watchedAddresses m)
        {| BlockScanner.minValue := cfg_minValue cfg;
           BlockScanner.maxValue := 10000 * 10 ^ 18 |}
        (last + 1) (batch_end cfg last head) = Returned results /\
      lastProcessedBlock m' = batch_end cfg last head /\
      events m' = events m ++
        Scanned (last + 1) (batch_end cfg last head)
        :: map (fun tx => Processed (d_hash tx)) results
        ++ [CheckpointWritten (batch_end cfg last head)].
Proof.
  cbv zeta.
  destruct (getLatestBlockNumber W <=? lastProcessedBlock m) eqn:Hh.
  { exists m. split; [|reflexivity].
    unfold scanNewBlocks, try_catch, bind, get_state. rewrite Hh. reflexivity. }
  unfold scanNewBlocks, try_catch.
  unfold bind at 1. unfold get_state at 1. rewrite Hh.
  fold (batch_end cfg (lastProcessedBlock m) (getLatestBlockNumber W)).
  set (e := batch_end cfg (lastProcessedBlock m) (getLatestBlockNumber W)).
  unfold bind at 1. unfold await at 1.
  unfold BlockScanner.scanBlockRangeParallel at 1.
  match goal with |- context [BlockScanner.scan_waves ?a ?b ?c ?n ?k ?l] =>
    set (results := BlockScanner.scan_waves a b c n k l) end.
  unfold bind at 1. unfold modify at 1.
  set (m1 := log_event _ m).
  assert (Hproc : exists m2,
            (if (0 <? length results)%nat then processTransactions cfg W results else ret tt) m1
              = (Returned tt, m2) /\
            lastProcessedBlock m2 = lastProcessedBlock m1 /\
            events m2 = events m1 ++ map (fun tx => Processed (d_hash tx)) results).
  { destruct results as [|x rest] eqn:Hres.
    - exists m1. simpl. rewrite app_nil_r. auto.
    - apply processTransactions_events. }
  destruct Hproc as (m2 & Hrun & Hl2 & He2).
  unfold bind at 1. rewrite Hrun.
  eexists. split; [reflexivity|]. simpl. 
  exists results. split; [reflexivity|]. split; [reflexivity|].
  rewrite He2. unfold m1. simpl. rewrite <- !app_assoc. reflexivity.
Qed.


End CheckpointClaims.

(** ** The scenarios of the monitor *)

Section MonitorScenarios.
Import JS TransactionProcessor MessageTemplates WalletMonitor.

Lemma checkNewWalletFromBNB_never_enrolls_witness :
  exists d,
    classify silent_ledger plain_transfer None = Some d /\
    ("0xbb" ∉ monitoredAddresses one_wallet) /\
    isEOA silent_ledger "0xbb" = true /\
    d_erc20Changes d = [] /\
    bnb_to (d_bnbChange d) = "1.5" /\
    cfg_minValue default_config = 0 /\
    checkNewWalletFromBNB default_config (quiet_world silent_ledger 1) d one_wallet
      = (Returned tt, one_wallet).
Proof.
  eexists. split; [reflexivity|].
  split; [set_solver|]. split; [reflexivity|]. split; [reflexivity|].
  split; [reflexivity|]. split; [reflexivity|].
  apply (checkNewWalletFromBNB_never_enrolls default_config (quiet_world silent_ledger 1)
           silent_ledger plain_transfer None _ one_wallet eq_refl);
    [discriminate | simpl; lia | reflexivity].
Defined.

Lemma addNewWallet_not_persisted_witness :
  exists m',
    addNewWallet default_config (quiet_world silent_ledger 1) "0xbb" "0xaa" one_wallet
      = (Returned tt, m') /\
    RefRedis.existsWallet "wallet:" "0xbb" (redis m') = (Returned false, redis m') /\
    length (TgBot.messageQueue (bot m')) = 1%nat.
Proof.
  destruct (addNewWallet_not_persisted default_config (quiet_world silent_ledger 1)
              "0xbb" "0xaa" one_wallet)
    as (m' & Hrun & _ & Hex & _ & Hq & _); [reflexivity | reflexivity |].
  exists m'. split; [exact Hrun|]. split; [exact Hex|].
  rewrite Hq. reflexivity.
Defined.



End MonitorScenarios.

(** * More facts *)

(** ** More on the referral graph *)

Section StoreFacts.
Import JS RefRedis.

Variable prefix : string.

Lemma append_inj_l (p x y : string) : p +:+ x = p +:+ y -> x = y.
Proof. induction p as [|c p IH]; simpl; [auto|]. intros [= H]. auto. Qed.

Lemma nodeKey_inj (a b : string) :
  nodeKey prefix a = nodeKey prefix b -> toLowerCase a = toLowerCase b.
Proof.
  unfold nodeKey. intros H. apply append_inj_l in H. now apply (append_inj_l "node:") in H.
Qed.

Lemma nodeKey_not_all (a : string) : nodeKey prefix a <> allWalletsKey prefix.
Proof.
  unfold nodeKey, allWalletsKey. intros H. apply append_inj_l in H. discriminate H.
Qed.

Lemma nodeKey_ne (a b : string) :
  toLowerCase a <> toLowerCase b -> nodeKey prefix a <> nodeKey prefix b.
Proof. intros H E. apply H. now apply nodeKey_inj. Qed.

Lemma node_of_eq (d : db) (w : string) :
  node_of prefix d w =
  (fun obj => {| id := h_id obj; name := h_name obj; wallet := h_wallet obj;
                 refer := h_refer obj; refer_id := h_refer_id obj;
                 lv := parseInt (str_or (h_lv obj) "0") |})
  <$> hashes d !! nodeKey prefix w.
Proof. unfold node_of. now rewrite getNodeInfo_eq. Qed.

(** What [removeNode] leaves. *)
Lemma removeNode_eq (w : string) (d : db) :
  removeNode prefix w d =
  (Returned tt,
   {| hashes := delete (nodeKey prefix w) (hashes d);
      sets := <[allWalletsKey prefix := listed prefix d ∖ {[w]} ∖ {[toLowerCase w]}]>
                (delete (nodeKey prefix w) (sets d)) |}).
Proof.
  unfold removeNode, bind, del, sRem, modify, listed. simpl. rewrite nodeKey_lower.
  f_equal. f_equal.
  rewrite lookup_insert_eq. simpl.
  rewrite lookup_delete_ne by apply nodeKey_not_all.
  now rewrite insert_insert_eq.
Qed.

Lemma listed_removeNode (w : string) (d : db) :
  listed prefix (snd (removeNode prefix w d)) = listed prefix d ∖ {[w]} ∖ {[toLowerCase w]}.
Proof. rewrite removeNode_eq. unfold listed at 1. simpl. now rewrite lookup_insert_eq. Qed.

Lemma listed_addNodeLite (w nm rf fresh_id : string) (d d' : db) :
  addNodeLite prefix w nm rf fresh_id d = (Returned tt, d') ->
  listed prefix d' = {[toLowerCase w]} ∪ listed prefix d.
Proof.
  intros H. apply addNodeLite_returned in H as [_ ->].
  unfold listed at 1. simpl. now rewrite lookup_insert_eq.
Qed.

Lemma getAllWallets_eq (d : db) :
  getAllWallets prefix d = (Returned (elements (listed prefix d)), d).
Proof. reflexivity. Qed.

(** What [updateNode] does. *)
Lemma updateNode_eq (w : string) (fields : node_fields) (d : db) :
  updateNode prefix w fields d =
  match hashes d !! nodeKey prefix w with
  | Some _ =>
      (Returned tt,
       {| hashes := alter (merge_fields fields) (nodeKey prefix w) (hashes d);
          sets := sets d |})
  | None => (Thrown (NodeDoesNotExist (toLowerCase w)), d)
  end.
Proof.
  unfold updateNode, bind, redis_exists. rewrite nodeKey_lower.
  destruct (hashes d !! nodeKey prefix w); reflexivity.
Qed.

(** The loop of [clearAllWallets]: it counts every wallet and deletes the
    keys one after the other. *)
Lemma clear_each_eq (wallets : list string) (n : Z) (d : db) :
  clear_each prefix wallets n d =
  (Returned (n + Z.of_nat (length wallets)),
   fold_left (fun d w => {| hashes := delete (nodeKey prefix w) (hashes d);
                            sets := delete (nodeKey prefix w) (sets d) |}) wallets d).
Proof.
  revert n d. induction wallets as [|w rest IH]; intros n d.
  - simpl. unfold ret. do 2 f_equal. lia.
  - cbn [clear_each fold_left]. unfold bind at 1. unfold del at 1, modify.
    rewrite IH, nodeKey_lower. do 2 f_equal. simpl length. lia.
Qed.

Lemma fold_delete_lookup (wallets : list string) (d : db) (k : string) :
  hashes (fold_left (fun d w => {| hashes := delete (nodeKey prefix w) (hashes d);
                                   sets := delete (nodeKey prefix w) (sets d) |}) wallets d)
    !! k
  = if bool_decide (k ∈ map (nodeKey prefix) wallets) then None else hashes d !! k.
Proof.
  revert d. induction wallets as [|w rest IH]; intros d; [reflexivity|].
  cbn [fold_left map]. rewrite IH. simpl hashes.
  destruct (decide (k = nodeKey prefix w)) as [->|Hne].
  - rewrite lookup_delete_eq. rewrite (bool_decide_eq_true_2 (_ ∈ _ :: _)) by left.
    now destruct (bool_decide _).
  - rewrite lookup_delete_ne by congruence.
    destruct (decide (k ∈ map (nodeKey prefix) rest)) as [Hin|Hout].
    + rewrite !bool_decide_eq_true_2; [reflexivity|now right|assumption].
    + rewrite !bool_decide_eq_false_2; [reflexivity| |assumption].
      intros Hin. inversion Hin; subst; contradiction.
Qed.

Lemma fold_delete_sets (wallets : list string) (d : db) :
  sets (fold_left (fun d w => {| hashes := delete (nodeKey prefix w) (hashes d);
                                 sets := delete (nodeKey prefix w) (sets d) |}) wallets d)
    !! allWalletsKey prefix
  = sets d !! allWalletsKey prefix.
Proof.
  revert d. induction wallets as [|w rest IH]; intros d; [reflexivity|].
  cbn [fold_left]. rewrite IH. simpl. apply lookup_delete_ne, nodeKey_not_all.
Qed.

Lemma clearAllWallets_eq (d : db) :
  exists d',
    clearAllWallets prefix d = (Returned (Z.of_nat (size (listed prefix d))), d') /\
    listed prefix d' = ∅ /\
    forall k, hashes d' !! k =
      if bool_decide (k ∈ map (nodeKey prefix) (elements (listed prefix d)) \/
                      k = allWalletsKey prefix)
      then None else hashes d !! k.
Proof.
  unfold clearAllWallets, try_catch. unfold bind at 1. rewrite getAllWallets_eq.
  unfold bind at 1. rewrite clear_each_eq.
  unfold bind, del, modify, ret. simpl.
  eexists. split; [reflexivity|]. split.
  - unfold listed. simpl. now rewrite lookup_delete_eq.
  - intros k. simpl. destruct (decide (k = allWalletsKey prefix)) as [->|Hne].
    + rewrite lookup_delete_eq. rewrite bool_decide_eq_true_2 by now right. reflexivity.
    + rewrite lookup_delete_ne by congruence. rewrite fold_delete_lookup.
      destruct (decide (k ∈ map (nodeKey prefix) (elements (listed prefix d)))) as [Hin|Hout].
      * rewrite !bool_decide_eq_true_2; [reflexivity|now left|assumption].
      * rewrite !bool_decide_eq_false_2; [reflexivity| |assumption]. intros [H|H]; contradiction.
Qed.

End StoreFacts.

Section StoreInvariants.
Import JS RefRedis.

Variable prefix : string.

Lemma consistent_empty : consistent prefix empty_db.
Proof.
  intros w. unfold listed. simpl. rewrite !lookup_empty. simpl. split.
  - intros Hin. apply not_elem_of_empty in Hin. contradiction.
  - intros [_ [x Hx]]. discriminate.
Qed.

Lemma consistent_add (w nm rf fresh_id : string) (d d' : db) :
  consistent prefix d ->
  addNodeLite prefix w nm rf fresh_id d = (Returned tt, d') ->
  consistent prefix d'.
Proof.
  intros Hc H x. rewrite (listed_addNodeLite prefix _ _ _ _ _ _ H).
  apply addNodeLite_returned in H as [_ ->]. simpl.
  destruct (decide (x = toLowerCase w)) as [->|Hne].
  - rewrite nodeKey_lower, lookup_insert_eq, toLowerCase_idem. split.
    + intros _. split; [reflexivity|eauto].
    + intros _. apply elem_of_union. left. now apply elem_of_singleton.
  - rewrite elem_of_union, elem_of_singleton, (Hc x). split.
    + intros [Hx|[Hl Hs]]; [contradiction|]. split; [exact Hl|].
      rewrite lookup_insert_ne; [exact Hs|].
      apply nodeKey_ne. rewrite Hl. congruence.
    + intros [Hl Hs]. right. split; [exact Hl|].
      rewrite lookup_insert_ne in Hs; [exact Hs|].
      apply nodeKey_ne. rewrite Hl. congruence.
Qed.

Lemma consistent_remove (w : string) (d : db) :
  consistent prefix d -> consistent prefix (snd (removeNode prefix w d)).
Proof.
  intros Hc x. rewrite listed_removeNode. rewrite removeNode_eq. simpl.
  rewrite !elem_of_difference, !elem_of_singleton, (Hc x). split.
  - intros [[[Hl Hs] Hxw] Hxl]. split; [exact Hl|].
    rewrite lookup_delete_ne; [exact Hs|].
    apply nodeKey_ne. rewrite Hl. congruence.
  - intros [Hl Hs].
    destruct (decide (nodeKey prefix w = nodeKey prefix x)) as [E|E].
    + rewrite E, lookup_delete_eq in Hs. destruct Hs as [? Hs]. discriminate.
    + rewrite lookup_delete_ne in Hs by assumption.
      assert (Hxl : x <> toLowerCase w).
      { intros ->. apply E. now rewrite nodeKey_lower. }
      repeat split; try assumption.
      intros ->. apply Hxl. now symmetry.
Qed.

Lemma consistent_update (w : string) (fields : node_fields) (d d' : db) :
  consistent prefix d ->
  updateNode prefix w fields d = (Returned tt, d') ->
  consistent prefix d'.
Proof.
  intros Hc H x. rewrite updateNode_eq in H.
  destruct (hashes d !! nodeKey prefix w) eqn:E; [|discriminate].
  injection H as <-. unfold listed. simpl. fold (listed prefix d). rewrite (Hc x).
  rewrite lookup_alter. 
  destruct (decide (nodeKey prefix w = nodeKey prefix x)) as [Ek|Ek];
    rewrite ?fmap_is_Some, ?Ek; reflexivity.
Qed.

Lemma consistent_clear (n : Z) (d d' : db) :
  consistent prefix d ->
  clearAllWallets prefix d = (Returned n, d') ->
  consistent prefix d' /\ forall w, hashes d' !! nodeKey prefix w = None.
Proof.
  intros Hc H. destruct (clearAllWallets_eq prefix d) as (d1 & Hrun & Hl & Hh).
  rewrite Hrun in H. injection H as _ <-.
  assert (Hnone : forall w, hashes d1 !! nodeKey prefix w = None).
  { intros w. rewrite Hh.
    destruct (hashes d !! nodeKey prefix w) as [h|] eqn:E.
    - rewrite bool_decide_eq_true_2; [reflexivity|]. left.
      assert (Hin : toLowerCase w ∈ listed prefix d).
      { apply Hc. rewrite toLowerCase_idem, nodeKey_lower. eauto. }
      apply list_elem_of_fmap. exists (toLowerCase w).
      rewrite nodeKey_lower. split; [reflexivity|]. now apply elem_of_elements.
    - now destruct (bool_decide _). }
  split; [|exact Hnone].
  intros x. rewrite Hl, Hnone. split; [set_solver|]. intros [_ [? ?]]. discriminate.
Qed.

Lemma maintained_consistent (d : db) : maintained prefix d -> consistent prefix d.
Proof.
  induction 1 as [|d w nm rf i d' _ IH H|d w d' _ IH H|d w fields d' _ IH _ H|d n d' _ IH H].
  - apply consistent_empty.
  - eapply consistent_add; eauto.
  - rewrite removeNode_eq in H. injection H as <-.
    pose proof (consistent_remove w d IH) as Hr. now rewrite removeNode_eq in Hr.
  - eapply consistent_update; eauto.
  - eapply consistent_clear; eauto.
Qed.

Lemma levels_add (w nm rf fresh_id : string) (d d' : db) :
  levels_positive d ->
  addNodeLite prefix w nm rf fresh_id d = (Returned tt, d') ->
  levels_positive d'.
Proof.
  intros Hl H. apply addNodeLite_returned in H as [_ ->]. intros k h. simpl.
  destruct (decide (nodeKey prefix w = k)) as [<-|Hne].
  - rewrite lookup_insert_eq. intros [= <-]. simpl. rewrite lv_roundtrip.
    unfold derived. destruct (hashes d !! nodeKey prefix rf) as [parent|] eqn:E; simpl.
    + destruct (Hl _ _ E) as (n & -> & Hn). exists (n + 1). split; [reflexivity|lia].
    + exists 1. split; [reflexivity|lia].
  - rewrite lookup_insert_ne by assumption. apply Hl.
Qed.

Lemma maintained_levels (d : db) : maintained prefix d -> levels_positive d.
Proof.
  induction 1 as [|d w nm rf i d' _ IH H|d w d' _ IH H|d w fields d' _ IH Hlv H|d n d' _ IH H].
  - intros k h. simpl. rewrite lookup_empty. discriminate.
  - eapply levels_add; eauto.
  - rewrite removeNode_eq in H. injection H as <-. intros k h. simpl.
    intros Hk. apply lookup_delete_Some in Hk as [_ Hk]. eapply IH; eauto.
  - rewrite updateNode_eq in H.
    destruct (hashes d !! nodeKey prefix w) eqn:E; [|discriminate].
    injection H as <-. intros k h. simpl. rewrite lookup_alter.
    destruct (decide (nodeKey prefix w = k)) as [<-|Hne].
    + rewrite E. simpl. intros [= <-]. simpl. rewrite Hlv. simpl. eapply IH; eauto.
    + apply IH.
  - destruct (clearAllWallets_eq prefix d) as (d1 & Hrun & _ & Hh).
    rewrite Hrun in H. injection H as _ <-. intros k h. rewrite Hh.
    destruct (bool_decide _); [discriminate|]. apply IH.
Qed.

End StoreInvariants.

Section StoreExtras.
Import JS RefRedis.

(** X1. [removeNode] never fails. Afterwards the wallet, in any letter
    case, has no node, and neither the wallet as given nor its lower case is
    listed; the node of every other wallet is what it was, so a node whose
    referrer was removed keeps its referrer, level and chain. *)
Theorem removeNode_forgets (prefix w : string) (d : db) :
  exists d',
    removeNode prefix w d = (Returned tt, d') /\
    (forall w', toLowerCase w' = toLowerCase w ->
       existsWallet prefix w' d' = (Returned false, d') /\
       node_of prefix d' w' = None) /\
    listed prefix d' = listed prefix d ∖ {[w]} ∖ {[toLowerCase w]} /\
    (forall w', toLowerCase w' <> toLowerCase w ->
       node_of prefix d' w' = node_of prefix d w').
Proof.
  eexists. split; [apply removeNode_eq|]. split; [|split].
  - intros w' Hw.
    assert (Hk : nodeKey prefix w' = nodeKey prefix w) by (unfold nodeKey; now rewrite Hw).
    rewrite existsWallet_eq, node_of_eq. simpl. rewrite Hk, lookup_delete_eq.
    split; reflexivity.
  - unfold listed at 1. simpl. now rewrite lookup_insert_eq.
  - intros w' Hw. rewrite !node_of_eq. simpl.
    rewrite lookup_delete_ne; [reflexivity|]. apply nodeKey_ne. congruence.
Qed.

(** X2. [updateNode] on a wallet that has no node throws
    [NodeDoesNotExist] and leaves the store as it was. On a stored wallet it
    returns and replaces exactly the fields given ([refer] in lower case);
    a level that is given is read back unchanged when it is [NaN] or a safe
    integer, and the level stays when none is given. The wallet field, the
    listing and the node of every other wallet are left alone. *)
Theorem updateNode_partial (prefix w : string) (fields : node_fields) (d : db) :
  (node_of prefix d w = None ->
   updateNode prefix w fields d = (Thrown (NodeDoesNotExist (toLowerCase w)), d)) /\
  (forall node,
     node_of prefix d w = Some node ->
     exists d' node',
       updateNode prefix w fields d = (Returned tt, d') /\
       node_of prefix d' w = Some node' /\
       id node' = default (id node) (f_id fields) /\
       name node' = default (name node) (f_name fields) /\
       wallet node' = wallet node /\
       refer node' = default (refer node) (toLowerCase <$> f_refer fields) /\
       refer_id node' = default (refer_id node) (f_refer_id fields) /\
       (f_lv fields = None -> lv node' = lv node) /\
       (forall x, f_lv fields = Some x -> safe_integer x -> lv node' = x) /\
       fst (getNameByWallet prefix w d')
         = Returned (Some (default (name node) (f_name fields))) /\
       listed prefix d' = listed prefix d /\
       (forall w', toLowerCase w' <> toLowerCase w ->
          node_of prefix d' w' = node_of prefix d w')).
Proof.
  split.
  { rewrite node_of_eq, updateNode_eq.
    destruct (hashes d !! nodeKey prefix w); [discriminate|reflexivity]. }
  intros node.
  rewrite node_of_eq, updateNode_eq. intros Hn.
  destruct (hashes d !! nodeKey prefix w) as [h|] eqn:E; [|discriminate].
  simpl in Hn. injection Hn as <-.
  eexists. eexists. split; [reflexivity|]. split.
  { rewrite node_of_eq. simpl. rewrite lookup_alter_eq, E. reflexivity. }
  cbn [id name wallet refer refer_id lv merge_fields h_id h_name h_wallet h_refer
       h_refer_id h_lv].
  repeat (split; [reflexivity|]).
  split; [|split; [|split; [|split]]].
  - intros ->. reflexivity.
  - intros x -> _. cbn [fmap option_fmap option_map default]. apply lv_roundtrip.
  - unfold getNameByWallet. simpl. rewrite nodeKey_lower, lookup_alter_eq, E. reflexivity.
  - reflexivity.
  - intros w' Hw. rewrite !node_of_eq. simpl.
    rewrite lookup_alter_ne; [reflexivity|]. apply nodeKey_ne. congruence.
Qed.

(** X3. [clearAllWallets] returns the number of wallets listed and leaves
    the listing empty; on a store the class maintained, that number is the
    number of nodes' wallets and no wallet has a node afterwards. *)
Theorem clearAllWallets_empties (prefix : string) (d : db) :
  exists d',
    clearAllWallets prefix d = (Returned (Z.of_nat (size (listed prefix d))), d') /\
    getAllWallets prefix d' = (Returned [], d') /\
    (forall w, w ∈ listed prefix d ->
       existsWallet prefix w d' = (Returned false, d')) /\
    (maintained prefix d ->
       forall w, existsWallet prefix w d' = (Returned false, d')).
Proof.
  destruct (clearAllWallets_eq prefix d) as (d' & Hrun & Hl & Hh).
  exists d'. split; [exact Hrun|]. split; [|split].
  - rewrite getAllWallets_eq, Hl. now rewrite elements_empty.
  - intros w Hw. rewrite existsWallet_eq, Hh.
    rewrite (bool_decide_eq_true_2 (_ \/ _)); [reflexivity|]. left.
    apply list_elem_of_fmap. exists w. split; [reflexivity|]. now apply elem_of_elements.
  - intros Hm w. rewrite existsWallet_eq.
    destruct (consistent_clear prefix _ d d' (maintained_consistent prefix d Hm) Hrun)
      as [_ Hnone].
    now rewrite Hnone.
Qed.

(** X4. On every store the class maintained, the listing of
    [getAllWallets] holds exactly the wallets, in lower case, that have a
    node. *)
Theorem maintained_listing (prefix : string) (d : db) :
  maintained prefix d ->
  exists wallets,
    getAllWallets prefix d = (Returned wallets, d) /\
    NoDup wallets /\
    forall w, w ∈ wallets <->
              toLowerCase w = w /\ existsWallet prefix w d = (Returned true, d).
Proof.
  intros Hm. exists (elements (listed prefix d)).
  split; [apply getAllWallets_eq|]. split; [apply NoDup_elements|].
  intros w. rewrite elem_of_elements, (maintained_consistent prefix d Hm w).
  rewrite existsWallet_eq. split; intros [Hl Hs]; (split; [exact Hl|]).
  - now rewrite bool_decide_eq_true_2.
  - destruct (hashes d !! nodeKey prefix w); [eauto|].
    rewrite bool_decide_eq_false_2 in Hs; [discriminate|]. intros [? ?]. discriminate.
Qed.

(** X5. On every store the class maintained, the level of every node is an
    integer, at least [1]. *)
Theorem maintained_levels_positive (prefix : string) (d : db) (w : string)
    (node : node_info) :
  maintained prefix d ->
  node_of prefix d w = Some node ->
  exists n, lv node = Int n /\ 1 <= n.
Proof.
  intros Hm. rewrite node_of_eq.
  destruct (hashes d !! nodeKey prefix w) as [h|] eqn:E; [|discriminate].
  simpl. intros [= <-]. simpl.
  apply (maintained_levels prefix d Hm _ _ E).
Qed.

(** X6. After [addNodeLite] has returned, the wallet exists, is listed in
    lower case, and [getNameByWallet] gives the name that was passed; the
    node of every other wallet is what it was. *)
Theorem addNodeLite_lookup (prefix w nm rf fresh_id : string) (d d' : db) :
  addNodeLite prefix w nm rf fresh_id d = (Returned tt, d') ->
  existsWallet prefix w d' = (Returned true, d') /\
  getNameByWallet prefix w d' = (Returned (Some nm), d') /\
  listed prefix d' = {[toLowerCase w]} ∪ listed prefix d /\
  (forall w', toLowerCase w' <> toLowerCase w ->
     node_of prefix d' w' = node_of prefix d w').
Proof.
  intros H. pose proof (listed_addNodeLite prefix _ _ _ _ _ _ H) as Hl.
  apply addNodeLite_returned in H as [_ ->].
  split; [|split; [|split]].
  - rewrite existsWallet_eq. simpl. rewrite lookup_insert_eq.
    now rewrite bool_decide_eq_true_2 by eauto.
  - unfold getNameByWallet. simpl. now rewrite nodeKey_lower, lookup_insert_eq.
  - exact Hl.
  - intros w' Hw. rewrite !node_of_eq. simpl.
    rewrite lookup_insert_ne; [reflexivity|]. apply nodeKey_ne. congruence.
Qed.

End StoreExtras.

(** ** The import *)

Section ImportFacts.
Import JS RefRedis.

Variable prefix : string.

(** [addWallet] of the executor never answers [false]: a stored wallet is
    skipped, a free one is inserted. *)
Lemma executor_addWallet_eq (w nm rf fresh_id : string) (d : db) :
  DatabaseExecutor.addWallet prefix w nm rf fresh_id d =
  match hashes d !! nodeKey prefix w with
  | Some _ => (Returned true, d)
  | None =>
      (Returned true,
       {| hashes := <[nodeKey prefix w := created prefix d w nm rf fresh_id]> (hashes d);
          sets := <[allWalletsKey prefix :=
                      {[toLowerCase w]} ∪ default ∅ (sets d !! allWalletsKey prefix)]>
                    (sets d) |})
  end.
Proof.
  unfold DatabaseExecutor.addWallet, try_catch. unfold bind at 1.
  rewrite existsWallet_eq.
  destruct (hashes d !! nodeKey prefix w) as [h|] eqn:E.
  - rewrite bool_decide_eq_true_2 by eauto. reflexivity.
  - rewrite bool_decide_eq_false_2 by (intros [? ?]; discriminate).
    unfold bind. rewrite addNodeLite_free by assumption. reflexivity.
Qed.

Lemma import_loop_spec (fresh_ids : nat -> string) (data : list DatabaseExecutor.item) :
  forall (i : nat) (s f : Z) (d : db),
  exists d',
    DatabaseExecutor.import_loop prefix fresh_ids i data s f d =
      (Returned (s + Z.of_nat (length (filter (fun it => valid_item it = true) data)),
                 f + Z.of_nat (length (filter (fun it => valid_item it <> true) data))), d') /\
    (forall k h, hashes d !! k = Some h -> hashes d' !! k = Some h) /\
    (forall it, it ∈ data -> valid_item it = true ->
       is_Some (hashes d' !! nodeKey prefix (DatabaseExecutor.item_wallet it))) /\
    ((forall it, it ∈ data -> valid_item it = true ->
        is_Some (hashes d !! nodeKey prefix (DatabaseExecutor.item_wallet it))) -> d' = d).
Proof.
  induction data as [|it rest IH]; intros i s f d.
  - exists d. simpl. unfold ret. rewrite !Z.add_0_r.
    split; [reflexivity|]. split; [auto|]. split; [|auto].
    intros it Hin. inversion Hin.
  - cbn [DatabaseExecutor.import_loop]. rewrite !filter_cons.
    destruct (valid_item it) eqn:Hv.
    + assert (Hv' := Hv). unfold valid_item in Hv'.
      apply andb_true_iff in Hv' as [H1 H2].
      apply negb_true_iff in H1, H2. rewrite H1, H2. cbn [orb].
      unfold bind at 1. rewrite executor_addWallet_eq.
      rewrite decide_True by reflexivity.
      rewrite decide_False by (intros H; now apply H).
      destruct (hashes d !! nodeKey prefix (DatabaseExecutor.item_wallet it)) as [h0|] eqn:E.
      * destruct (IH (S i) (s + 1) f d) as (d' & Hrun & Hkeep & Hall & Hsame).
        exists d'. split; [rewrite Hrun; do 3 f_equal; simpl length; lia|].
        split; [exact Hkeep|]. split.
        -- intros x Hin Hx. inversion Hin; subst; [|now apply Hall].
           rewrite (Hkeep _ _ E). eauto.
        -- intros Hex. apply Hsame. intros x Hin. apply Hex. now right.
      * match goal with |- context [DatabaseExecutor.import_loop _ _ _ _ _ _ ?d1] =>
          destruct (IH (S i) (s + 1) f d1) as (d' & Hrun & Hkeep & Hall & Hsame) end.
        exists d'. split; [rewrite Hrun; do 3 f_equal; simpl length; lia|].
        split; [|split].
        -- intros k h Hk. apply Hkeep. simpl.
           rewrite lookup_insert_ne; [exact Hk|]. intros <-. congruence.
        -- intros x Hin Hx. inversion Hin; subst; [|now apply Hall].
           exists (created prefix d (DatabaseExecutor.item_wallet it)
                     (DatabaseExecutor.item_name it) (DatabaseExecutor.item_refer it)
                     (fresh_ids i)).
           apply Hkeep. simpl. apply lookup_insert_eq.
        -- intros Hex. exfalso. destruct (Hex it) as [? Hit]; [left|exact Hv|]. congruence.
    + assert (Hi : (String.eqb (DatabaseExecutor.item_wallet it) ""
                    || String.eqb (DatabaseExecutor.item_name it) "") = true).
      { unfold valid_item in Hv. apply andb_false_iff in Hv as [H|H];
          apply negb_false_iff in H; rewrite H; [reflexivity|apply orb_true_r]. }
      rewrite Hi.
      rewrite decide_False by discriminate.
      rewrite decide_True by discriminate.
      destruct (IH (S i) s (f + 1) d) as (d' & Hrun & Hkeep & Hall & Hsame).
      exists d'. split; [rewrite Hrun; do 3 f_equal; simpl length; lia|].
      split; [exact Hkeep|]. split.
      * intros x Hin Hx. inversion Hin; subst; [congruence|now apply Hall].
      * intros Hex. apply Hsame. intros x Hin. apply Hex. now right.
Qed.

End ImportFacts.

Section ImportExtras.
Import JS RefRedis.

(** X7. [importFromJson] never throws. It counts as failures exactly the
    entries without a wallet or without a name, and as successes all the
    others, whether it inserted them or found them stored; afterwards every
    accepted entry's wallet has a node, and every node stored before the
    import is what it was. *)
Theorem importFromJson_counts (prefix : string) (fresh_ids : nat -> string)
    (data : list DatabaseExecutor.item) (d : db) :
  exists successCount failCount d',
    DatabaseExecutor.importFromJson prefix fresh_ids data d
      = (Returned (successCount, failCount), d') /\
    successCount = Z.of_nat (length (filter (fun it => valid_item it = true) data)) /\
    successCount + failCount = Z.of_nat (length data) /\
    (forall it, it ∈ data -> valid_item it = true ->
       existsWallet prefix (DatabaseExecutor.item_wallet it) d' = (Returned true, d')) /\
    (forall w node, node_of prefix d w = Some node -> node_of prefix d' w = Some node).
Proof.
  destruct (import_loop_spec prefix fresh_ids data 0%nat 0 0 d)
    as (d' & Hrun & Hkeep & Hall & _).
  eexists _, _, d'. split; [exact Hrun|]. split; [reflexivity|]. split; [|split].
  - rewrite !Z.add_0_l, <- Nat2Z.inj_add. f_equal.
    clear. induction data as [|it rest IH]; [reflexivity|].
    rewrite !filter_cons. destruct (valid_item it).
    + rewrite decide_True by reflexivity. rewrite decide_False by (intros H; now apply H).
      simpl. lia.
    + rewrite decide_False by discriminate. rewrite decide_True by discriminate.
      simpl. lia.
  - intros it Hin Hv. rewrite existsWallet_eq.
    now rewrite bool_decide_eq_true_2 by (apply Hall; assumption).
  - intros w node. rewrite !node_of_eq.
    destruct (hashes d !! nodeKey prefix w) as [h|] eqn:E; [|discriminate].
    now rewrite (Hkeep _ _ E).
Qed.

(** X8. Importing the same array again changes nothing: the second import
    returns the same counts and leaves the store of the first, whatever ids
    it would have generated. *)
Theorem importFromJson_again (prefix : string) (fresh_ids fresh_ids' : nat -> string)
    (data : list DatabaseExecutor.item) (d d1 : db) (counts : Z * Z) :
  DatabaseExecutor.importFromJson prefix fresh_ids data d = (Returned counts, d1) ->
  DatabaseExecutor.importFromJson prefix fresh_ids' data d1 = (Returned counts, d1).
Proof.
  intros H.
  destruct (import_loop_spec prefix fresh_ids data 0%nat 0 0 d)
    as (dA & HrunA & _ & HallA & _).
  unfold DatabaseExecutor.importFromJson in *. rewrite HrunA in H. injection H as <- <-.
  destruct (import_loop_spec prefix fresh_ids' data 0%nat 0 0 dA)
    as (dB & HrunB & _ & _ & Hsame).
  rewrite HrunB. rewrite (Hsame HallA). reflexivity.
Qed.

End ImportExtras.

(** ** More on the classifier *)

Section ClassifierMore.
Import JS TransactionProcessor.

Variable L : ledger.

Lemma analyzeERC20Events_changes (logs : list log_entry) (result : parsed) :
  p_erc20Changes (analyzeERC20Events L logs result)
  = p_erc20Changes result ++ omap (decode_log L) logs.
Proof.
  revert result. induction logs as [|lg rest IH]; intros result; simpl.
  - now rewrite app_nil_r.
  - rewrite IH. unfold decode_log at 2.
    destruct (bool_decide _); [|reflexivity].
    destruct (parseTransferEvent L lg); simpl; [|reflexivity].
    now rewrite <- app_assoc.
Qed.

Lemma analyzeERC20Events_ids (logs : list log_entry) (result : parsed) :
  p_hash (analyzeERC20Events L logs result) = p_hash result /\
  p_blockNumber (analyzeERC20Events L logs result) = p_blockNumber result /\
  p_from (analyzeERC20Events L logs result) = p_from result /\
  p_methodSignature (analyzeERC20Events L logs result) = p_methodSignature result.
Proof.
  revert result. induction logs as [|lg rest IH]; intros result; simpl; [auto|].
  match goal with |- context [analyzeERC20Events L rest ?r] =>
    destruct (IH r) as (-> & -> & -> & ->) end.
  destruct (bool_decide _); [|auto].
  destruct (parseTransferEvent L lg); auto.
Qed.

(** The parsed transaction, field by field, before the Transfer events. *)
Lemma parseTransaction_eq (t : transaction) (r : option receipt) :
  parseTransaction L t r =
  Some (analyzeERC20Events L (receipt_logs r)
          (analyzeTransactionType t
             (analyzeBNBChange t
                {| p_hash := tx_hash t; p_blockNumber := tx_blockNumber t;
                   p_from := tx_from t; p_to := tx_to t; p_value := tx_value t;
                   p_isTransfer := false; p_isERC20Transaction := false;
                   p_isEOA := match tx_to t with
                              | Some a => if present (tx_to t) then isEOA L a else false
                              | None => false
                              end;
                   p_bnbChange := {| bnb_from := "0"; bnb_to := "0" |};
                   p_erc20Changes := [];
                   p_transactionType := unknown;
                   p_methodSignature := None;
                   p_inputData := str_or (tx_data t) "0x" |}))).
Proof.
  unfold parseTransaction. f_equal.
  assert (Hr : forall x, match r with
                         | Some {| r_logs := Some logs |} => analyzeERC20Events L logs x
                         | _ => x end = analyzeERC20Events L (receipt_logs r) x).
  { intros x. destruct r as [[[logs|]]|]; reflexivity. }
  rewrite Hr. do 3 f_equal.
  destruct (tx_to t) as [a|]; [destruct (present (Some a))|]; reflexivity.
Qed.

Lemma analyzeTransactionType_fields (t : transaction) (result : parsed) :
  p_hash (analyzeTransactionType t result) = p_hash result /\
  p_blockNumber (analyzeTransactionType t result) = p_blockNumber result /\
  p_from (analyzeTransactionType t result) = p_from result /\
  p_erc20Changes (analyzeTransactionType t result) = p_erc20Changes result.
Proof.
  unfold analyzeTransactionType.
  repeat match goal with |- context [if ?b then _ else _] => destruct b end; auto.
Qed.

Lemma analyzeBNBChange_fields (t : transaction) (result : parsed) :
  p_hash (analyzeBNBChange t result) = p_hash result /\
  p_blockNumber (analyzeBNBChange t result) = p_blockNumber result /\
  p_from (analyzeBNBChange t result) = p_from result /\
  p_erc20Changes (analyzeBNBChange t result) = p_erc20Changes result.
Proof. unfold analyzeBNBChange. destruct (0 <? tx_value t); auto. Qed.

Lemma parseTransaction_fields (t : transaction) (r : option receipt) (p : parsed) :
  parseTransaction L t r = Some p ->
  p_hash p = tx_hash t /\ p_blockNumber p = tx_blockNumber t /\ p_from p = tx_from t /\
  p_erc20Changes p = omap (decode_log L) (receipt_logs r).
Proof.
  rewrite parseTransaction_eq. intros [= <-].
  destruct (analyzeERC20Events_ids (receipt_logs r)
    (analyzeTransactionType t (analyzeBNBChange t
       {| p_hash := tx_hash t; p_blockNumber := tx_blockNumber t;
          p_from := tx_from t; p_to := tx_to t; p_value := tx_value t;
          p_isTransfer := false; p_isERC20Transaction := false;
          p_isEOA := match tx_to t with
                     | Some a => if present (tx_to t) then isEOA L a else false
                     | None => false
                     end;
          p_bnbChange := {| bnb_from := "0"; bnb_to := "0" |};
          p_erc20Changes := [];
          p_transactionType := unknown;
          p_methodSignature := None;
          p_inputData := str_or (tx_data t) "0x" |}))) as (-> & -> & -> & _).
  rewrite analyzeERC20Events_changes.
  match goal with |- context [analyzeTransactionType t ?x] =>
    destruct (analyzeTransactionType_fields t x) as (-> & -> & -> & ->);
    match x with analyzeBNBChange t ?y =>
      destruct (analyzeBNBChange_fields t y) as (-> & -> & -> & ->) end end.
  auto.
Qed.

(** The classification read off the value and the call data. *)
Lemma parseTransaction_type (t : transaction) (r : option receipt) (p : parsed) :
  parseTransaction L t r = Some p ->
  p_transactionType p =
    p_transactionType
      (analyzeTransactionType t
         {| p_hash := ""; p_blockNumber := 0; p_from := ""; p_to := None; p_value := 0;
            p_isTransfer := false; p_isERC20Transaction := false; p_isEOA := false;
            p_bnbChange := {| bnb_from := "0"; bnb_to := "0" |};
            p_erc20Changes := [];
            p_transactionType := unknown; p_methodSignature := None;
            p_inputData := "" |}).
Proof.
  rewrite parseTransaction_eq. intros [= <-].
  rewrite (proj1 (analyzeERC20Events_keeps L _ _)).
  unfold analyzeTransactionType.
  repeat match goal with |- context [if ?b then _ else _] => destruct b end; reflexivity.
Qed.

End ClassifierMore.

Section ClassifierExtras.
Import JS TransactionProcessor.

(** X9. The classification and the native change of a transaction depend
    on its value and its call data alone: two transactions with the same
    call data whose values are both positive or both not get the same
    classification, whatever the ledger and the receipts; with equal values
    and recipients the native changes are equal too. *)
Theorem classification_by_value_and_data (L L' : ledger) (t t' : transaction)
    (r r' : option receipt) (p p' : parsed) :
  parseTransaction L t r = Some p ->
  parseTransaction L' t' r' = Some p' ->
  tx_data t = tx_data t' ->
  (0 <? tx_value t) = (0 <? tx_value t') ->
  p_transactionType p = p_transactionType p' /\
  (tx_value t = tx_value t' -> present (tx_to t) = present (tx_to t') ->
   p_bnbChange p = p_bnbChange p').
Proof.
  intros Hp Hp' Hd Hv. split.
  - rewrite (parseTransaction_type L t r p Hp), (parseTransaction_type L' t' r' p' Hp').
    unfold analyzeTransactionType. now rewrite Hd, Hv.
  - intros Hval Hto.
    rewrite (parseTransaction_change L t r p Hp), (parseTransaction_change L' t' r' p' Hp').
    now rewrite Hval, Hto.
Qed.

(** X10. A transaction that carries call data is never classified
    [bnb_transfer], even with a positive value: its method signature is the
    first ten characters of the data, the three known ERC-20 selectors give
    their own labels, and the value still shows in the native change. *)
Theorem payload_never_native (L : ledger) (t : transaction) (r : option receipt)
    (p : parsed) :
  parseTransaction L t r = Some p ->
  has_payload t = true ->
  p_transactionType p <> bnb_transfer /\
  p_transactionType p <> unknown /\
  p_methodSignature p = Some (slice_to 10 (tx_data t)) /\
  (slice_to 10 (tx_data t) = ERC20_transfer -> p_transactionType p = erc20_transfer) /\
  (slice_to 10 (tx_data t) = ERC20_transferFrom -> p_transactionType p = erc20_transfer_from) /\
  (slice_to 10 (tx_data t) = ERC20_approve -> p_transactionType p = erc20_approve) /\
  (slice_to 10 (tx_data t) ∉ ERC20_METHODS -> p_transactionType p = contract_call) /\
  (0 < tx_value t -> bnb_from (p_bnbChange p) = "-" +:+ formatEther (tx_value t)).
Proof.
  intros Hp Hpay.
  pose proof (parseTransaction_type L t r p Hp) as Hty.
  pose proof (parseTransaction_change L t r p Hp) as Hch.
  unfold has_payload in Hpay. apply andb_true_iff in Hpay as [H1 H2].
  apply negb_true_iff in H1, H2.
  assert (Hs : str_or (tx_data t) "0x" = tx_data t).
  { unfold str_or in *. destruct (String.eqb (tx_data t) ""); [discriminate H1|reflexivity]. }
  assert (Hsig : p_methodSignature p = Some (slice_to 10 (tx_data t))).
  { rewrite parseTransaction_eq in Hp. injection Hp as <-.
    match goal with |- context [analyzeERC20Events L ?l ?x] =>
      destruct (analyzeERC20Events_ids L l x) as (_ & _ & _ & ->) end.
    unfold analyzeTransactionType. rewrite H1, H2. cbn [orb]. rewrite Hs.
    destruct (bool_decide _); reflexivity. }
  unfold analyzeTransactionType in Hty. rewrite H1, H2, Hs in Hty.
  cbn [orb with_type p_transactionType] in Hty.
  repeat split.
  - rewrite Hty. destruct (bool_decide _); [|discriminate].
    repeat match goal with |- context [if ?b then _ else _] => destruct b end; discriminate.
  - rewrite Hty. destruct (bool_decide _); [|discriminate].
    repeat match goal with |- context [if ?b then _ else _] => destruct b end; discriminate.
  - exact Hsig.
  - intros E. rewrite Hty, E. reflexivity.
  - intros E. rewrite Hty, E. reflexivity.
  - intros E. rewrite Hty, E. reflexivity.
  - intros E. rewrite Hty. now rewrite bool_decide_eq_false_2.
  - intros Hv. rewrite Hch. apply Z.ltb_lt in Hv. now rewrite Hv.
Qed.

(** X11. The token changes of a parsed transaction are the Transfer logs of
    its receipt that decode, in the order of the logs; the other logs and the
    logs that do not decode are skipped, and without a receipt there is no
    token change. *)
Theorem token_changes_from_logs (L : ledger) (t : transaction) (r : option receipt)
    (p : parsed) :
  parseTransaction L t r = Some p ->
  p_erc20Changes p = omap (decode_log L) (receipt_logs r) /\
  (length (p_erc20Changes p) <= length (receipt_logs r))%nat /\
  (r = None -> p_erc20Changes p = []).
Proof.
  intros Hp. destruct (parseTransaction_fields L t r p Hp) as (_ & _ & _ & Hc).
  split; [exact Hc|]. split.
  - rewrite Hc. clear. induction (receipt_logs r) as [|lg l IH]; [reflexivity|].
    cbn [omap list_omap length]. fold (omap (decode_log L) l).
    destruct (decode_log L lg); cbn [length]; lia.
  - intros ->. exact Hc.
Qed.

(** X12. A Transfer log decodes whenever its two address topics and its
    data decode; the token metadata never makes it fail: a lookup that fails
    gives name [Unknown], symbol [UNKNOWN], 18 decimals. The formatted value
    is what [formatUnits] prints when ethers accepts the call (at most 80
    decimals, a value within 512 bits) and the plain decimal value otherwise.
    A log with fewer than three topics gives nothing. *)
Theorem parseTransferEvent_metadata (L : ledger) (lg : log_entry) :
  (forall t1 t2 from to value,
     log_topics lg !! 1%nat = Some t1 ->
     log_topics lg !! 2%nat = Some t2 ->
     getAddress L ("0x" +:+ slice_from 26 t1) = Returned from ->
     getAddress L ("0x" +:+ slice_from 26 t2) = Returned to ->
     StringToBigInt (log_data lg) = Some value ->
     exists c, parseTransferEvent L lg = Some c /\
       c_from c = from /\ c_to c = to /\ c_value c = Z_to_string value /\
       c_tokenAddress c = log_address lg /\
       c_tokenName c = or_else (token_name L (log_address lg)) "Unknown" /\
       c_tokenSymbol c = or_else (token_symbol L (log_address lg)) "UNKNOWN" /\
       c_tokenDecimals c = or_else (token_decimals L (log_address lg)) 18%nat /\
       c_formattedValue c = formatTokenValue value (c_tokenDecimals c) /\
       ((c_tokenDecimals c <= 80)%nat -> - 2 ^ 511 <= value < 2 ^ 511 ->
        c_formattedValue c = formatUnits value (c_tokenDecimals c)) /\
       ((80 < c_tokenDecimals c)%nat -> c_formattedValue c = c_value c)) /\
  ((length (log_topics lg) < 3)%nat -> parseTransferEvent L lg = None).
Proof.
  split.
  - intros t1 t2 from to value H1 H2 Hf Ht Hv.
    unfold parseTransferEvent, topic, BigInt_of_string, getTokenInfo.
    rewrite H1, H2, Hv. cbn [obind]. rewrite Hf. cbn [obind]. rewrite Ht.
    cbn [obind or_else].
    eexists. split; [reflexivity|].
    cbn [c_from c_to c_value c_tokenAddress c_tokenName c_tokenSymbol c_tokenDecimals
         c_formattedValue].
    repeat (split; [reflexivity|]). split.
    + intros Hd [Hlo Hhi]. unfold formatTokenValue, ethers_formatUnits.
      replace (80 <? _)%nat with false by (symmetry; apply Nat.ltb_ge; exact Hd).
      replace (value <? - 2 ^ 511) with false by (symmetry; apply Z.ltb_ge; exact Hlo).
      replace (2 ^ 511 <=? value) with false by (symmetry; apply Z.leb_gt; exact Hhi).
      reflexivity.
    + intros Hd. unfold formatTokenValue, ethers_formatUnits.
      replace (80 <? _)%nat with true by (symmetry; apply Nat.ltb_lt; exact Hd).
      reflexivity.
  - intros Hlen. unfold parseTransferEvent, topic.
    destruct (log_topics lg) as [|a [|b [|c l]]]; simpl in *; try lia; try reflexivity.
    destruct (getAddress L _); reflexivity.
Qed.

End ClassifierExtras.

(** ** More on the scanner *)

Section ScannerMore.
Import JS TransactionProcessor BlockScanner.

Variable L : ledger.
Variable watched : gset string.
Variable cfg : BlockScanner.config.

Lemma confirmed_reports (txs : list transaction) :
  forall vt vr,
    confirmed txs (map (fun t => Fulfilled (getTransactionReceipt L (tx_hash t))) txs)
      = (vt, vr) ->
    map formatOutput (processTransactions L vt vr) = omap (report_confirmed L) txs.
Proof.
  induction txs as [|t txs IH]; intros vt vr H.
  - simpl in H. injection H as <- <-. reflexivity.
  - cbn [map confirmed] in H. cbn [omap list_omap]. fold (omap (report_confirmed L) txs).
    unfold report_confirmed at 1.
    destruct (getTransactionReceipt L (tx_hash t)) as [r|].
    + destruct (confirmed txs _) as [vt' vr'] eqn:E. injection H as <- <-.
      cbn [processTransactions tl]. unfold classify.
      destruct (parseTransaction L t (Some r)) as [p|]; cbn [fmap option_fmap option_map map];
        now rewrite (IH vt' vr' eq_refl).
    + now apply IH.
Qed.

Lemma processBlock_eq (b : Z) :
  processBlock L watched cfg b
  = Returned (omap (report_confirmed L) (relevant_transactions L watched cfg b)).
Proof.
  unfold processBlock. fold (relevant_transactions L watched cfg b).
  destruct (length (relevant_transactions L watched cfg b) =? 0)%nat eqn:E0.
  - apply Nat.eqb_eq in E0. destruct (relevant_transactions L watched cfg b); [reflexivity|].
    discriminate E0.
  - destruct (confirmed _ _) as [vt vr] eqn:E.
    pose proof (confirmed_reports _ _ _ E) as H.
    destruct (length vt =? 0)%nat eqn:E1; [|now rewrite H].
    apply Nat.eqb_eq in E1. destruct vt; [|discriminate E1].
    now rewrite <- H.
Qed.

Lemma processTransactions_aligned (txs : list transaction) :
  map formatOutput
    (processTransactions L txs (map (fun t => getTransactionReceipt L (tx_hash t)) txs))
  = omap (fun t => classify L t (getTransactionReceipt L (tx_hash t))) txs.
Proof.
  induction txs as [|t txs IH]; [reflexivity|].
  cbn [map processTransactions tl omap list_omap].
  fold (omap (fun t => classify L t (getTransactionReceipt L (tx_hash t))) txs).
  unfold classify at 1.
  destruct (parseTransaction L t _) as [p|]; cbn [fmap option_fmap option_map map];
    now rewrite IH.
Qed.

Lemma scan_block_eq (b : Z) :
  scan_block L watched cfg b
  = omap (fun t => classify L t (getTransactionReceipt L (tx_hash t)))
         (relevant_transactions L watched cfg b).
Proof.
  unfold scan_block. fold (relevant_transactions L watched cfg b).
  destruct (relevant_transactions L watched cfg b) as [|t l] eqn:E; [reflexivity|].
  cbn [length Nat.ltb Nat.leb]. apply processTransactions_aligned.
Qed.

Lemma contribution_eq (b : Z) :
  contribution L watched cfg b
  = omap (report_confirmed L) (relevant_transactions L watched cfg b).
Proof. unfold contribution. now rewrite processBlock_eq. Qed.

Lemma scan_loop_flat_map (n : nat) (b : Z) :
  scan_loop L watched cfg n b
  = flat_map (scan_block L watched cfg) (map (fun i => b + Z.of_nat i) (seq 0 n)).
Proof.
  revert b. induction n as [|n IH]; intros b; [reflexivity|].
  cbn [scan_loop seq map flat_map]. rewrite IH, <- seq_shift, map_map.
  replace (b + Z.of_nat 0) with b by lia.
  do 2 f_equal. apply map_ext. intros i. lia.
Qed.

Lemma scanBlockRangeParallel_flat (startBlock endBlock : Z) :
  scanBlockRangeParallel L watched cfg startBlock endBlock
  = Returned (flat_map (contribution L watched cfg)
                (blockNumbers startBlock (endBlock - startBlock + 1))).
Proof.
  unfold scanBlockRangeParallel. f_equal.
  destruct (Z.le_gt_cases (endBlock - startBlock + 1) 0) as [Hle|Hgt].
  - unfold blockNumbers. replace (Z.to_nat (endBlock - startBlock + 1)) with 0%nat by lia.
    reflexivity.
  - apply scan_waves_flat_map; lia.
Qed.

Lemma blockNumbers_range (startBlock totalBlocks b : Z) :
  b ∈ blockNumbers startBlock totalBlocks <-> startBlock <= b < startBlock + totalBlocks.
Proof.
  unfold blockNumbers. rewrite list_elem_of_fmap. split.
  - intros (i & -> & Hi). apply list_elem_of_In, in_seq in Hi. lia.
  - intros Hb. exists (Z.to_nat (b - startBlock)). split; [lia|].
    apply list_elem_of_In, in_seq. lia.
Qed.

Lemma flat_map_ext_elem {A B} (f g : A -> list B) (l : list A) :
  (forall a, a ∈ l -> f a = g a) -> flat_map f l = flat_map g l.
Proof.
  induction l as [|a l IH]; intros H; [reflexivity|]. simpl.
  rewrite (H a) by apply list_elem_of_here.
  rewrite IH; [reflexivity|]. intros a' Ha'. apply H. now apply list_elem_of_further.
Qed.

Lemma omap_ext_elem {A B} (f g : A -> option B) (l : list A) :
  (forall a, a ∈ l -> f a = g a) -> omap f l = omap g l.
Proof.
  induction l as [|a l IH]; intros H; [reflexivity|].
  cbn [omap list_omap]. fold (omap f l) (omap g l).
  rewrite (H a) by apply list_elem_of_here.
  rewrite IH; [reflexivity|]. intros a' Ha'. apply H. now apply list_elem_of_further.
Qed.

Lemma relevant_transactions_spec (b : Z) (t : transaction) :
  t ∈ relevant_transactions L watched cfg b <->
  t ∈ getBlockTransactions L b /\ filterTransaction watched cfg t = true.
Proof.
  unfold relevant_transactions. rewrite list_elem_of_filter. tauto.
Qed.

Lemma flat_map_elem_of {A B} (f : A -> list B) (l : list A) (y : B) :
  y ∈ flat_map f l <-> exists x, x ∈ l /\ y ∈ f x.
Proof.
  rewrite list_elem_of_In, in_flat_map. split; intros (x & H1 & H2); exists x;
    rewrite ?list_elem_of_In in *; auto.
Qed.

Lemma filterTransaction_spec (t : transaction) :
  filterTransaction watched cfg t = true <->
  minValue cfg <= tx_value t <= maxValue cfg /\
  (toLowerCase (tx_from t) ∈ watched \/
   exists a, tx_to t = Some a /\ toLowerCase a ∈ watched).
Proof.
  unfold filterTransaction, isTransactionRelevant.
  destruct (tx_value t <? minValue cfg) eqn:E1; cbn [orb].
  { apply Z.ltb_lt in E1. split; [discriminate|lia]. }
  destruct (maxValue cfg <? tx_value t) eqn:E2.
  { apply Z.ltb_lt in E2. split; [discriminate|lia]. }
  apply Z.ltb_ge in E1, E2.
  destruct (bool_decide (toLowerCase (tx_from t) ∈ watched)) eqn:E3; cbn [orb negb].
  { apply bool_decide_eq_true in E3. split; auto. }
  apply bool_decide_eq_false in E3.
  destruct (tx_to t) as [a|].
  - destruct (bool_decide (toLowerCase a ∈ watched)) eqn:E4; cbn [negb].
    + apply bool_decide_eq_true in E4. split; eauto 6.
    + apply bool_decide_eq_false in E4. split; [discriminate|].
      intros (_ & [H|(a' & [= <-] & H)]); contradiction.
  - cbn [negb]. split; [discriminate|].
    intros (_ & [H|(a' & [=] & H)]); contradiction.
Qed.

Lemma classify_ids (t : transaction) (r : option receipt) (d : delta) :
  classify L t r = Some d ->
  d_hash d = tx_hash t /\ d_blockNumber d = tx_blockNumber t /\ d_from d = tx_from t /\
  d_to d = tx_to t /\ d_erc20Changes d = omap (decode_log L) (receipt_logs r).
Proof.
  unfold classify. destruct (parseTransaction L t r) as [p|] eqn:E; [|discriminate].
  intros [= <-]. destruct (parseTransaction_fields L t r p E) as (H1 & H2 & H3 & H4).
  pose proof (parseTransaction_to L t r p E). simpl. auto.
Qed.

Lemma classify_total (t : transaction) (r : option receipt) :
  is_Some (classify L t r).
Proof. unfold classify. rewrite parseTransaction_eq. simpl. eauto. Qed.

Lemma StronglySorted_app_le (l1 l2 : list Z) :
  StronglySorted Z.le l1 -> StronglySorted Z.le l2 ->
  (forall x y, x ∈ l1 -> y ∈ l2 -> x <= y) ->
  StronglySorted Z.le (l1 ++ l2).
Proof.
  induction 1 as [|a l1 Hs IH Ha]; intros H2 Hle; [exact H2|].
  simpl. constructor.
  - apply IH; [exact H2|]. intros x y Hx Hy. apply Hle; [now apply list_elem_of_further|exact Hy].
  - apply Forall_app. split; [exact Ha|].
    apply Forall_forall. intros y Hy. apply Hle; [apply list_elem_of_here|exact Hy].
Qed.

Lemma StronglySorted_constant (b : Z) (l : list Z) :
  Forall (fun z => z = b) l -> StronglySorted Z.le l.
Proof.
  induction 1 as [|z l -> Hl IH]; constructor; [exact IH|].
  eapply Forall_impl; [exact Hl|]. simpl. intros z ->. lia.
Qed.

Lemma blockNumbers_sorted (startBlock totalBlocks : Z) :
  StronglySorted Z.lt (blockNumbers startBlock totalBlocks).
Proof.
  unfold blockNumbers. generalize 0%nat.
  induction (Z.to_nat totalBlocks) as [|n IH]; intros k; [constructor|].
  cbn [seq map]. constructor; [apply IH|].
  apply Forall_forall. intros y Hy. apply list_elem_of_fmap in Hy as (i & -> & Hi).
  apply list_elem_of_In, in_seq in Hi. lia.
Qed.

End ScannerMore.

Section ScannerExtras.
Import JS TransactionProcessor BlockScanner.

Variable L : ledger.
Variable watched : gset string.
Variable cfg : BlockScanner.config.

(** X13. [processBlock] reports the transactions of the block that pass the
    filter and have a receipt, in the order of the block, each classified
    with its receipt; a transaction whose receipt is missing or whose
    receipt fetch failed is left out. *)
Theorem processBlock_confirmed_only (b : Z) :
  processBlock L watched cfg b
    = Returned (omap (report_confirmed L) (relevant_transactions L watched cfg b)) /\
  (forall d, d ∈ contribution L watched cfg b ->
     exists t r, t ∈ getBlockTransactions L b /\ filterTransaction watched cfg t = true /\
                 getTransactionReceipt L (tx_hash t) = Some r /\
                 classify L t (Some r) = Some d) /\
  (forall t, t ∈ getBlockTransactions L b ->
     (forall e, provider_getTransactionReceipt L (tx_hash t) <> Thrown e) ->
     provider_getTransactionReceipt L (tx_hash t) <> Returned None ->
     filterTransaction watched cfg t = true ->
     exists d, d ∈ contribution L watched cfg b /\ d_hash d = tx_hash t).
Proof.
  split; [apply processBlock_eq|]. split.
  - intros d Hd. rewrite contribution_eq in Hd.
    apply list_elem_of_omap in Hd as (t & Ht & Hd).
    apply relevant_transactions_spec in Ht as [Ht Hf].
    unfold report_confirmed in Hd.
    destruct (getTransactionReceipt L (tx_hash t)) as [r|] eqn:Er; [|discriminate].
    exists t, r. auto.
  - intros t Ht Hne Hnn Hf. rewrite contribution_eq.
    assert (Hr : exists r, getTransactionReceipt L (tx_hash t) = Some r).
    { unfold getTransactionReceipt.
      destruct (provider_getTransactionReceipt L (tx_hash t)) as [[r|]|e]; simpl; eauto.
      - now contradiction Hnn.
      - now contradiction (Hne e). }
    destruct Hr as [r Hr].
    destruct (classify_total L t (Some r)) as [d Hd].
    exists d. split; [|apply (classify_ids L t (Some r) d Hd)].
    apply list_elem_of_omap. exists t. split.
    + apply relevant_transactions_spec. auto.
    + unfold report_confirmed. now rewrite Hr.
Qed.

(** X14. When every transaction of the range that passes the filter has a
    receipt, the sequential scan [scanBlockRange] and the parallel scan
    [scanBlockRangeParallel] return the same list. *)
Theorem scanBlockRange_agrees (startBlock endBlock : Z) :
  receipts_available L watched cfg startBlock endBlock ->
  scanBlockRange L watched cfg startBlock endBlock
  = scanBlockRangeParallel L watched cfg startBlock endBlock.
Proof.
  intros Hav. rewrite scanBlockRangeParallel_flat. unfold scanBlockRange. f_equal.
  rewrite scan_loop_flat_map. fold (blockNumbers startBlock (endBlock - startBlock + 1)).
  apply flat_map_ext_elem. intros b Hb. apply blockNumbers_range in Hb.
  rewrite scan_block_eq, contribution_eq. apply omap_ext_elem. intros t Ht.
  apply relevant_transactions_spec in Ht as [Ht Hf].
  destruct (Hav b t) as [r Hr]; [lia|exact Ht|exact Hf|].
  unfold report_confirmed. now rewrite Hr.
Qed.

(** X15. The sequential scan reports every transaction that passes the
    filter, one delta each in the order of the block; one whose receipt is
    missing is reported like the others, with no token change. The parallel
    scan never reports more. *)
Theorem scan_block_reports_all (b : Z) :
  map d_hash (scan_block L watched cfg b)
    = map tx_hash (relevant_transactions L watched cfg b) /\
  (forall t d, t ∈ relevant_transactions L watched cfg b ->
     getTransactionReceipt L (tx_hash t) = None ->
     classify L t None = Some d ->
     d ∈ scan_block L watched cfg b /\ d_erc20Changes d = []) /\
  (length (contribution L watched cfg b) <= length (scan_block L watched cfg b))%nat.
Proof.
  rewrite scan_block_eq, contribution_eq. split; [|split].
  - induction (relevant_transactions L watched cfg b) as [|t l IH]; [reflexivity|].
    cbn [omap list_omap map].
    fold (omap (fun t => classify L t (getTransactionReceipt L (tx_hash t))) l).
    destruct (classify L t _) as [d|] eqn:E.
    + cbn [map]. rewrite IH. f_equal. apply (classify_ids L t _ d E).
    + destruct (classify_total L t (getTransactionReceipt L (tx_hash t))) as [d Hd].
      congruence.
  - intros t d Ht Hr Hd. split.
    + apply list_elem_of_omap. exists t. split; [exact Ht|]. now rewrite Hr.
    + now destruct (classify_ids L t None d Hd) as (_ & _ & _ & _ & ->).
  - induction (relevant_transactions L watched cfg b) as [|t l IH]; [reflexivity|].
    cbn [omap list_omap].
    fold (omap (fun t => classify L t (getTransactionReceipt L (tx_hash t))) l).
    fold (omap (report_confirmed L) l).
    destruct (classify_total L t (getTransactionReceipt L (tx_hash t))) as [d ->].
    destruct (report_confirmed L t); cbn [length]; lia.
Qed.

(** X16. Every delta of a parallel scan comes from a transaction of a block
    of the range: the transaction has a receipt, its value lies between the
    configured bounds, and its sender or its recipient, in lower case, is
    watched. *)
Theorem scan_results_sound (startBlock endBlock : Z) (deltas : list delta) (d : delta) :
  scanBlockRangeParallel L watched cfg startBlock endBlock = Returned deltas ->
  d ∈ deltas ->
  exists b t r,
    startBlock <= b <= endBlock /\
    t ∈ getBlockTransactions L b /\
    getTransactionReceipt L (tx_hash t) = Some r /\
    classify L t (Some r) = Some d /\
    d_hash d = tx_hash t /\ d_from d = tx_from t /\ d_to d = tx_to t /\
    minValue cfg <= tx_value t <= maxValue cfg /\
    (toLowerCase (d_from d) ∈ watched \/
     exists a, d_to d = Some a /\ toLowerCase a ∈ watched).
Proof.
  rewrite scanBlockRangeParallel_flat. intros [= <-] Hd.
  apply flat_map_elem_of in Hd as (b & Hb & Hd).
  apply blockNumbers_range in Hb.
  rewrite contribution_eq in Hd.
  apply list_elem_of_omap in Hd as (t & Ht & Hd).
  apply relevant_transactions_spec in Ht as [Ht Hf].
  unfold report_confirmed in Hd.
  destruct (getTransactionReceipt L (tx_hash t)) as [r|] eqn:Er; [|discriminate].
  destruct (classify_ids L t (Some r) d Hd) as (H1 & H2 & H3 & H4 & _).
  apply filterTransaction_spec in Hf as [Hv Hw].
  exists b, t, r. rewrite H3, H4. repeat split; auto; lia.
Qed.

(** X17. When the transactions of a fetched block carry the number of the
    block, the deltas of a parallel scan come in ascending order of block
    number, all within the range. *)
Theorem scan_results_ascending (startBlock endBlock : Z) (deltas : list delta) :
  numbered L ->
  scanBlockRangeParallel L watched cfg startBlock endBlock = Returned deltas ->
  StronglySorted Z.le (map d_blockNumber deltas) /\
  Forall (fun d => startBlock <= d_blockNumber d <= endBlock) deltas.
Proof.
  intros Hnum. rewrite scanBlockRangeParallel_flat. intros [= <-].
  assert (Hblock : forall b d, d ∈ contribution L watched cfg b -> d_blockNumber d = b).
  { intros b d Hd. rewrite contribution_eq in Hd.
    apply list_elem_of_omap in Hd as (t & Ht & Hd).
    apply relevant_transactions_spec in Ht as [Ht _].
    unfold report_confirmed in Hd.
    destruct (getTransactionReceipt L (tx_hash t)) as [r|]; [|discriminate].
    destruct (classify_ids L t (Some r) d Hd) as (_ & -> & _).
    unfold getBlockTransactions in Ht.
    destruct (provider_getBlock L b) as [[blk|]|e] eqn:Eb; simpl in Ht;
      try (now apply elem_of_nil in Ht).
    destruct (b_prefetchedTransactions blk) as [txs|] eqn:Et;
      try (now apply elem_of_nil in Ht).
    destruct (b_timestamp blk =? 0); simpl in Ht; try (now apply elem_of_nil in Ht).
    exact (Hnum b blk txs t Eb Et Ht). }
  split.
  - pose proof (blockNumbers_sorted startBlock (endBlock - startBlock + 1)) as Hs.
    induction Hs as [|b bs Hs IH Hb]; [constructor|].
    cbn [flat_map]. rewrite map_app. apply StronglySorted_app_le.
    + apply (StronglySorted_constant b).
      apply Forall_forall. intros z Hz. apply list_elem_of_fmap in Hz as (d & -> & Hd).
      now apply Hblock.
    + exact IH.
    + intros x y Hx Hy.
      apply list_elem_of_fmap in Hx as (dx & -> & Hdx).
      apply list_elem_of_fmap in Hy as (dy & -> & Hdy).
      apply flat_map_elem_of in Hdy as (b' & Hb' & Hdy).
      rewrite (Hblock b dx Hdx), (Hblock b' dy Hdy).
      rewrite Forall_forall in Hb. specialize (Hb b' Hb'). lia.
  - apply Forall_forall. intros d Hd.
    apply flat_map_elem_of in Hd as (b & Hb & Hd).
    apply blockNumbers_range in Hb. rewrite (Hblock b d Hd). lia.
Qed.

(** X18. The watched set is kept in lower case: adding a valid address in
    any case makes every transaction it sends or receives relevant, an
    invalid address is ignored, and removing an address in any case undoes
    the addition. *)
Theorem watched_addresses_case (address : string) (t : transaction) :
  (isAddress L address = true ->
   (toLowerCase (tx_from t) = toLowerCase address \/
    exists a, tx_to t = Some a /\ toLowerCase a = toLowerCase address) ->
   isTransactionRelevant (addWatchedAddress L watched address) t = true) /\
  (isAddress L address = false -> addWatchedAddress L watched address = watched) /\
  (toLowerCase address ∉ watched ->
   removeWatchedAddress (addWatchedAddress L watched address) address = watched) /\
  (isTransactionRelevant (removeWatchedAddress watched address) t = true ->
   isTransactionRelevant watched t = true /\
   (toLowerCase (tx_from t) <> toLowerCase address \/
    exists a, tx_to t = Some a /\ toLowerCase a <> toLowerCase address)).
Proof.
  unfold addWatchedAddress, removeWatchedAddress, isTransactionRelevant.
  split; [|split; [|split]].
  - intros -> [H|(a & Ha & H)].
    + rewrite H.
      assert (Hin : toLowerCase address ∈ ({[toLowerCase address]} ∪ watched : gset string))
        by (apply elem_of_union; left; now apply elem_of_singleton).
      rewrite (bool_decide_eq_true_2 _ Hin). reflexivity.
    + rewrite Ha, H.
      assert (Hin : toLowerCase address ∈ ({[toLowerCase address]} ∪ watched : gset string))
        by (apply elem_of_union; left; now apply elem_of_singleton).
      rewrite (bool_decide_eq_true_2 _ Hin). apply orb_true_r.
  - now intros ->.
  - intros Hn. apply set_eq. intros x.
    assert (Hx : x ∈ watched -> x <> toLowerCase address) by (intros Hx ->; contradiction).
    destruct (isAddress L address);
      rewrite elem_of_difference, ?elem_of_union, elem_of_singleton; tauto.
  - intros H. apply orb_true_iff in H as [H|H].
    + apply bool_decide_eq_true in H.
      apply elem_of_difference in H as [Hin Hne]. rewrite elem_of_singleton in Hne. split.
      * rewrite (bool_decide_eq_true_2 _ Hin). reflexivity.
      * now left.
    + destruct (tx_to t) as [a|]; [|discriminate].
      apply bool_decide_eq_true in H.
      apply elem_of_difference in H as [Hin Hne]. rewrite elem_of_singleton in Hne. split.
      * rewrite (bool_decide_eq_true_2 _ Hin). apply orb_true_r.
      * right. exists a. split; [reflexivity|exact Hne].
Qed.

End ScannerExtras.

(** ** More on the activity analysis *)

Section AnalyzerMore.
Import JS TransactionProcessor MessageTemplates.

Lemma fold_analyze_change_entries (txFrom : string) (cs : list erc20_change) (a : analysis) :
  walletAddress (fold_left (analyze_change txFrom) cs a) = walletAddress a /\
  received (fold_left (analyze_change txFrom) cs a)
    = received a ++ map entry_of (filter (fun c => toLowerCase (c_to c) = txFrom) cs) /\
  sent (fold_left (analyze_change txFrom) cs a)
    = sent a ++ map entry_of (filter (fun c => toLowerCase (c_from c) = txFrom) cs).
Proof.
  revert a. induction cs as [|c cs IH]; intros a.
  - simpl. now rewrite !app_nil_r.
  - cbn [fold_left]. destruct (IH (analyze_change txFrom a c)) as (-> & -> & ->).
    rewrite !filter_cons. unfold analyze_change.
    destruct (String.eqb_spec (toLowerCase (c_to c)) txFrom) as [Ht|Ht];
      destruct (String.eqb_spec (toLowerCase (c_from c)) txFrom) as [Hf|Hf];
      destruct (decide (toLowerCase (c_to c) = txFrom)); try contradiction;
      destruct (decide (toLowerCase (c_from c) = txFrom)); try contradiction;
      cbn [walletAddress received sent push_received push_sent map];
      rewrite <- ?app_assoc; auto.
Qed.

Lemma minus_not_zero (s : string) : String.eqb ("-" +:+ s) "0" = false.
Proof. reflexivity. Qed.

End AnalyzerMore.

Section AnalyzerExtras.
Import JS TransactionProcessor MessageTemplates.

(** X19. What the analysis lists. For a sender that is not tracked: nothing.
    For a tracked sender: under [received], the token changes credited to the
    sender, in order; under [sent], the native amount when one leaves the
    sender, then the token changes debited from the sender, in order. A
    native amount received is never listed. *)
Theorem analyzeTransaction_entries (tx : delta) (monitoredAddresses : gset string)
    (addressNames : gmap string string) (a : analysis) :
  analyzeTransaction tx monitoredAddresses addressNames = Returned a ->
  walletAddress a = d_from tx /\
  (toLowerCase (d_from tx) ∉ monitoredAddresses ->
     hasActivity a = false /\ received a = [] /\ sent a = []) /\
  (toLowerCase (d_from tx) ∈ monitoredAddresses ->
     received a
       = map entry_of (filter (fun c => toLowerCase (c_to c) = toLowerCase (d_from tx))
                              (d_erc20Changes tx)) /\
     sent a
       = native_entry tx
         ++ map entry_of (filter (fun c => toLowerCase (c_from c) = toLowerCase (d_from tx))
                                 (d_erc20Changes tx))).
Proof.
  unfold analyzeTransaction, native_entry, obind.
  set (bf := String.eqb (bnb_from (d_bnbChange tx)) "0").
  set (bt := String.eqb (bnb_to (d_bnbChange tx)) "0").
  destruct (decide (toLowerCase (d_from tx) ∈ monitoredAddresses)) as [Hin|Hout].
  - rewrite !(bool_decide_eq_true_2 _ Hin).
    assert (Hempty : d_erc20Changes tx = [] \/ (0 <? length (d_erc20Changes tx))%nat = true).
    { destruct (d_erc20Changes tx); [now left|now right]. }
    destruct (negb bf || negb bt) eqn:Eb.
    + destruct (d_to tx) as [to|]; [|discriminate].
      destruct Hempty as [-> | ->].
      * cbn [length Nat.ltb Nat.leb]. rewrite !filter_nil.
        destruct bf; cbn [negb]; intros [= <-]; simpl; intuition auto.
      * destruct bf; cbn [negb]; intros [= <-];
          match goal with |- context [fold_left (analyze_change ?f) ?l ?x] =>
            destruct (fold_analyze_change_entries f l x) as (-> & -> & ->) end;
          simpl; intuition auto.
    + assert (Hbf : bf = true) by (destruct bf; [reflexivity|discriminate Eb]).
      rewrite Hbf. destruct Hempty as [-> | ->].
      * cbn [length Nat.ltb Nat.leb]. rewrite !filter_nil.
        intros [= <-]; simpl; destruct (d_to tx); intuition auto.
      * intros [= <-];
          match goal with |- context [fold_left (analyze_change ?f) ?l ?x] =>
            destruct (fold_analyze_change_entries f l x) as (-> & -> & ->) end;
          simpl; destruct (d_to tx); intuition auto.
  - rewrite !(bool_decide_eq_false_2 _ Hout).
    assert (Hno : forall x : analysis,
              (if (0 <? length (d_erc20Changes tx))%nat then Returned x else Returned x)
              = Returned x).
    { intros x. destruct (0 <? _)%nat; reflexivity. }
    destruct (negb bf || negb bt).
    + destruct (d_to tx) as [to|]; [|discriminate]. rewrite Hno.
      intros [= <-]. simpl. split; [reflexivity|]. split; [auto|]. intros H. contradiction.
    + rewrite Hno. intros [= <-]. simpl. split; [reflexivity|]. split; [auto|].
      intros H. contradiction.
Qed.

(** X20. The analysis fails exactly on a delta with a native change and no
    recipient. For the delta of a transaction this is a contract creation
    that carries value, whoever sent it. *)
Theorem analyzeTransaction_throws (L : ledger) (t : transaction) (r : option receipt)
    (d : delta) (monitoredAddresses : gset string) (addressNames : gmap string string) :
  classify L t r = Some d ->
  ((exists e, analyzeTransaction d monitoredAddresses addressNames = Thrown e)
   <-> 0 < tx_value t /\ tx_to t = None).
Proof.
  unfold classify. destruct (parseTransaction L t r) as [p|] eqn:Hp; [|discriminate].
  intros [= <-].
  pose proof (parseTransaction_change L t r p Hp) as Hch.
  pose proof (parseTransaction_to L t r p Hp) as Hto.
  unfold analyzeTransaction, obind. cbn [formatOutput d_bnbChange d_to d_from d_erc20Changes
    bnb_from bnb_to]. rewrite Hch, Hto.
  assert (Hno : forall x : analysis,
            (if (0 <? length (p_erc20Changes p))%nat
             then if bool_decide (toLowerCase (p_from p) ∈ monitoredAddresses)
                  then Returned (fold_left (analyze_change (toLowerCase (p_from p)))
                                           (p_erc20Changes p) (set_activity x))
                  else Returned x
             else Returned x) <> Thrown (TypeError "tx.to") /\
            forall e, (if (0 <? length (p_erc20Changes p))%nat
             then if bool_decide (toLowerCase (p_from p) ∈ monitoredAddresses)
                  then Returned (fold_left (analyze_change (toLowerCase (p_from p)))
                                           (p_erc20Changes p) (set_activity x))
                  else Returned x
             else Returned x) <> Thrown e).
  { intros x. split; [|intros e]; destruct (0 <? _)%nat; try destruct (bool_decide _);
      discriminate. }
  destruct (0 <? tx_value t) eqn:Ev.
  - apply Z.ltb_lt in Ev. cbn [bnb_from bnb_to]. rewrite minus_not_zero. cbn [negb orb].
    destruct (tx_to t) as [to|].
    + split; [|intros [_ H]; discriminate H].
      intros [e He]. exfalso.
      destruct (bool_decide _); exact (proj2 (Hno _) e He).
    + split; [intros _; split; [exact Ev|reflexivity]|]. intros _. eexists. reflexivity.
  - apply Z.ltb_ge in Ev. cbn [bnb_from bnb_to String.eqb Ascii.eqb negb orb].
    simpl (negb (String.eqb "0" "0") || negb (String.eqb "0" "0")).
    cbv iota. split; [|intros [H _]; lia].
    intros [e He]. exfalso. exact (proj2 (Hno _) e He).
Qed.

End AnalyzerExtras.

(** ** More on the monitor *)

Section Frames.
Import WalletMonitor.

Variable R : monitor -> monitor -> Prop.
Hypothesis R_refl : forall m, R m m.
Hypothesis R_trans : forall m1 m2 m3, R m1 m2 -> R m2 m3 -> R m1 m3.

Lemma frames_ret {A} (a : A) : frames R (ret a).
Proof. intros m. apply R_refl. Qed.

Lemma frames_throw {A} (e : exn) : frames R (@throw monitor A e).
Proof. intros m. apply R_refl. Qed.

Lemma frames_get_state : frames R (@get_state monitor).
Proof. intros m. apply R_refl. Qed.

Lemma frames_await {A} (r : outcome A) : frames R (await r).
Proof. intros m. apply R_refl. Qed.

Lemma frames_modify (f : monitor -> monitor) :
  (forall m, R m (f m)) -> frames R (modify f).
Proof. intros Hf m. apply Hf. Qed.

Lemma frames_bind {A B} (c : Eff monitor A) (k : A -> Eff monitor B) :
  frames R c -> (forall a, frames R (k a)) -> frames R (bind c k).
Proof.
  intros Hc Hk m. unfold bind. specialize (Hc m).
  destruct (c m) as [[a|e] m1]; simpl in *; [|exact Hc].
  eapply R_trans; [exact Hc|apply Hk].
Qed.

Lemma frames_try_catch {A} (c : Eff monitor A) (h : exn -> Eff monitor A) :
  frames R c -> (forall e, frames R (h e)) -> frames R (try_catch c h).
Proof.
  intros Hc Hh m. unfold try_catch. specialize (Hc m).
  destruct (c m) as [[a|e] m1]; simpl in *; [exact Hc|].
  eapply R_trans; [exact Hc|apply Hh].
Qed.

Lemma frames_for_each {A} (f : A -> Eff monitor unit) (l : list A) :
  (forall x, x ∈ l -> frames R (f x)) -> frames R (for_each f l).
Proof.
  induction l as [|x rest IH]; intros Hf; simpl.
  - apply frames_ret.
  - apply frames_bind; [apply Hf, list_elem_of_here|intros _].
    apply IH. intros y Hy. apply Hf. now apply list_elem_of_further.
Qed.

End Frames.

Section Enrollment.
Import JS TransactionProcessor MessageTemplates WalletMonitor.

Variable cfg : config.
Variable W : world.

Lemma extends_by_refl (Q : string -> Prop) (m : monitor) : extends_by cfg W Q m m.
Proof. split; [reflexivity|]. intros w Hw. now left. Qed.

Lemma extends_by_trans (Q : string -> Prop) (m1 m2 m3 : monitor) :
  extends_by cfg W Q m1 m2 -> extends_by cfg W Q m2 m3 -> extends_by cfg W Q m1 m3.
Proof.
  intros [H1 H1'] [H2 H2']. split; [congruence|].
  intros w Hw. destruct (H2' w Hw) as [Hin|Hen].
  - apply H1', Hin.
  - right. now rewrite <- H1.
Qed.

Lemma set_redis_same (m : monitor) : set_redis (redis m) m = m.
Proof. destruct m. reflexivity. Qed.

(** A step that touches neither the store nor the tracked set. *)
Lemma extends_by_step (Q : string -> Prop) (f : monitor -> monitor) :
  (forall m, redis (f m) = redis m /\ monitoredAddresses (f m) = monitoredAddresses m) ->
  frames (extends_by cfg W Q) (modify f).
Proof.
  intros Hf. apply frames_modify. intros m. destruct (Hf m) as [H1 H2].
  split; [exact H1|]. intros w Hw. left. now rewrite <- H2.
Qed.

Lemma extends_by_bot_sendHtml (Q : string -> Prop) (msg : html) :
  frames (extends_by cfg W Q) (bot_sendHtml cfg msg).
Proof. apply extends_by_step. intros m. split; reflexivity. Qed.

Lemma extends_by_addNewWallet (Q : string -> Prop) (w from : string) :
  Q w -> isEOA (w_ledger W) w = true ->
  frames (extends_by cfg W Q) (addNewWallet cfg W w from).
Proof.
  intros HQ Heoa m. unfold addNewWallet, try_catch.
  unfold bind at 1. unfold on_redis. rewrite existsWallet_eq, set_redis_same.
  destruct (RefRedis.hashes (redis m) !! RefRedis.nodeKey (cfg_redisPrefix cfg) w) as [h|] eqn:Eh.
  { rewrite bool_decide_eq_true_2 by eauto. simpl. apply extends_by_refl. }
  rewrite bool_decide_eq_false_2 by (intros [x Hx]; discriminate). cbn [negb].
  unfold bind at 1. unfold get_state at 1.
  unfold bind at 1. unfold await at 1.
  destruct (w_isCex W w) as [[|]|e] eqn:Ec; try (simpl; apply extends_by_refl).
  simpl. split; [reflexivity|]. intros w' Hw'. simpl in Hw'.
  apply elem_of_union in Hw' as [Hw'|Hw']; [|now left].
  apply elem_of_singleton in Hw' as ->. right. repeat split; assumption.
Qed.

Lemma extends_by_checkNewWalletFromBNB (tx : delta) :
  frames (extends_by cfg W (recipient_of tx)) (checkNewWalletFromBNB cfg W tx).
Proof.
  intros m. unfold checkNewWalletFromBNB, lower_to.
  destruct (d_to tx) as [a|] eqn:Ea; [|apply extends_by_refl].
  unfold bind at 1. unfold ret at 1. unfold bind at 1. unfold get_state at 1.
  destruct (negb (bool_decide _)); [|apply extends_by_refl].
  destruct (_ && _); [|apply extends_by_refl].
  destruct (isEOA (w_ledger W) (toLowerCase a)) eqn:Eeoa; [|apply extends_by_refl].
  apply extends_by_addNewWallet; [|exact Eeoa].
  left. exists a. auto.
Qed.

Lemma extends_by_check_change (tx : delta) (c : erc20_change) :
  c ∈ d_erc20Changes tx ->
  frames (extends_by cfg W (recipient_of tx)) (check_change cfg W c).
Proof.
  intros Hc m. unfold check_change.
  unfold bind at 1. unfold get_state at 1.
  destruct (_ && _); [|apply extends_by_refl].
  destruct (isEOA (w_ledger W) (toLowerCase (c_to c))) eqn:Eeoa; [|apply extends_by_refl].
  apply extends_by_addNewWallet; [|exact Eeoa].
  right. exists c. auto.
Qed.

Lemma extends_by_checkNewWallet (tx : delta) :
  frames (extends_by cfg W (recipient_of tx)) (checkNewWallet cfg W tx).
Proof.
  pose proof (extends_by_refl (recipient_of tx)) as Hrefl.
  pose proof (extends_by_trans (recipient_of tx)) as Htrans.
  unfold checkNewWallet.
  apply frames_try_catch; [assumption..| |intros; now apply frames_ret].
  apply frames_bind; [assumption..|apply extends_by_checkNewWalletFromBNB|intros _].
  unfold checkNewWalletFromERC20.
  destruct (0 <? _)%nat; [|now apply frames_ret].
  destruct (_ && _); [|now apply frames_ret].
  apply frames_for_each; [assumption..|]. intros c Hc.
  now apply extends_by_check_change.
Qed.

Lemma extends_by_process_one (tx : delta) :
  frames (extends_by cfg W (recipient_of tx)) (process_one cfg W tx).
Proof.
  pose proof (extends_by_refl (recipient_of tx)) as Hrefl.
  pose proof (extends_by_trans (recipient_of tx)) as Htrans.
  unfold process_one.
  apply frames_bind; [assumption..| |intros _].
  - apply frames_try_catch; [assumption..| |intros; now apply frames_ret].
    apply frames_bind; [assumption..|now apply frames_get_state|]. intros m0.
    apply frames_bind; [assumption..|now apply frames_await|]. intros a.
    destruct (hasActivity a); [|now apply frames_ret].
    apply frames_bind; [assumption..| |intros _].
    + unfold sendTransactionNotification.
      apply frames_bind; [assumption..|apply extends_by_bot_sendHtml|intros _].
      apply extends_by_step. intros m. split; reflexivity.
    + destruct (cfg_enableNewWalletDetection cfg);
        [apply extends_by_checkNewWallet|now apply frames_ret].
  - apply extends_by_step. intros m. split; reflexivity.
Qed.

Lemma extends_by_weaken (Q Q' : string -> Prop) (m m' : monitor) :
  (forall w, Q w -> Q' w) -> extends_by cfg W Q m m' -> extends_by cfg W Q' m m'.
Proof.
  intros HQ [H1 H2]. split; [exact H1|]. intros w Hw.
  destruct (H2 w Hw) as [Hin|(Hq & He)]; [now left|right].
  split; [now apply HQ|exact He].
Qed.

Lemma extends_by_processTransactions (txs : list delta) :
  frames (extends_by cfg W (fun _ => True)) (processTransactions cfg W txs).
Proof.
  pose proof (extends_by_refl (fun _ => True)) as Hrefl.
  pose proof (extends_by_trans (fun _ => True)) as Htrans.
  unfold processTransactions. apply frames_for_each; [assumption..|].
  intros tx _ m. eapply extends_by_weaken; [|apply extends_by_process_one]. auto.
Qed.

Lemma extends_by_scanNewBlocks :
  frames (extends_by cfg W (fun _ => True)) (scanNewBlocks cfg W).
Proof.
  pose proof (extends_by_refl (fun _ => True)) as Hrefl.
  pose proof (extends_by_trans (fun _ => True)) as Htrans.
  unfold scanNewBlocks.
  apply frames_try_catch; [assumption..| |intros; now apply frames_throw].
  apply frames_bind; [assumption..|now apply frames_get_state|]. intros m0.
  destruct (_ <=? _); [now apply frames_ret|].
  apply frames_bind; [assumption..|now apply frames_await|]. intros results.
  apply frames_bind; [assumption..| |intros _].
  { apply extends_by_step. intros m. split; reflexivity. }
  apply frames_bind; [assumption..| |intros _].
  { destruct (0 <? _)%nat; [apply extends_by_processTransactions|now apply frames_ret]. }
  apply frames_bind; [assumption..| |intros _];
    apply extends_by_step; intros m; split; reflexivity.
Qed.

Lemma extends_by_loop_iteration :
  frames (extends_by cfg W (fun _ => True)) (loop_iteration cfg W).
Proof.
  pose proof (extends_by_refl (fun _ => True)) as Hrefl.
  pose proof (extends_by_trans (fun _ => True)) as Htrans.
  unfold loop_iteration.
  apply frames_try_catch; [assumption..|apply extends_by_scanNewBlocks|].
  intros e. unfold sendErrorNotification.
  apply frames_bind; [assumption..|now apply frames_get_state|].
  intros m0. apply extends_by_bot_sendHtml.
Qed.

End Enrollment.

Section MonitorExtras.
Import JS TransactionProcessor MessageTemplates WalletMonitor.

(** X21. Monitoring never writes to the store: after any number of
    iterations of the loop, whatever was scanned, notified or detected, the
    store is the one the loop started with, and every address the loop
    started to track has no node in it. *)
Theorem monitoring_never_writes_store (cfg : config) (worlds : list world) (m : monitor) :
  redis (startMonitoringLoop cfg worlds m) = redis m /\
  forall w, w ∈ monitoredAddresses (startMonitoringLoop cfg worlds m) ->
            w ∉ monitoredAddresses m ->
            node_of (cfg_redisPrefix cfg) (redis (startMonitoringLoop cfg worlds m)) w = None.
Proof.
  assert (H : redis (startMonitoringLoop cfg worlds m) = redis m /\
  forall w, w ∈ monitoredAddresses (startMonitoringLoop cfg worlds m) ->
                w ∈ monitoredAddresses m \/
                RefRedis.hashes (redis m) !! RefRedis.nodeKey (cfg_redisPrefix cfg) w = None).
  { revert m. induction worlds as [|W rest IH]; intros m; simpl.
    - split; [reflexivity|]. intros w Hw. now left.
    - destruct (IH (snd (loop_iteration cfg W m))) as [H1 H2].
      destruct (extends_by_loop_iteration cfg W m) as [H3 H4].
      split; [congruence|]. intros w Hw.
      destruct (H2 w Hw) as [Hin|Hnone].
      + destruct (H4 w Hin) as [Hin'|(_ & _ & _ & Hnone)]; auto.
      + right. now rewrite <- H3. }
  destruct H as [H1 H2]. split; [exact H1|].
  intros w Hw Hnot. destruct (H2 w Hw) as [Hin|Hnone]; [contradiction|].
  unfold node_of. rewrite getNodeInfo_eq, H1, Hnone. reflexivity.
Qed.

(** X22. What processing one delta may start to track. An address that is
    tracked afterwards and was not before is a recipient the delta names, in
    lower case; it is an externally owned account, the reputation service
    answered [false] for it, it has no node in the store, detection is
    enabled and the sender of the delta was tracked. *)
Theorem process_one_enrolls_only (cfg : config) (W : world) (tx : delta) (m : monitor)
    (w : string) :
  w ∈ monitoredAddresses (snd (process_one cfg W tx m)) ->
  w ∉ monitoredAddresses m ->
  recipient_of tx w /\
  isEOA (w_ledger W) w = true /\
  w_isCex W w = Returned false /\
  node_of (cfg_redisPrefix cfg) (redis m) w = None /\
  cfg_enableNewWalletDetection cfg = true /\
  toLowerCase (d_from tx) ∈ monitoredAddresses m.
Proof.
  intros Hw Hnot.
  destruct (extends_by_process_one cfg W tx m) as [_ H].
  destruct (H w Hw) as [Hin|(HQ & Heoa & Hcex & Hnone)]; [contradiction|].
  split; [exact HQ|]. split; [exact Heoa|]. split; [exact Hcex|]. split.
  { unfold node_of. rewrite getNodeInfo_eq, Hnone. reflexivity. }
  assert (Hmon : forall f, monitoredAddresses (log_event f m) = monitoredAddresses m)
    by reflexivity.
  unfold process_one in Hw. unfold bind in Hw at 1. unfold try_catch in Hw.
  unfold bind in Hw at 1. unfold get_state in Hw at 1.
  unfold bind in Hw at 1. unfold await in Hw at 1.
  destruct (analyzeTransaction tx (monitoredAddresses m) (addressNames m)) as [a|e] eqn:Ea;
    [|simpl in Hw; contradiction].
  destruct (hasActivity a) eqn:Eact; [|simpl in Hw; contradiction].
  assert (Htracked : toLowerCase (d_from tx) ∈ monitoredAddresses m).
  { destruct (decide (toLowerCase (d_from tx) ∈ monitoredAddresses m)) as [Hin|Hout];
      [exact Hin|].
    revert Ea. unfold analyzeTransaction, obind.
    rewrite !(bool_decide_eq_false_2 _ Hout).
    destruct (_ || _); [destruct (d_to tx); [|discriminate]|];
      destruct (0 <? _)%nat; intros [= <-]; discriminate Eact. }
  split; [|exact Htracked].
  destruct (cfg_enableNewWalletDetection cfg); [reflexivity|].
  exfalso. apply Hnot. revert Hw. unfold sendTransactionNotification, bot_sendHtml.
  simpl. auto.
Qed.

End MonitorExtras.

Section ScanRanges.
Import JS TransactionProcessor MessageTemplates WalletMonitor.

Lemma scans_app (a b : list event) : scans (a ++ b) = scans a ++ scans b.
Proof.
  induction a as [|[s e|h|c] a IH]; simpl; [reflexivity| |exact IH|exact IH].
  now rewrite IH.
Qed.

Lemma scans_processed (txs : list delta) :
  scans (map (fun tx => Processed (d_hash tx)) txs) = [].
Proof. induction txs as [|tx txs IH]; [reflexivity|exact IH]. Qed.

Lemma contiguous_app (last : Z) (a b : list (Z * Z)) :
  contiguous last a -> contiguous (last_end last a) b -> contiguous last (a ++ b).
Proof.
  revert last. induction a as [|[s e] a IH]; intros last Ha Hb; [exact Hb|].
  simpl in *. destruct Ha as (H1 & H2 & H3). repeat split; auto.
Qed.

Lemma last_end_app (last : Z) (a b : list (Z * Z)) :
  last_end last (a ++ b) = last_end (last_end last a) b.
Proof. unfold last_end. apply fold_left_app. Qed.

Lemma loop_iteration_tick (cfg : config) (W : world) (m : monitor) :
  0 < cfg_batchSize cfg ->
  exists new,
    events (snd (loop_iteration cfg W m)) = events m ++ new /\
    contiguous (lastProcessedBlock m) (scans new) /\
    lastProcessedBlock (snd (loop_iteration cfg W m))
      = last_end (lastProcessedBlock m) (scans new) /\
    Forall (fun r => snd r - fst r < Z.max 20 (cfg_batchSize cfg) /\
                     snd r <= getLatestBlockNumber W) (scans new).
Proof.
  intros Hb. destruct (scanNewBlocks_tick cfg W m) as (m' & Hrun & Htick).
  unfold loop_iteration, try_catch. rewrite Hrun. cbn [snd]. cbv zeta in Htick.
  destruct (getLatestBlockNumber W <=? lastProcessedBlock m) eqn:Eh.
  - subst m'. exists []. rewrite app_nil_r. simpl. auto.
  - apply Z.leb_gt in Eh. destruct Htick as (results & _ & Hlast & Hev).
    pose proof (batch_end_bounds cfg _ _ Hb Eh) as Hbounds.
    eexists. split; [exact Hev|].
    cbn [scans]. rewrite scans_app, scans_processed. cbn [scans app contiguous].
    split; [lia|]. split; [exact Hlast|].
    constructor; [|constructor]. cbn [fst snd]. split; [|lia].
    unfold batch_end in *.
    destruct (Z.ltb_spec 20 (getLatestBlockNumber W - lastProcessedBlock m)); lia.
Qed.

(** X23. With a positive batch width, the ranges scanned over any number of
    iterations of the loop follow one another from the check point on: no
    block is skipped and none is scanned twice, no range is empty, and the
    check point ends at the end of the last range. *)
Theorem scans_contiguous (cfg : config) (worlds : list world) (m : monitor) :
  0 < cfg_batchSize cfg ->
  exists new,
    events (startMonitoringLoop cfg worlds m) = events m ++ new /\
    contiguous (lastProcessedBlock m) (scans new) /\
    lastProcessedBlock (startMonitoringLoop cfg worlds m)
      = last_end (lastProcessedBlock m) (scans new) /\
    Forall (fun r => snd r - fst r < Z.max 20 (cfg_batchSize cfg)) (scans new).
Proof.
  intros Hb. revert m. induction worlds as [|W rest IH]; intros m.
  - exists []. simpl. rewrite app_nil_r. auto.
  - destruct (loop_iteration_tick cfg W m Hb) as (new1 & He1 & Hc1 & Hl1 & Hw1).
    destruct (IH (snd (loop_iteration cfg W m))) as (new2 & He2 & Hc2 & Hl2 & Hw2).
    exists (new1 ++ new2). cbn [startMonitoringLoop].
    rewrite He2, He1, <- app_assoc, scans_app, last_end_app, Hl2, Hl1.
    split; [reflexivity|]. split; [|split; [reflexivity|]].
    + apply contiguous_app; [exact Hc1|]. now rewrite <- Hl1.
    + apply Forall_app. split; [|exact Hw2].
      eapply Forall_impl; [exact Hw1|]. simpl. tauto.
Qed.

End ScanRanges.

Section Management.
Import JS TransactionProcessor MessageTemplates WalletMonitor.

Variable cfg : config.
Variable W : world.

Lemma on_redis_existsWallet (w : string) (m : monitor) :
  on_redis (RefRedis.existsWallet (cfg_redisPrefix cfg) w) m
  = (Returned (bool_decide (is_Some (RefRedis.hashes (redis m)
                                       !! RefRedis.nodeKey (cfg_redisPrefix cfg) w))), m).
Proof. unfold on_redis. now rewrite existsWallet_eq, set_redis_same. Qed.

Lemma on_redis_getNodeInfo (w : string) (m : monitor) :
  on_redis (RefRedis.getNodeInfo (cfg_redisPrefix cfg) w) m
  = (Returned (node_of (cfg_redisPrefix cfg) (redis m) w), m).
Proof.
  unfold on_redis, node_of. rewrite getNodeInfo_eq. cbn [fst]. now rewrite set_redis_same.
Qed.

Lemma node_of_none (d : RefRedis.db) (w : string) :
  node_of (cfg_redisPrefix cfg) d w = None <->
  RefRedis.hashes d !! RefRedis.nodeKey (cfg_redisPrefix cfg) w = None.
Proof.
  rewrite node_of_eq. destruct (RefRedis.hashes d !! _); simpl; split; congruence.
Qed.

Lemma addWallet_refused (w nm fresh_id : string) (m : monitor) :
  w = "" \/ nm = "" \/ is_Some (node_of (cfg_redisPrefix cfg) (redis m) w) ->
  addWallet cfg W w nm fresh_id m = (Returned failure, m).
Proof.
  intros H. unfold addWallet, try_catch.
  destruct (String.eqb_spec w "") as [Hw|Hw]; [reflexivity|].
  destruct (String.eqb_spec nm "") as [Hn|Hn]; [reflexivity|].
  destruct H as [H|[H|H]]; try contradiction.
  cbn [orb]. unfold bind at 1. rewrite on_redis_existsWallet.
  rewrite bool_decide_eq_true_2; [reflexivity|].
  rewrite node_of_eq in H. now apply fmap_is_Some in H.
Qed.

Lemma removeWallet_refused (w : string) (m : monitor) :
  w = "" \/ node_of (cfg_redisPrefix cfg) (redis m) w = None ->
  removeWallet cfg w m = (Returned failure, m).
Proof.
  intros H. unfold removeWallet, try_catch.
  destruct (String.eqb_spec w "") as [Hw|Hw]; [reflexivity|].
  destruct H as [H|H]; [contradiction|].
  unfold bind at 1. rewrite on_redis_existsWallet.
  apply node_of_none in H. rewrite H.
  rewrite bool_decide_eq_false_2 by (intros [x Hx]; discriminate). reflexivity.
Qed.

Lemma load_each_spec (ws : list string) (m : monitor) :
  exists m',
    load_each cfg ws m = (Returned tt, m') /\
    redis m' = redis m /\
    watchedAddresses m' = watchedAddresses m /\
    lastProcessedBlock m' = lastProcessedBlock m /\
    bot m' = bot m /\
    monitoredAddresses m' = list_to_set ws ∪ monitoredAddresses m /\
    forall k, addressNames m' !! k =
      match stored_name (cfg_redisPrefix cfg) (redis m) k with
      | Some n => if bool_decide (k ∈ map toLowerCase ws) then Some n
                  else addressNames m !! k
      | None => addressNames m !! k
      end.
Proof.
  revert m. induction ws as [|w ws IH]; intros m.
  - exists m. cbn [load_each]. repeat split; try reflexivity.
    + apply set_eq. intros x. rewrite elem_of_union, list_to_set_nil.
      split; [auto|]. intros [H|H]; [now apply not_elem_of_empty in H|exact H].
    + intros k. destruct (stored_name _ _ k); [|reflexivity].
      rewrite bool_decide_eq_false_2; [reflexivity|]. apply not_elem_of_nil.
  - cbn [load_each]. unfold bind at 1. unfold on_redis at 1.
    unfold RefRedis.getNameByWallet at 1. rewrite set_redis_same.
    unfold bind at 1. unfold modify at 1.
    set (nm := RefRedis.h_name <$> _).
    destruct (IH (load_wallet w nm m)) as (m' & Hrun & Hr & Hw & Hl & Hb & Hm & Hn).
    exists m'. split; [exact Hrun|]. repeat split; try assumption.
    + rewrite Hm. cbn [load_wallet monitoredAddresses list_to_set].
      apply set_eq. intros x. rewrite !elem_of_union. tauto.
    + intros k. rewrite Hn. cbn [load_wallet redis addressNames map].
      assert (Hkey : k = toLowerCase w ->
                stored_name (cfg_redisPrefix cfg) (redis m) k
                = match nm with Some n => if String.eqb n "" then None else Some n
                  | None => None end).
      { intros ->. unfold stored_name, nm. now rewrite nodeKey_lower. }
      destruct (decide (k = toLowerCase w)) as [Hk|Hk].
      * rewrite (Hkey Hk). subst k.
        destruct nm as [n|]; [|reflexivity].
        destruct (String.eqb n ""); [reflexivity|].
        rewrite (bool_decide_eq_true_2 (toLowerCase w ∈ toLowerCase w :: _))
          by apply list_elem_of_here.
        destruct (bool_decide _); [reflexivity|]. now rewrite lookup_insert_eq.
      * assert (Hother :
                  (match nm with
                   | Some n0 => if String.eqb n0 "" then addressNames m
                                else <[toLowerCase w := n0]> (addressNames m)
                   | None => addressNames m end) !! k = addressNames m !! k).
        { destruct nm as [n0|]; [|reflexivity].
          destruct (String.eqb n0 ""); [reflexivity|].
          now rewrite lookup_insert_ne by congruence. }
        rewrite Hother.
        destruct (stored_name _ _ k); [|reflexivity].
        destruct (decide (k ∈ map toLowerCase ws)) as [Hin|Hout].
        -- rewrite !bool_decide_eq_true_2; auto. now apply list_elem_of_further.
        -- rewrite !bool_decide_eq_false_2; auto.
           intros Hc. apply elem_of_cons in Hc as [Hc|Hc]; contradiction.
Qed.

End Management.

Section ManagementExtras.
Import JS TransactionProcessor MessageTemplates WalletMonitor.

Variable cfg : config.
Variable W : world.

(** X24. [addWallet] of the management interface. With a wallet and a name
    that are not empty, on a store that has no node for the wallet nor for
    the empty address, it succeeds: the node is stored at level 1 with no
    referrer, the wallet in lower case is listed, the caches are updated
    (the tracked set with the wallet as it was given), and the node read
    back is returned. Adding the same wallet again is refused and changes
    nothing. *)
Theorem addWallet_manual (w nm fresh_id : string) (m : monitor) :
  w <> "" -> nm <> "" ->
  node_of (cfg_redisPrefix cfg) (redis m) w = None ->
  node_of (cfg_redisPrefix cfg) (redis m) "" = None ->
  let node := {| RefRedis.id := fresh_id; RefRedis.name := nm;
                 RefRedis.wallet := toLowerCase w; RefRedis.refer := "";
                 RefRedis.refer_id := ""; RefRedis.lv := Int 1 |} in
  exists m',
    addWallet cfg W w nm fresh_id m
      = (Returned {| success := true; nodeInfo := Some node |}, m') /\
    node_of (cfg_redisPrefix cfg) (redis m') w = Some node /\
    listed (cfg_redisPrefix cfg) (redis m')
      = {[toLowerCase w]} ∪ listed (cfg_redisPrefix cfg) (redis m) /\
    monitoredAddresses m' = {[w]} ∪ monitoredAddresses m /\
    addressNames m' = <[toLowerCase w := nm]> (addressNames m) /\
    watchedAddresses m'
      = BlockScanner.addWatchedAddress (w_ledger W) (watchedAddresses m) w /\
    (forall nm' fresh_id', addWallet cfg W w nm' fresh_id' m' = (Returned failure, m')).
Proof.
  intros Hw Hn Hfree Htop node.
  apply node_of_none in Hfree. apply node_of_none in Htop.
  pose proof (addNodeLite_free (cfg_redisPrefix cfg) w nm "" fresh_id (redis m) Hfree) as Hadd.
  assert (Hcreated : created (cfg_redisPrefix cfg) (redis m) w nm "" fresh_id
                     = {| RefRedis.h_id := fresh_id; RefRedis.h_name := nm;
                          RefRedis.h_wallet := toLowerCase w; RefRedis.h_refer := "";
                          RefRedis.h_refer_id := ""; RefRedis.h_lv := "1" |}).
  { unfold created, derived. now rewrite Htop. }
  rewrite Hcreated in Hadd.
  set (d1 := {| RefRedis.hashes := _; RefRedis.sets := _ |}) in Hadd.
  assert (Hnode : node_of (cfg_redisPrefix cfg) d1 w = Some node).
  { rewrite node_of_eq. unfold d1. cbn [RefRedis.hashes]. now rewrite lookup_insert_eq. }
  eexists. split; [|split; [|split; [|split; [|split; [|split]]]]].
  - unfold addWallet, try_catch.
    destruct (String.eqb_spec w ""); [contradiction|].
    destruct (String.eqb_spec nm ""); [contradiction|]. cbn [orb].
    unfold bind at 1. rewrite on_redis_existsWallet, Hfree.
    rewrite bool_decide_eq_false_2 by (intros [x Hx]; discriminate).
    unfold bind at 1. unfold on_redis at 1. rewrite Hadd.
    unfold bind at 1. unfold modify at 1.
    unfold bind at 1. rewrite on_redis_getNodeInfo.
    cbn [cache_wallet set_redis redis]. rewrite Hnode. reflexivity.
  - exact Hnode.
  - cbn [cache_wallet set_redis redis]. unfold listed at 1, d1. cbn [RefRedis.sets].
    now rewrite lookup_insert_eq.
  - reflexivity.
  - reflexivity.
  - reflexivity.
  - intros nm' fresh_id'. apply addWallet_refused. right. right.
    cbn [cache_wallet set_redis redis]. rewrite Hnode. eauto.
Qed.

(** X25. The tracked set keeps the wallet as it was given while the
    analysis looks the sender up in lower case: after [addWallet] of an
    address with an upper-case letter whose lower case was not tracked, a
    delta sent by that address is analysed as without activity, so
    processing it queues no notification. *)
Theorem addWallet_mixed_case (w nm fresh_id : string) (m m' : monitor) (r : op_result)
    (tx : delta) :
  addWallet cfg W w nm fresh_id m = (Returned r, m') ->
  toLowerCase w <> w ->
  toLowerCase w ∉ monitoredAddresses m ->
  toLowerCase (d_from tx) = toLowerCase w ->
  (toLowerCase w ∉ monitoredAddresses m') /\
  (forall a, analyzeTransaction tx (monitoredAddresses m') (addressNames m') = Returned a ->
             hasActivity a = false) /\
  bot (snd (process_one cfg W tx m')) = bot m'.
Proof.
  intros Hrun Hcase Hnot Hfrom.
  assert (Hmon : monitoredAddresses m' = monitoredAddresses m \/
                 monitoredAddresses m' = {[w]} ∪ monitoredAddresses m).
  { revert Hrun. unfold addWallet, try_catch.
    destruct (String.eqb w "" || String.eqb nm ""); [intros [= _ <-]; now left|].
    unfold bind at 1. rewrite on_redis_existsWallet.
    destruct (bool_decide _); [intros [= _ <-]; now left|].
    unfold bind at 1. unfold on_redis at 1.
    destruct (RefRedis.addNodeLite _ _ _ _ _ _) as [[[]|e] d1]; [|intros [= _ <-]; now left].
    unfold bind at 1. unfold modify at 1.
    unfold bind at 1. rewrite on_redis_getNodeInfo.
    intros [= _ <-]. now right. }
  assert (Hout : toLowerCase w ∉ monitoredAddresses m').
  { destruct Hmon as [-> | ->]; [exact Hnot|].
    rewrite elem_of_union, elem_of_singleton. tauto. }
  assert (Hact : forall a,
            analyzeTransaction tx (monitoredAddresses m') (addressNames m') = Returned a ->
            hasActivity a = false).
  { intros a. unfold analyzeTransaction, obind. rewrite Hfrom.
    rewrite !(bool_decide_eq_false_2 _ Hout).
    destruct (_ || _); [destruct (d_to tx); [|discriminate]|];
      destruct (0 <? _)%nat; intros [= <-]; reflexivity. }
  split; [exact Hout|]. split; [exact Hact|].
  unfold process_one. unfold bind at 1. unfold try_catch.
  unfold bind at 1. unfold get_state at 1.
  unfold bind at 1. unfold await at 1.
  destruct (analyzeTransaction tx (monitoredAddresses m') (addressNames m')) as [a|e] eqn:Ea;
    [|reflexivity].
  rewrite (Hact a eq_refl). reflexivity.
Qed.

(** X26. [removeWallet] of the management interface. On a wallet that has a
    node it succeeds and returns the node as it was stored; afterwards the
    wallet has no node, neither the wallet as given nor its lower case is
    listed, the caches have dropped it, and removing it again is refused and
    changes nothing. On an empty address or a wallet without a node it is
    refused and changes nothing. *)
Theorem removeWallet_manual (w : string) (m : monitor) :
  (w = "" \/ node_of (cfg_redisPrefix cfg) (redis m) w = None ->
   removeWallet cfg w m = (Returned failure, m)) /\
  (forall node,
     w <> "" -> node_of (cfg_redisPrefix cfg) (redis m) w = Some node ->
     exists m',
       removeWallet cfg w m = (Returned {| success := true; nodeInfo := Some node |}, m') /\
       node_of (cfg_redisPrefix cfg) (redis m') w = None /\
       listed (cfg_redisPrefix cfg) (redis m')
         = listed (cfg_redisPrefix cfg) (redis m) ∖ {[w]} ∖ {[toLowerCase w]} /\
       monitoredAddresses m' = monitoredAddresses m ∖ {[w]} /\
       addressNames m' = delete (toLowerCase w) (addressNames m) /\
       watchedAddresses m' = BlockScanner.removeWatchedAddress (watchedAddresses m) w /\
       removeWallet cfg w m' = (Returned failure, m')).
Proof.
  split; [apply removeWallet_refused|].
  intros node Hw Hnode.
  assert (Hex : is_Some (RefRedis.hashes (redis m)
                           !! RefRedis.nodeKey (cfg_redisPrefix cfg) w)).
  { rewrite node_of_eq in Hnode.
    destruct (RefRedis.hashes (redis m) !! _); [eauto|discriminate Hnode]. }
  pose proof (removeNode_eq (cfg_redisPrefix cfg) w (redis m)) as Hrem.
  set (d1 := {| RefRedis.hashes := _; RefRedis.sets := _ |}) in Hrem.
  assert (Hgone : node_of (cfg_redisPrefix cfg) d1 w = None).
  { apply node_of_none. unfold d1. cbn [RefRedis.hashes]. apply lookup_delete_eq. }
  eexists. split; [|split; [|split; [|split; [|split; [|split]]]]].
  - unfold removeWallet, try_catch.
    destruct (String.eqb_spec w ""); [contradiction|].
    unfold bind at 1. rewrite on_redis_existsWallet.
    rewrite (bool_decide_eq_true_2 _ Hex). cbn [negb].
    unfold bind at 1. rewrite on_redis_getNodeInfo, Hnode.
    unfold bind at 1. unfold on_redis at 1. rewrite Hrem.
    unfold bind at 1. unfold modify at 1. reflexivity.
  - exact Hgone.
  - cbn [uncache_wallet set_redis redis]. unfold listed at 1, d1. cbn [RefRedis.sets].
    now rewrite lookup_insert_eq.
  - reflexivity.
  - reflexivity.
  - reflexivity.
  - apply removeWallet_refused. right. exact Hgone.
Qed.

(** X27. [loadMonitoredAddresses] rebuilds the caches from the store and
    leaves the store and the scanner alone: the tracked set becomes the set
    of listed wallets, and a lower-case address has a name exactly when a
    listed wallet has that lower case and the name stored for it is not
    empty. What the caches held before is dropped. *)
Theorem loadMonitoredAddresses_mirrors (m : monitor) :
  exists m',
    loadMonitoredAddresses cfg m = (Returned tt, m') /\
    redis m' = redis m /\
    watchedAddresses m' = watchedAddresses m /\
    monitoredAddresses m' = listed (cfg_redisPrefix cfg) (redis m) /\
    forall k n,
      addressNames m' !! k = Some n <->
      (exists w, w ∈ listed (cfg_redisPrefix cfg) (redis m) /\ toLowerCase w = k) /\
      stored_name (cfg_redisPrefix cfg) (redis m) k = Some n.
Proof.
  destruct (load_each_spec cfg (elements (listed (cfg_redisPrefix cfg) (redis m)))
              (clear_caches m)) as (m' & Hrun & Hr & Hw & _ & _ & Hm & Hn).
  exists m'. split; [|split; [exact Hr|split; [exact Hw|split]]].
  - unfold loadMonitoredAddresses, try_catch.
    unfold bind at 1. unfold on_redis at 1. rewrite getAllWallets_eq, set_redis_same.
    unfold bind at 1. unfold modify at 1. rewrite Hrun. reflexivity.
  - rewrite Hm. cbn [clear_caches monitoredAddresses].
    apply set_eq. intros x. rewrite elem_of_union, elem_of_list_to_set, elem_of_elements.
    split; [|auto]. intros [H|H]; [exact H|now apply not_elem_of_empty in H].
  - intros k n. rewrite Hn. cbn [clear_caches redis addressNames].
    rewrite lookup_empty.
    assert (Hin : k ∈ map toLowerCase (elements (listed (cfg_redisPrefix cfg) (redis m)))
                  <-> exists w, w ∈ listed (cfg_redisPrefix cfg) (redis m) /\ toLowerCase w = k).
    { rewrite list_elem_of_fmap. split; intros (x & H1 & H2); exists x.
      - apply elem_of_elements in H2. auto.
      - split; [auto|]. now apply elem_of_elements. }
    destruct (stored_name _ _ k) as [n0|].
    + destruct (decide (k ∈ map toLowerCase
                              (elements (listed (cfg_redisPrefix cfg) (redis m)))))
        as [Hk|Hk].
      * rewrite (bool_decide_eq_true_2 _ Hk). split; [intros H; split; [now apply Hin|exact H]|].
        intros [_ H]. exact H.
      * rewrite (bool_decide_eq_false_2 _ Hk). split; [discriminate|].
        intros [H _]. apply Hin in H. contradiction.
    + split; [discriminate|]. intros [_ H]. discriminate H.
Qed.

End ManagementExtras.

(** ** More on the delivery queue *)

Section QueueMore.
Import MessageTemplates TgBot.

Variable sink : message -> send_result.
Hypothesis never_throttled : forall x ra, sink x <> TooManyRequests ra.

Lemma fold_send_unthrottled (now : Z) (batch : list message) (s : state) :
  let s' := fold_left (fun st m => sendMessageWithRetry sink now m st) batch s in
  calls s' = calls s ++ map (fun m => (m, sink m)) batch /\
  console s' = console s ++ flat_map (send_report sink) batch /\
  messageQueue s' = messageQueue s /\
  isProcessing s' = isProcessing s /\
  rateLimitUntil s' = rateLimitUntil s.
Proof.
  revert s. induction batch as [|x batch IH]; intros s; cbn zeta.
  - simpl. now rewrite !app_nil_r.
  - cbn [fold_left map flat_map].
    destruct (IH (sendMessageWithRetry sink now x s)) as (-> & -> & -> & -> & ->).
    unfold sendMessageWithRetry, send_report.
    destruct (sink x) as [|ra|] eqn:Ex; [| exfalso; exact (never_throttled x ra Ex) |];
      cbn [calls console messageQueue isProcessing rateLimitUntil];
      rewrite <- ?app_assoc, ?app_nil_r; auto.
Qed.

Lemma processQueue_unthrottled (now : Z) (s : state) :
  isProcessing s = false -> rateLimitUntil s <= now ->
  let s' := processQueue sink now s in
  calls s' = calls s ++ map (fun m => (m, sink m)) (take batchSize (messageQueue s)) /\
  console s' = console s ++ flat_map (send_report sink) (take batchSize (messageQueue s)) /\
  messageQueue s' = drop batchSize (messageQueue s) /\
  isProcessing s' = false /\
  rateLimitUntil s' = rateLimitUntil s.
Proof.
  intros Hp Hr. cbn zeta. unfold processQueue. rewrite Hp. cbn [orb].
  destruct (messageQueue s) as [|x q] eqn:Eq.
  - simpl. rewrite Eq, !app_nil_r. auto.
  - cbn [length Nat.eqb].
    replace (now <? rateLimitUntil s) with false by (symmetry; apply Z.ltb_ge; exact Hr).
    match goal with |- context [fold_left ?f ?b ?s0] =>
      destruct (fold_send_unthrottled now b s0) as (H1 & H2 & H3 & H4 & H5) end.
    cbn [set_processing calls console messageQueue isProcessing rateLimitUntil] in *.
    rewrite H1, H2, H3, H5. auto.
Qed.

End QueueMore.

(** ** The delivery queue with any number of alerts *)

Section QueueShared.
Import MessageTemplates TgBot.

Variable sink : message -> send_result.

Lemma failures_app (a b : list log_line) :
  failures (a ++ b) = (failures a + failures b)%nat.
Proof. induction a as [|[] a IH]; simpl; lia. Qed.

Lemma sent_count_app (sel : message -> bool) (a b : list (message * send_result)) :
  sent_count sel (a ++ b) = (sent_count sel a + sent_count sel b)%nat.
Proof. induction a as [|c a IH]; simpl; lia. Qed.

Lemma pending_app (sel : message -> bool) (a b : list message) :
  pending sel (a ++ b) = (pending sel a + pending sel b)%nat.
Proof. induction a as [|c a IH]; simpl; lia. Qed.

Lemma selected_app (sel : message -> bool) (a b : list message) :
  selected sel (a ++ b) = (selected sel a + selected sel b)%nat.
Proof. induction a as [|c a IH]; simpl; lia. Qed.

Lemma pending_fresh (sel : message -> bool) (q : list message) :
  Forall (fun m => retryCount m = None) q ->
  pending sel q = (S (Z.to_nat maxRetries) * selected sel q)%nat /\ counted q.
Proof.
  induction 1 as [|m q Hm Hq [IH1 IH2]]; [split; [reflexivity|constructor]|].
  split.
  - cbn [pending selected]. rewrite IH1. unfold attempts_left. rewrite Hm.
    destruct (sel m); simpl; lia.
  - constructor; [|exact IH2]. rewrite Hm. unfold maxRetries. simpl. lia.
Qed.

Lemma pending_none (q : list message) :
  counted q -> pending (fun _ => true) q = 0%nat -> q = [].
Proof.
  intros Hc. destruct q as [|m q]; [reflexivity|].
  apply Forall_cons in Hc as [Hm _]. cbn [pending]. unfold attempts_left.
  unfold maxRetries in *. lia.
Qed.

Hypothesis always_throttled : forall x, exists ra, sink x = TooManyRequests ra.

Lemma send_throttled_counts (sel : message -> bool) (now : Z) (x : message) (st : state) :
  counter_blind sel ->
  0 <= default 0 (retryCount x) <= maxRetries ->
  let st' := sendMessageWithRetry sink now x st in
  sent_count sel (calls st') = (sent_count sel (calls st) + selected sel [x])%nat /\
  (pending sel (messageQueue st') + selected sel [x]
   = pending sel (messageQueue st) + pending sel [x])%nat /\
  (failures (console st') + length (messageQueue st')
   = failures (console st) + length (messageQueue st) + 1)%nat /\
  (counted (messageQueue st) -> counted (messageQueue st')) /\
  isProcessing st' = isProcessing st.
Proof.
  intros Hsel Hx. cbn zeta. destruct (always_throttled x) as [ra Hra].
  destruct (sendMessageWithRetry_throttled sink now x st ra Hra) as (Hc & _ & Hq).
  assert (Hp : isProcessing (sendMessageWithRetry sink now x st) = isProcessing st).
  { unfold sendMessageWithRetry. rewrite Hra.
    destruct (default 0 (retryCount x) <? maxRetries); reflexivity. }
  rewrite Hc, sent_count_app. cbn [sent_count selected pending fst].
  destruct (default 0 (retryCount x) <? maxRetries) eqn:Er; destruct Hq as [-> ->];
    rewrite failures_app; cbn [failures pending length].
  - apply Z.ltb_lt in Er. rewrite Hsel. unfold attempts_left.
    cbn [retryCount with_retryCount default from_option]. unfold id, maxRetries in *.
    split; [lia|]. split; [destruct (sel x); lia|]. split; [lia|]. split; [|exact Hp].
    intros Hcnt. constructor; [|exact Hcnt].
    cbn [retryCount with_retryCount default from_option]. unfold id, maxRetries. lia.
  - apply Z.ltb_ge in Er. unfold attempts_left. unfold maxRetries in *.
    split; [lia|]. split; [destruct (sel x); lia|]. split; [lia|]. split; [auto|exact Hp].
Qed.

Lemma fold_throttled_counts (sel : message -> bool) (now : Z) (batch : list message)
    (st : state) :
  counter_blind sel -> counted batch -> counted (messageQueue st) ->
  let st' := fold_left (fun st m => sendMessageWithRetry sink now m st) batch st in
  sent_count sel (calls st') = (sent_count sel (calls st) + selected sel batch)%nat /\
  (pending sel (messageQueue st') + selected sel batch
   = pending sel (messageQueue st) + pending sel batch)%nat /\
  (failures (console st') + length (messageQueue st')
   = failures (console st) + length (messageQueue st) + length batch)%nat /\
  counted (messageQueue st') /\
  isProcessing st' = isProcessing st.
Proof.
  intros Hsel. revert st. induction batch as [|x batch IH]; intros st Hb Hq; cbn zeta.
  - simpl. repeat split; try lia. exact Hq.
  - apply Forall_cons in Hb as [Hx Hb]. cbn [fold_left].
    destruct (send_throttled_counts sel now x st Hsel Hx) as (H1 & H2 & H3 & H4 & H5).
    destruct (IH (sendMessageWithRetry sink now x st) Hb (H4 Hq))
      as (I1 & I2 & I3 & I4 & I5).
    cbn [selected pending length] in *.
    split; [lia|]. split; [lia|]. split; [lia|]. split; [exact I4|congruence].
Qed.

Lemma processQueue_throttled_counts (sel : message -> bool) (now : Z) (s : state) :
  counter_blind sel -> isProcessing s = false -> counted (messageQueue s) ->
  let s' := processQueue sink now s in
  (sent_count sel (calls s') + pending sel (messageQueue s')
   = sent_count sel (calls s) + pending sel (messageQueue s))%nat /\
  (failures (console s') + length (messageQueue s')
   = failures (console s) + length (messageQueue s))%nat /\
  counted (messageQueue s') /\
  isProcessing s' = false /\
  (rateLimitUntil s <= now -> messageQueue s <> [] ->
   (selected sel (messageQueue s) <= selected sel (messageQueue s) /\
    pending (fun _ => true) (messageQueue s') < pending (fun _ => true) (messageQueue s))%nat).
Proof.
  intros Hsel Hp Hq. cbn zeta. unfold processQueue. rewrite Hp. cbn [orb].
  destruct (messageQueue s) as [|x q] eqn:Eq.
  { simpl. rewrite Eq. split; [reflexivity|]. split; [reflexivity|]. split; [exact Hq|].
    split; [exact Hp|]. intros _ Habs. contradiction. }
  cbn [length Nat.eqb].
  destruct (now <? rateLimitUntil s) eqn:Et.
  { rewrite Eq. split; [reflexivity|]. split; [reflexivity|]. split; [exact Hq|].
    split; [exact Hp|]. apply Z.ltb_lt in Et. intros Habs. lia. }
  set (batch := take batchSize (x :: q)).
  set (rest := drop batchSize (x :: q)).
  assert (Hsplit : x :: q = batch ++ rest) by (symmetry; apply take_drop).
  assert (Hcb : counted batch) by (apply Forall_take; exact Hq).
  assert (Hcr : counted rest) by (apply Forall_drop; exact Hq).
  assert (Hne : (1 <= length batch)%nat) by (unfold batch, batchSize; simpl; lia).
  destruct (fold_throttled_counts sel now batch (set_processing true rest s) Hsel Hcb Hcr)
    as (H1 & H2 & H3 & H4 & H5).
  destruct (fold_throttled_counts (fun _ => true) now batch (set_processing true rest s)
              (fun _ _ => eq_refl) Hcb Hcr) as (_ & A2 & _).
  cbn [set_processing calls console messageQueue isProcessing] in *.
  assert (Hpq : forall f, pending f (x :: q) = (pending f batch + pending f rest)%nat)
    by (intros f; rewrite Hsplit at 1; apply pending_app).
  assert (Hlen : S (length q) = (length batch + length rest)%nat)
    by (change (S (length q)) with (length (x :: q)); rewrite Hsplit at 1; apply length_app).
  rewrite !Hpq. cbn [length].
  split; [lia|]. split; [lia|]. split; [exact H4|]. split; [reflexivity|].
  intros _ _. split; [lia|].
  assert (Hsel1 : selected (fun _ => true) batch = length batch).
  { clear. induction batch as [|y l IH]; simpl; lia. }
  lia.
Qed.

Lemma run_throttled_counts (sel : message -> bool) (times : list Z) (s : state) :
  counter_blind sel -> isProcessing s = false -> counted (messageQueue s) ->
  let s' := run sink times s in
  (sent_count sel (calls s') + pending sel (messageQueue s')
   = sent_count sel (calls s) + pending sel (messageQueue s))%nat /\
  (failures (console s') + length (messageQueue s')
   = failures (console s) + length (messageQueue s))%nat /\
  counted (messageQueue s') /\
  (paced sink times s ->
   (pending (fun _ => true) (messageQueue s')
    <= pending (fun _ => true) (messageQueue s) - length times)%nat).
Proof.
  intros Hsel. revert s. induction times as [|t times IH]; intros s Hp Hq; cbn zeta.
  - simpl. repeat split; auto. intros _. lia.
  - cbn [run].
    destruct (processQueue_throttled_counts sel t s Hsel Hp Hq) as (H1 & H2 & H3 & H4 & _).
    destruct (processQueue_throttled_counts (fun _ => true) t s (fun _ _ => eq_refl) Hp Hq)
      as (_ & _ & _ & _ & Hdec).
    destruct (IH (processQueue sink t s) H4 H3) as (I1 & I2 & I3 & I4).
    split; [lia|]. split; [lia|]. split; [exact I3|].
    intros [Ht Hpaced]. specialize (I4 Hpaced). cbn [length].
    destruct (messageQueue s) as [|x q] eqn:Eq.
    + assert (Hskip : processQueue sink t s = s)
        by (unfold processQueue; rewrite Hp, Eq; reflexivity).
      rewrite Hskip, Eq in I4. rewrite Hskip. cbn [pending] in *. lia.
    + assert (Hne : x :: q <> []) by discriminate.
      destruct (Hdec Ht Hne) as [_ Hlt]. lia.
Qed.

End QueueShared.

Section QueueAccepting.
Import MessageTemplates TgBot.

Variable sink : message -> send_result.
Hypothesis always_accepted : forall x, sink x = SendOk.

Lemma run_accepted (times : list Z) (s : state) :
  isProcessing s = false ->
  exists n,
    calls (run sink times s)
      = calls s ++ map (fun m => (m, SendOk)) (take n (messageQueue s)) /\
    messageQueue (run sink times s) = drop n (messageQueue s) /\
    console (run sink times s) = console s /\
    (Forall (fun t => rateLimitUntil s <= t) times -> n = (batchSize * length times)%nat).
Proof.
  assert (Hnever : forall x ra, sink x <> TooManyRequests ra).
  { intros x ra. rewrite always_accepted. discriminate. }
  assert (Hrep : forall l, flat_map (send_report sink) l = []).
  { induction l as [|x l IH]; [reflexivity|]. cbn [flat_map]. rewrite IH.
    unfold send_report. now rewrite always_accepted. }
  assert (Hmap : forall l, map (fun m => (m, sink m)) l = map (fun m => (m, SendOk)) l).
  { intros l. apply map_ext. intros m. now rewrite always_accepted. }
  revert s. induction times as [|t times IH]; intros s Hp.
  - exists 0%nat. simpl. rewrite app_nil_r, drop_0. auto.
  - cbn [run]. destruct (Z.ltb_spec t (rateLimitUntil s)) as [Hlt|Hge].
    + assert (Hskip : processQueue sink t s = s).
      { unfold processQueue. rewrite Hp. cbn [orb].
        destruct (length (messageQueue s) =? 0)%nat; [reflexivity|].
        replace (t <? rateLimitUntil s) with true by (symmetry; apply Z.ltb_lt; exact Hlt).
        reflexivity. }
      rewrite Hskip. destruct (IH s Hp) as (n & H1 & H2 & H3 & _).
      exists n. repeat split; try assumption.
      intros Hall. apply Forall_cons in Hall as [Ht _]. lia.
    + destruct (processQueue_unthrottled sink Hnever t s Hp Hge) as (H1 & H2 & H3 & H4 & H5).
      destruct (IH (processQueue sink t s) H4) as (n & I1 & I2 & I3 & I4).
      exists (batchSize + n)%nat.
      rewrite I1, I2, I3, H1, H2, H3, Hrep, Hmap, app_nil_r, <- app_assoc, <- map_app.
      rewrite take_take_drop, drop_drop. repeat split.
      intros Hall. apply Forall_cons in Hall as [_ Hall].
      rewrite I4; [cbn [length]; lia|]. now rewrite H5.
Qed.

End QueueAccepting.

Section QueueClaim.
Import MessageTemplates TgBot.

(** C4. Any number of alerts wait in the queue of a dispatcher that is not
    processing, each as [queueMessage] built it. (1) Under a sink that
    throttles every attempt: a throttled send puts the item back at the front
    of the queue with its counter incremented while the counter is below
    [maxRetries], and drops it with one permanent-failure report otherwise.
    Whatever the ticks, for every selection of alerts the calls made for them
    and the sends they have left add up to [1 + maxRetries] calls per alert,
    and the reports and the alerts still queued add up to the number of
    alerts: no alert is sent more than [1 + maxRetries] times, none leaves
    the queue without its report. When the ticks respect the throttle and
    there are enough of them, the queue is empty, every alert was sent
    exactly [1 + maxRetries] times and there is exactly one report per alert.
    (2) Under a sink that accepts every send: whatever the ticks, a prefix of
    the queue was sent, in order, each alert once, and the rest is still
    queued, with no report; ticks past the rate limit send five alerts
    each. *)
Theorem delivery_queue_retries (sink : message -> send_result) (s : state) :
  isProcessing s = false ->
  Forall (fun m => retryCount m = None) (messageQueue s) ->
  ((forall x, exists ra, sink x = TooManyRequests ra) ->
   (forall now x st,
      let st' := sendMessageWithRetry sink now x st in
      if default 0 (retryCount x) <? maxRetries then
        messageQueue st'
          = with_retryCount x (default 0 (retryCount x) + 1) :: messageQueue st /\
        failures (console st') = failures (console st)
      else
        messageQueue st' = messageQueue st /\
        failures (console st') = S (failures (console st))) /\
   (forall times sel,
      counter_blind sel ->
      let s' := run sink times s in
      (sent_count sel (calls s') + pending sel (messageQueue s')
       = sent_count sel (calls s)
         + S (Z.to_nat maxRetries) * selected sel (messageQueue s))%nat /\
      (failures (console s') + length (messageQueue s')
       = failures (console s) + length (messageQueue s))%nat) /\
   (forall times,
      paced sink times s ->
      (S (Z.to_nat maxRetries) * length (messageQueue s) <= length times)%nat ->
      let s' := run sink times s in
      messageQueue s' = [] /\
      failures (console s') = (failures (console s) + length (messageQueue s))%nat /\
      forall sel, counter_blind sel ->
        sent_count sel (calls s')
        = (sent_count sel (calls s)
           + S (Z.to_nat maxRetries) * selected sel (messageQueue s))%nat)) /\
  ((forall x, sink x = SendOk) ->
   forall times, exists n,
     calls (run sink times s)
       = calls s ++ map (fun m => (m, SendOk)) (take n (messageQueue s)) /\
     messageQueue (run sink times s) = drop n (messageQueue s) /\
     console (run sink times s) = console s /\
     (Forall (fun t => rateLimitUntil s <= t) times -> n = (batchSize * length times)%nat)).
Proof.
  intros Hp Hfresh.
  assert (Hall : forall sel,
            pending sel (messageQueue s)
            = (S (Z.to_nat maxRetries) * selected sel (messageQueue s))%nat)
    by (intros sel; apply (pending_fresh sel _ Hfresh)).
  pose proof (proj2 (pending_fresh (fun _ => true) _ Hfresh)) as Hcnt.
  split.
  - intros Hthr. split; [|split].
    + intros now x st st'. destruct (Hthr x) as [ra Hra].
      destruct (sendMessageWithRetry_throttled sink now x st ra Hra) as (_ & _ & H).
      fold st' in H. destruct (default 0 (retryCount x) <? maxRetries);
        destruct H as [-> ->]; (split; [reflexivity|]);
        rewrite failures_app; simpl; lia.
    + intros times sel Hsel s'.
      destruct (run_throttled_counts sink Hthr sel times s Hsel Hp Hcnt) as (H1 & H2 & _).
      fold s' in H1, H2. rewrite <- Hall. split; [exact H1|exact H2].
    + intros times Hpaced Hlen s'.
      destruct (run_throttled_counts sink Hthr (fun _ => true) times s (fun _ _ => eq_refl)
                  Hp Hcnt) as (_ & H2 & H3 & H4).
      fold s' in H2, H3, H4. specialize (H4 Hpaced).
      assert (Hsel1 : selected (fun _ => true) (messageQueue s) = length (messageQueue s)).
      { clear. induction (messageQueue s) as [|y l IH]; simpl; lia. }
      rewrite (Hall (fun _ => true)), Hsel1 in H4.
      assert (Hempty : messageQueue s' = []) by (apply pending_none; [exact H3|lia]).
      split; [exact Hempty|]. split.
      * rewrite Hempty in H2. simpl in H2. lia.
      * intros sel Hsel.
        destruct (run_throttled_counts sink Hthr sel times s Hsel Hp Hcnt) as (H1 & _).
        fold s' in H1. rewrite Hempty in H1. cbn [pending] in H1.
        rewrite <- Hall. lia.
  - intros Hok times. apply (run_accepted sink Hok times s Hp).
Qed.

Lemma six_alerts_paced : paced always_429 slow_ticks six_alerts.
Proof. vm_compute. repeat split; discriminate. Qed.

Lemma delivery_queue_retries_witness :
  (messageQueue (run always_429 slow_ticks six_alerts) = [] /\
   failures (console (run always_429 slow_ticks six_alerts)) = 6%nat /\
   sent_count is_sixth (calls (run always_429 slow_ticks six_alerts)) = 4%nat) /\
  map fst (calls (run always_ok [0; 200] six_alerts)) = messageQueue six_alerts.
Proof.
  destruct (delivery_queue_retries always_429 six_alerts eq_refl) as [Hthr _].
  { repeat constructor. }
  destruct (delivery_queue_retries always_ok six_alerts eq_refl) as [_ Hok].
  { repeat constructor. }
  specialize (Hthr (fun x => ex_intro _ (Some 2) eq_refl)) as (_ & _ & Hend).
  destruct (Hend slow_ticks six_alerts_paced) as (Hq & Hf & Hs).
  { vm_compute. apply le_n. }
  split.
  - split; [exact Hq|]. split; [exact Hf|].
    apply (Hs is_sixth). intros m n. reflexivity.
  - destruct (Hok (fun _ => eq_refl) [0; 200]) as (n & Hcalls & _ & _ & Hn).
    rewrite Hcalls, (Hn ltac:(repeat constructor; simpl; lia)). vm_compute. reflexivity.
Defined.

End QueueClaim.

Section QueueExtras.
Import MessageTemplates TgBot.

(** X28. Under a sink that never throttles, ticks that start once the rate
    limit is over send the queue in order, five messages a tick, each
    message exactly once: a send that fails otherwise is reported and never
    retried, and what is left in the queue is what was not sent yet. *)
Theorem run_delivers_in_order (sink : message -> send_result) (times : list Z) (s : state) :
  (forall x ra, sink x <> TooManyRequests ra) ->
  isProcessing s = false ->
  Forall (fun t => rateLimitUntil s <= t) times ->
  let n := (batchSize * length times)%nat in
  let s' := run sink times s in
  calls s' = calls s ++ map (fun m => (m, sink m)) (take n (messageQueue s)) /\
  console s' = console s ++ flat_map (send_report sink) (take n (messageQueue s)) /\
  messageQueue s' = drop n (messageQueue s).
Proof.
  intros Hsink. revert s. induction times as [|t times IH]; intros s Hp Ht; cbn zeta.
  - rewrite Nat.mul_0_r. simpl. rewrite !app_nil_r, drop_0. auto.
  - apply Forall_cons in Ht as [Ht Hts]. cbn [run length].
    destruct (processQueue_unthrottled sink Hsink t s Hp Ht) as (H1 & H2 & H3 & H4 & H5).
    destruct (IH (processQueue sink t s) H4) as (-> & -> & ->).
    { now rewrite H5. }
    rewrite H1, H2, H3, <- !app_assoc, <- map_app, <- flat_map_app.
    replace (batchSize * S (length times))%nat
      with (batchSize + batchSize * length times)%nat by lia.
    rewrite take_take_drop, drop_drop. auto.
Qed.

End QueueExtras.

Section DetectionExtras.
Import JS TransactionProcessor MessageTemplates WalletMonitor.

(** X29. [hasOnlyOneTokenType] holds exactly when the list has a change and
    all its changes name the same token, letter case apart. *)
Theorem hasOnlyOneTokenType_iff (erc20Changes : list erc20_change) :
  hasOnlyOneTokenType erc20Changes = true <->
  erc20Changes <> [] /\
  forall c c', c ∈ erc20Changes -> c' ∈ erc20Changes ->
               toLowerCase (c_tokenAddress c) = toLowerCase (c_tokenAddress c').
Proof.
  unfold hasOnlyOneTokenType.
  destruct erc20Changes as [|c0 cs]; [cbn; split; [discriminate|intros [H _]; congruence]|].
  cbn [length Nat.eqb]. rewrite Nat.eqb_eq.
  set (l := c0 :: cs).
  set (X := list_to_set (map (fun c => toLowerCase (c_tokenAddress c)) l) : gset string).
  assert (HX : forall x, x ∈ X <-> exists c, c ∈ l /\ x = toLowerCase (c_tokenAddress c)).
  { intros x. unfold X. rewrite elem_of_list_to_set, list_elem_of_fmap.
    split; intros (c & H1 & H2); exists c; auto. }
  split.
  - intros Hsize. split; [discriminate|]. intros c c' Hc Hc'.
    apply size_1_elem_of in Hsize as [x Hx].
    assert (H1 : toLowerCase (c_tokenAddress c) ∈ X) by (apply HX; eauto).
    assert (H2 : toLowerCase (c_tokenAddress c') ∈ X) by (apply HX; eauto).
    rewrite Hx in H1, H2. apply elem_of_singleton in H1, H2. congruence.
  - intros [_ Hsame].
    assert (HXs : X ≡ {[toLowerCase (c_tokenAddress c0)]}).
    { intros x. rewrite HX, elem_of_singleton. split.
      - intros (c & Hc & ->). apply Hsame; [exact Hc|apply list_elem_of_here].
      - intros ->. exists c0. split; [apply list_elem_of_here|reflexivity]. }
    rewrite HXs. apply size_singleton.
Qed.

(** X30. The exchange check of [addNewWallet] through [getIsCexDict]. When
    the history request fails, when its answer has no [cex_dict], or when
    the [cex_dict] has a key, the address is not enrolled and the monitor is
    left as it was; with an empty [cex_dict] an address without a node is
    enrolled in the caches. *)
Theorem addNewWallet_cex_lookup (cfg : config) (W : world)
    (response : string -> outcome Utils.history) (w from : string) (m : monitor) :
  node_of (cfg_redisPrefix cfg) (redis m) w = None ->
  (response w <> Returned {| Utils.cex_dict := Some [] |} ->
   addNewWallet cfg (with_history W response) w from m = (Returned tt, m)) /\
  (response w = Returned {| Utils.cex_dict := Some [] |} ->
   w ∈ monitoredAddresses (snd (addNewWallet cfg (with_history W response) w from m))).
Proof.
  intros Hfree. apply node_of_none in Hfree.
  assert (Hrun : exists m',
            addNewWallet cfg (with_history W response) w from m = (Returned tt, m') /\
            match Utils.getIsCexDict (response w) with
            | Returned false => w ∈ monitoredAddresses m'
            | _ => m' = m
            end).
  { unfold addNewWallet, try_catch.
    unfold bind at 1. rewrite on_redis_existsWallet, Hfree.
    rewrite bool_decide_eq_false_2 by (intros [x Hx]; discriminate). cbn [negb].
    unfold bind at 1. unfold get_state at 1.
    unfold bind at 1. unfold await at 1. cbn [with_history w_isCex].
    destruct (Utils.getIsCexDict (response w)) as [[|]|e];
      (eexists; split; [reflexivity|]); try reflexivity.
    cbn. apply elem_of_union. left. now apply elem_of_singleton. }
  destruct Hrun as (m' & Hrun & Hm'). rewrite Hrun. cbn [snd].
  revert Hm'. unfold Utils.getIsCexDict, Utils.getCexDict, obind.
  destruct (response w) as [[[[|k ks]|]]|e]; cbn; intros Hm'; split; intros H;
    try congruence; try exact Hm'.
Qed.

End DetectionExtras.

(** ** The properties above on concrete runs *)

Section StoreRuns.
Import JS RefRedis.

Lemma updateNode_partial_witness :
  exists d' node',
    updateNode "ref:" "0xABC1" (rename_at "Alicia" 3) alice_store = (Returned tt, d') /\
    node_of "ref:" d' "0xABC1" = Some node' /\
    name node' = "Alicia" /\ lv node' = Int 3 /\
    updateNode "ref:" "0xdef2" (rename "Bob") alice_store
      = (Thrown (NodeDoesNotExist "0xdef2"), alice_store).
Proof.
  destruct (updateNode_partial "ref:" "0xABC1" (rename_at "Alicia" 3) alice_store)
    as [_ Hset].
  destruct (Hset {| id := "a"; name := "Alice"; wallet := "0xabc1"; refer := "";
                    refer_id := ""; lv := Int 1 |})
    as (d' & node' & Hrun & Hnode & _ & Hname & _ & _ & _ & _ & Hlv & _);
    [vm_compute; reflexivity|].
  exists d', node'. split; [exact Hrun|]. split; [exact Hnode|].
  split; [exact Hname|]. split.
  - apply (Hlv (Int 3)); [reflexivity|]. simpl. lia.
  - apply (proj1 (updateNode_partial "ref:" "0xdef2" (rename "Bob") alice_store)).
    vm_compute. reflexivity.
Defined.

Lemma alice_store_maintained : maintained "ref:" alice_store.
Proof.
  apply (maintained_add "ref:" empty_db "0xABC1" "Alice" "" "a"); [constructor|].
  vm_compute. reflexivity.
Qed.

Lemma maintained_listing_witness :
  exists wallets,
    getAllWallets "ref:" alice_store = (Returned wallets, alice_store) /\
    NoDup wallets /\
    ("0xabc1" ∈ wallets <->
     toLowerCase "0xabc1" = "0xabc1" /\
     existsWallet "ref:" "0xabc1" alice_store = (Returned true, alice_store)).
Proof.
  destruct (maintained_listing "ref:" alice_store alice_store_maintained)
    as (wallets & Hget & Hnd & Hiff).
  exists wallets. split; [exact Hget|]. split; [exact Hnd|]. apply Hiff.
Defined.

Lemma maintained_levels_positive_witness :
  exists node n,
    node_of "ref:" alice_store "0xABC1" = Some node /\ lv node = Int n /\ 1 <= n.
Proof.
  exists {| id := "a"; name := "Alice"; wallet := "0xabc1"; refer := "";
            refer_id := ""; lv := Int 1 |}.
  assert (Hnode : node_of "ref:" alice_store "0xABC1"
                  = Some {| id := "a"; name := "Alice"; wallet := "0xabc1"; refer := "";
                            refer_id := ""; lv := Int 1 |}) by (vm_compute; reflexivity).
  destruct (maintained_levels_positive "ref:" alice_store "0xABC1" _
              alice_store_maintained Hnode) as (n & Hn & Hpos).
  exists n. auto.
Defined.

Lemma addNodeLite_lookup_witness :
  existsWallet "ref:" "0xABC1" alice_store = (Returned true, alice_store) /\
  getNameByWallet "ref:" "0xABC1" alice_store = (Returned (Some "Alice"), alice_store).
Proof.
  destruct (addNodeLite_lookup "ref:" "0xABC1" "Alice" "" "a" empty_db alice_store)
    as (Hex & Hname & _); [vm_compute; reflexivity|].
  split; [exact Hex|exact Hname].
Defined.

Lemma importFromJson_again_witness :
  let d1 := snd (DatabaseExecutor.importFromJson "ref:" (fun _ => "a") two_items empty_db) in
  DatabaseExecutor.importFromJson "ref:" (fun _ => "b") two_items d1 = (Returned (1, 1), d1).
Proof.
  intros d1.
  apply (importFromJson_again "ref:" (fun _ => "a") (fun _ => "b") two_items empty_db d1 (1, 1)).
  vm_compute. reflexivity.
Defined.

End StoreRuns.

Section ClassifierRuns.
Import JS TransactionProcessor MessageTemplates.

Lemma classification_by_value_and_data_witness :
  exists p p',
    parseTransaction silent_ledger plain_transfer None = Some p /\
    parseTransaction five_blocks funded_creation (Some {| r_logs := Some [] |}) = Some p' /\
    p_transactionType p = p_transactionType p'.
Proof.
  destruct (parseTransaction silent_ledger plain_transfer None) as [p|] eqn:Hp;
    [|discriminate Hp].
  destruct (parseTransaction five_blocks funded_creation (Some {| r_logs := Some [] |}))
    as [p'|] eqn:Hp'; [|discriminate Hp'].
  exists p, p'. split; [reflexivity|]. split; [reflexivity|].
  apply (classification_by_value_and_data silent_ledger five_blocks
           plain_transfer funded_creation None (Some {| r_logs := Some [] |}) p p' Hp Hp');
    reflexivity.
Defined.

Lemma payload_never_native_witness :
  exists p,
    parseTransaction silent_ledger token_call None = Some p /\
    p_transactionType p = erc20_transfer /\
    p_methodSignature p = Some "0xa9059cbb".
Proof.
  destruct (parseTransaction silent_ledger token_call None) as [p|] eqn:Hp;
    [|discriminate Hp].
  destruct (payload_never_native silent_ledger token_call None p Hp eq_refl)
    as (_ & _ & Hsig & Htransfer & _).
  exists p. split; [reflexivity|]. split; [apply Htransfer; reflexivity|exact Hsig].
Defined.

Lemma token_changes_from_logs_witness :
  exists p,
    parseTransaction silent_ledger token_call (Some {| r_logs := Some [usdt_transfer_log] |})
      = Some p /\
    map c_formattedValue (p_erc20Changes p) = ["1.0"] /\
    map c_to (p_erc20Changes p)
      = ["0x00000000000000000000000000000000000000b2"].
Proof.
  destruct (parseTransaction silent_ledger token_call
              (Some {| r_logs := Some [usdt_transfer_log] |})) as [p|] eqn:Hp;
    [|discriminate Hp].
  destruct (token_changes_from_logs silent_ledger token_call _ p Hp) as (Hc & _).
  exists p. split; [reflexivity|]. rewrite Hc. split; vm_compute; reflexivity.
Defined.

Lemma parseTransferEvent_metadata_witness :
  exists c,
    parseTransferEvent silent_ledger usdt_transfer_log = Some c /\
    c_tokenSymbol c = "UNKNOWN" /\ c_tokenDecimals c = 18%nat /\
    c_value c = "1000000000000000000".
Proof.
  destruct (proj1 (parseTransferEvent_metadata silent_ledger usdt_transfer_log)
              "0x00000000000000000000000000000000000000000000000000000000000000aa"
              "0x00000000000000000000000000000000000000000000000000000000000000b2"
              "0x00000000000000000000000000000000000000aa"
              "0x00000000000000000000000000000000000000b2"
              1000000000000000000)
    as (c & Hc & _ & _ & Hv & _ & _ & Hs & Hd & _);
    [reflexivity | reflexivity | reflexivity | reflexivity | vm_compute; reflexivity |].
  exists c. split; [exact Hc|]. split; [exact Hs|]. split; [exact Hd|].
  rewrite Hv. vm_compute. reflexivity.
Defined.

End ClassifierRuns.

Section ScannerRuns.
Import JS TransactionProcessor BlockScanner.

Lemma five_blocks_receipts : receipts_available five_blocks {["0xaa"]} scan_config 1 5.
Proof. intros b t _ _ _. eexists. reflexivity. Qed.

Lemma five_blocks_numbered : numbered five_blocks.
Proof.
  intros b blk txs t Hb Htxs Ht. unfold five_blocks in Hb. cbn in Hb.
  destruct (b =? 3); [discriminate Hb|]. injection Hb as <-.
  cbn in Htxs. injection Htxs as <-.
  apply list_elem_of_singleton in Ht. subst t. reflexivity.
Qed.

Lemma five_blocks_scanned :
  scanBlockRangeParallel five_blocks {["0xaa"]} scan_config 1 5 = Returned five_blocks_scan.
Proof. reflexivity. Qed.

Lemma head_elem_of {A} (l : list A) (x : A) : head l = Some x -> x ∈ l.
Proof. destruct l as [|y l]; [discriminate|]. intros [= ->]. apply list_elem_of_here. Qed.

Lemma scanBlockRange_agrees_witness :
  scanBlockRange five_blocks {["0xaa"]} scan_config 1 5 = Returned five_blocks_scan /\
  map d_blockNumber five_blocks_scan = [1; 2; 4; 5].
Proof.
  split.
  - rewrite (scanBlockRange_agrees five_blocks {["0xaa"]} scan_config 1 5 five_blocks_receipts).
    exact five_blocks_scanned.
  - vm_compute. reflexivity.
Defined.

Lemma scan_results_sound_witness :
  exists d b t r,
    head five_blocks_scan = Some d /\
    1 <= b <= 5 /\
    t ∈ getBlockTransactions five_blocks b /\
    getTransactionReceipt five_blocks (tx_hash t) = Some r /\
    d_hash d = tx_hash t /\
    0 <= tx_value t <= 10000 * 10 ^ 18.
Proof.
  destruct (head five_blocks_scan) as [d|] eqn:Hd; [|vm_compute in Hd; discriminate Hd].
  destruct (scan_results_sound five_blocks {["0xaa"]} scan_config 1 5 five_blocks_scan d
              five_blocks_scanned (head_elem_of _ _ Hd))
    as (b & t & r & Hb & Ht & Hr & _ & Hh & _ & _ & Hv & _).
  exists d, b, t, r. repeat split; try assumption; apply Hb || apply Hv.
Defined.

Lemma scan_results_ascending_witness :
  StronglySorted Z.le (map d_blockNumber five_blocks_scan) /\
  Forall (fun d => 1 <= d_blockNumber d <= 5) five_blocks_scan.
Proof.
  exact (scan_results_ascending five_blocks {["0xaa"]} scan_config 1 5 five_blocks_scan
           five_blocks_numbered five_blocks_scanned).
Defined.

End ScannerRuns.

Section AnalyzerRuns.
Import JS TransactionProcessor MessageTemplates.

Lemma token_payment_analyzed :
  analyzeTransaction token_payment {["0xaa"]} {["0xaa" := "Alice"]}
  = Returned token_payment_analysis.
Proof. vm_compute. reflexivity. Qed.

Lemma analyzeTransaction_entries_witness :
  analyzeTransaction token_payment {["0xaa"]} {["0xaa" := "Alice"]}
    = Returned token_payment_analysis /\
  received token_payment_analysis = [] /\
  map e_to (sent token_payment_analysis) = ["0xb2"].
Proof.
  split; [exact token_payment_analyzed|].
  destruct (analyzeTransaction_entries token_payment {["0xaa"]} {["0xaa" := "Alice"]} _
              token_payment_analyzed) as (_ & _ & Htracked).
  destruct Htracked as [Hr Hs].
  - apply elem_of_singleton. reflexivity.
  - rewrite Hr, Hs. split; vm_compute; reflexivity.
Defined.

Lemma analyzeTransaction_throws_witness :
  exists d e,
    classify silent_ledger funded_creation None = Some d /\
    analyzeTransaction d {["0xaa"]} ∅ = Thrown e.
Proof.
  destruct (classify silent_ledger funded_creation None) as [d|] eqn:Hd;
    [|discriminate Hd].
  destruct (proj2 (analyzeTransaction_throws silent_ledger funded_creation None d
                     {["0xaa"]} ∅ Hd)) as [e He].
  - split; [reflexivity|reflexivity].
  - exists d, e. split; [reflexivity|exact He].
Defined.

End AnalyzerRuns.

Section MonitorRuns.
Import JS TransactionProcessor MessageTemplates WalletMonitor.

Lemma process_one_enrolls_only_witness :
  recipient_of token_payment "0xb2" /\
  isEOA silent_ledger "0xb2" = true /\
  node_of "wallet:" (redis one_wallet) "0xb2" = None /\
  toLowerCase (d_from token_payment) ∈ monitoredAddresses one_wallet.
Proof.
  destruct (process_one_enrolls_only default_config generous_world token_payment
              one_wallet "0xb2") as (Hrec & Heoa & _ & Hnode & _ & Hfrom).
  - refine (bool_decide_unpack _ _); vm_compute; exact I.
  - refine (bool_decide_unpack _ _); vm_compute; exact I.
  - split; [exact Hrec|]. split; [exact Heoa|]. split; [exact Hnode|exact Hfrom].
Defined.

Lemma scans_contiguous_witness :
  exists new,
    events (startMonitoringLoop default_config
              [quiet_world five_blocks 3; quiet_world five_blocks 5] one_wallet)
      = events one_wallet ++ new /\
    scans new = [(1, 3); (4, 5)] /\
    contiguous 0 (scans new) /\
    lastProcessedBlock (startMonitoringLoop default_config
                          [quiet_world five_blocks 3; quiet_world five_blocks 5] one_wallet)
      = 5.
Proof.
  destruct (scans_contiguous default_config
              [quiet_world five_blocks 3; quiet_world five_blocks 5] one_wallet eq_refl)
    as (new & Hev & Hc & Hl & _).
  assert (Hs : scans new = [(1, 3); (4, 5)]).
  { assert (Hall : scans (events (startMonitoringLoop default_config
                            [quiet_world five_blocks 3; quiet_world five_blocks 5] one_wallet))
                   = [(1, 3); (4, 5)]) by (vm_compute; reflexivity).
    rewrite Hev, scans_app in Hall. exact Hall. }
  exists new. split; [exact Hev|]. split; [exact Hs|]. split; [exact Hc|].
  rewrite Hl, Hs. reflexivity.
Defined.

Lemma addWallet_manual_witness :
  exists m',
    addWallet default_config (quiet_world silent_ledger 0) "0xBB22" "Bob" "b" one_wallet
      = (Returned {| success := true;
                     nodeInfo := Some {| RefRedis.id := "b"; RefRedis.name := "Bob";
                                         RefRedis.wallet := "0xbb22"; RefRedis.refer := "";
                                         RefRedis.refer_id := ""; RefRedis.lv := Int 1 |} |},
         m') /\
    monitoredAddresses m' = {["0xBB22"]} ∪ monitoredAddresses one_wallet /\
    addWallet default_config (quiet_world silent_ledger 0) "0xBB22" "Robert" "c" m'
      = (Returned failure, m').
Proof.
  destruct (addWallet_manual default_config (quiet_world silent_ledger 0)
              "0xBB22" "Bob" "b" one_wallet)
    as (m' & Hrun & _ & _ & Hmon & _ & _ & Hagain);
    [discriminate | discriminate | vm_compute; reflexivity | vm_compute; reflexivity |].
  exists m'. split; [exact Hrun|]. split; [exact Hmon|]. apply Hagain.
Defined.

Lemma addWallet_mixed_case_witness :
  let m' := snd (addWallet default_config (quiet_world silent_ledger 0)
                   "0xBB22" "Bob" "b" one_wallet) in
  bot (snd (process_one default_config (quiet_world silent_ledger 0) bob_payment m')) = bot m'.
Proof.
  intros m'.
  destruct (addWallet_mixed_case default_config (quiet_world silent_ledger 0)
              "0xBB22" "Bob" "b" one_wallet m'
              (fst (addWallet_result_of default_config (quiet_world silent_ledger 0)
                      "0xBB22" "Bob" "b" one_wallet))
              bob_payment) as (_ & _ & Hbot).
  - vm_compute. reflexivity.
  - discriminate.
  - refine (bool_decide_unpack _ _); vm_compute; exact I.
  - reflexivity.
  - exact Hbot.
Defined.

Lemma addNewWallet_cex_lookup_witness :
  addNewWallet default_config
    (with_history (quiet_world silent_ledger 0) (fun _ => Thrown (RpcError "fetch")))
    "0xb2" "0xaa" one_wallet
  = (Returned tt, one_wallet).
Proof.
  apply (addNewWallet_cex_lookup default_config (quiet_world silent_ledger 0)
           (fun _ => Thrown (RpcError "fetch")) "0xb2" "0xaa" one_wallet).
  - vm_compute. reflexivity.
  - discriminate.
Defined.

End MonitorRuns.

Section QueueRuns.
Import MessageTemplates TgBot.

Lemma run_delivers_in_order_witness :
  let s := sendHtml "chat" (newWallet "0xb2" "Alice" "0xaa" "Alice") None
             (sendHtml "chat" (error (RpcError "timeout") 7) None initial) in
  map fst (calls (run always_ok [0] s)) = messageQueue s /\
  messageQueue (run always_ok [0] s) = [].
Proof.
  intros s.
  destruct (run_delivers_in_order always_ok [0] s) as (Hcalls & _ & Hqueue).
  - intros x ra. discriminate.
  - reflexivity.
  - repeat constructor. simpl. lia.
  - split; [rewrite Hcalls|rewrite Hqueue]; reflexivity.
Defined.

End QueueRuns.
